(** * danpy: grid layout and image tiling

    A shallow embedding of [danpy/grid_layout.py], [danpy/image.py] and
    [danpy/image_tile.py], and the properties of the grid-layout solver and
    of the image tiler proved about it.

    - Python integers are [Z]; exceptions are the [Raise] results of a small
      error monad.
    - Python floats are IEEE 754 binary64 numbers.  A float is a pair of an
      integer significand and a binary exponent, the format is a predicate
      on such pairs, and a floating-point operation returns a representable
      number nearest to its exact real result ([RN]).  [RN] is specified,
      not computed: every value of a float expression below is derived from
      that specification.  The C library's [pow], which Python's [**]
      calls, is taken as correctly rounded.
    - PIL is modelled as far as the tiler uses it: an image is its size and
      its pixels, [paste] overwrites a box of the canvas, [resize] returns
      an image of the requested size.  What PIL's [save], its font loader
      and its text drawing do depends on the installed encoders, fonts and
      on the disk: they are parameters of the functions that call them.

    The repository holds two tilers with the same body: [image_tile] of
    danpy/image.py takes paths or loaded images and returns the combined
    image; the older one of danpy/image_tile.py takes paths only and saves
    the combined image itself.

    Besides the layout functions and the tilers the development covers
    [to_canonical_absloc] and [label_image] of danpy/image.py,
    danpy/option.py, and [PerfInfo] and [PerfTimer] of danpy/logging.py
    (the clock reading is an argument). *)

From Stdlib Require Import ZArith List Bool String Lia Lra Psatz Reals.
From Stdlib Require Import ClassicalEpsilon.
From Stdlib Require Import Ascii.
Import ListNotations.

Local Open Scope Z_scope.

(** ** Exceptions and results *)

(** The Python exceptions the modelled code can raise. *)
Inductive exception : Type :=
  | OverflowError      (* int too large to convert to float, or to the C
                          int of a PIL size *)
  | TypeError          (* int() of a complex number, unsupported source type *)
  | ValueError         (* a size PIL refuses *)
  | ZeroDivisionError
  | IndexError         (* list index out of range *)
  | OSError.           (* Image.open on a path that holds no image; a file
                          that cannot be written *)

Inductive result (A : Type) : Type :=
  | Ok (a : A)
  | Raise (e : exception).
Arguments Ok {A} a.
Arguments Raise {A} e.

Definition bind {A B : Type} (r : result A) (k : A -> result B) : result B :=
  match r with
  | Ok a => k a
  | Raise e => Raise e
  end.

Notation "x <- r ;; k" := (bind r (fun x => k))
  (at level 61, r at next level, right associativity).
Notation "' p <- r ;; k" := (bind r (fun p => k))
  (at level 61, p pattern, r at next level, right associativity).

(** ** Python floats *)

Module Binary64.

(** A float is [Fnum * 2 ^ Fexp]. *)
Record float : Type := Float { Fnum : Z; Fexp : Z }.

Definition pow2 (e : Z) : R := powerRZ 2 e.

Definition F2R (f : float) : R := (IZR (Fnum f) * pow2 (Fexp f))%R.

(** The finite binary64 numbers: 53 bits of significand, exponents from
    the smallest subnormal [2^-1074] up to [(2^53 - 1) * 2^971]. *)
Definition binary64 (f : float) : Prop :=
  Z.abs (Fnum f) < 2 ^ 53 /\ -1074 <= Fexp f <= 971.

(** [f] is a binary64 number nearest to the real [v]. *)
Definition nearest (v : R) (f : float) : Prop :=
  binary64 f /\
  forall g, binary64 g -> (Rabs (F2R f - v) <= Rabs (F2R g - v))%R.

(** Rounding to nearest.  Ties are left to the choice: no property below
    depends on how they are broken. *)
Definition RN (v : R) : float :=
  epsilon (inhabits (Float 0 0)) (nearest v).

(** Python raises nothing when a quotient, a product or a sum of floats
    exceeds the finite floats: the result is [inf].  IEEE 754 decides by
    the exact value: from [2^1024 - 2^970] on, the midpoint of the largest
    float and [2^1024], the result is infinite.  [inf] and [-inf] are
    written [2^1024] and [-2^1024] here; they are no binary64 numbers. *)
Definition infinity (negative : bool) : float :=
  Float (if negative then -1 else 1) 1024.

Definition RN_inf (v : R) : float :=
  if Rle_dec (IZR (2 ^ 1024 - 2 ^ 970)) (Rabs v)
  then infinity (if Rlt_dec v 0 then true else false)
  else RN v.

(** [float(n)] as Python converts an integer operand of a float
    operation: correctly rounded, [OverflowError] when the rounded value
    would exceed the largest finite float. *)
Definition py_float (n : Z) : result float :=
  if 2 ^ 1024 - 2 ^ 970 <=? Z.abs n then Raise OverflowError
  else Ok (RN (IZR n)).

(** [x / y] on floats. *)
Definition py_truediv (x y : float) : result float :=
  if Fnum y =? 0 then Raise ZeroDivisionError
  else Ok (RN_inf (F2R x / F2R y)).

(** The exact power, for a base [0 <= x] and an exponent [0 < y]. *)
Definition real_pow (x y : R) : R :=
  if Req_dec_T x 0 then 0%R else Rpower x y.

(** The C library's [pow], taken as correctly rounded. *)
Definition libm_pow (x y : float) : float :=
  RN (real_pow (F2R x) (F2R y)).

(** [count ** y] for an integer [count] and a float [y] that is no
    integer: the base is converted to float first ([OverflowError] when it
    has none), then [pow] is called; a negative base gives a complex
    number, which [int()] then refuses with [TypeError]. *)
Definition py_pow (count : Z) (y : float) : result float :=
  x <- py_float count ;;
  if count <? 0 then Raise TypeError
  else Ok (libm_pow x y).

(** [int(f)] for a finite [f]: truncation toward zero. *)
Definition py_int (f : float) : Z :=
  if 0 <=? Fexp f then Fnum f * 2 ^ Fexp f
  else Z.quot (Fnum f) (2 ^ (- Fexp f)).

(** The literals [1.0], [2.0] and [3.0]. *)
Definition f1_0 : float := Float 1 0.
Definition f2_0 : float := Float 2 0.
Definition f3_0 : float := Float 3 0.

(** The largest finite float. *)
Definition max_float : float := Float (2 ^ 53 - 1) 971.

(** The significand of [1.0 / 3.0 = 6004799503160661 * 2^-54]. *)
Definition third_num : Z := 6004799503160661.

End Binary64.
Import Binary64.

(** ** danpy/grid_layout.py *)

(** [range(lo, hi)] *)
Definition py_range (lo hi : Z) : list Z :=
  map (fun k => lo + Z.of_nat k) (seq 0 (Z.to_nat (hi - lo))).

(** The loop shared by both layout functions:
<<
    root = 1
    for i in range(2, stop):
        if count % i == 0:
            root = i
>> *)
Definition divisor_step (count root i : Z) : Z :=
  if count mod i =? 0 then i else root.

Definition divisor_loop (count stop : Z) : Z :=
  fold_left (divisor_step count) (py_range 2 stop) 1.

Definition grid_layout_2d (count : Z) : result (Z * Z) :=
  e <- py_truediv f1_0 f2_0 ;;
  p <- py_pow count e ;;
  let root := divisor_loop count (py_int p + 1) in
  Ok (root, count / root).

Definition grid_layout_3d (count : Z) : result (Z * Z * Z) :=
  e <- py_truediv f1_0 f3_0 ;;
  p <- py_pow count e ;;
  let root := divisor_loop count (py_int p + 1) in
  '(ny, nx) <- grid_layout_2d (count / root) ;;
  Ok (root, ny, nx).

(** *** Reference definitions, in the words of the specification *)

(** [d] is the largest integer in [[2, hi]] that divides [count] evenly,
    and 1 if there is none. *)
Definition largest_divisor_upto (count hi d : Z) : Prop :=
  (2 <= d <= hi /\ count mod d = 0 /\
   forall i, d < i <= hi -> count mod i <> 0) \/
  (d = 1 /\ forall i, 2 <= i <= hi -> count mod i <> 0).

(** The 2D layout with the exact integer square root as search bound. *)
Definition grid_layout_2d_isqrt (count : Z) : Z * Z :=
  let root := divisor_loop count (Z.sqrt count + 1) in
  (root, count / root).

(** [floor(count ^ (1/3))], by counting the cubes up to [count]. *)
Definition icbrt (count : Z) : Z :=
  Z.of_nat (List.length (filter (fun k => k * k * k <=? count)
                                (py_range 1 (count + 1)))).

(** The 3D layout as the specification words it: the search bound is the
    exact integer cube root. *)
Definition grid_layout_3d_icbrt (count : Z) : Z * Z * Z :=
  let root := divisor_loop count (icbrt count + 1) in
  let '(ny, nx) := grid_layout_2d_isqrt (count / root) in
  (root, ny, nx).

(** ** Monadic list traversals *)

Fixpoint mapM {A B : Type} (f : A -> result B) (l : list A)
  : result (list B) :=
  match l with
  | [] => Ok []
  | a :: l' => b <- f a ;; bs <- mapM f l' ;; Ok (b :: bs)
  end.

Fixpoint foldM {A B : Type} (f : A -> B -> result A) (l : list B) (a : A)
  : result A :=
  match l with
  | [] => Ok a
  | b :: l' => a' <- f a b ;; foldM f l' a'
  end.

(** [enumerate(l)] *)
Definition enumerate {A : Type} (l : list A) : list (nat * A) :=
  combine (seq 0 (List.length l)) l.

(** ** PIL, as far as the tiler uses it *)

Module PIL.

Local Open Scope nat_scope.

(** A colour as PIL takes it ("white", "#ff0000") or stores it in a pixel. *)
Definition color : Type := string.

(** An image: its size in pixels and its pixel data.  A pixel is [None]
    where this model does not determine it: the output of the resampling
    filter of [resize]. *)
Record Image : Type := MkImage {
  width : nat;
  height : nat;
  pixel : nat -> nat -> option color
}.

(** The files that hold a decodable image. *)
Definition filesystem : Type := string -> option Image.

(** [Image.open(path)] *)
Definition Image_open (fs : filesystem) (path : string) : result Image :=
  match fs path with
  | Some im => Ok im
  | None => Raise OSError
  end.

(** [Image.new("RGB", size, color)], for a colour that PIL knows.  (For a
    string that names no colour PIL raises [ValueError]; the colours of
    this model are the ones it accepts.) *)
Definition Image_new (size : nat * nat) (c : color) : Image :=
  MkImage (fst size) (snd size) (fun _ _ => Some c).

(** Is pixel [(i, j)] inside the [w] by [h] box whose top-left corner is
    [(x, y)]? *)
Definition in_box (x y w h i j : nat) : bool :=
  (x <=? i) && (i <? x + w) && (y <=? j) && (j <? y + h).

(** [canvas.paste(im, (x, y))]: the pixels of [im] replace those of the
    canvas in the box of [im]'s size at [(x, y)]; the canvas keeps its
    size.  The canvas is updated in place: the updated canvas is returned. *)
Definition paste (canvas im : Image) (xy : nat * nat) : Image :=
  MkImage (width canvas) (height canvas)
    (fun i j =>
       if in_box (fst xy) (snd xy) (width im) (height im) i j
       then pixel im (i - fst xy) (j - snd xy)
       else pixel canvas i j).

(** Does [n] fit the C [int] that PIL's core takes a size as? *)
Definition c_int (n : Z) : bool :=
  ((- 2 ^ 31 <=? n) && (n <? 2 ^ 31))%Z.

(** [im.resize(size, Resampling.LANCZOS)]: a copy when the size is the
    image's own; otherwise the size goes to PIL's core, which raises
    [OverflowError] for a side that is no C [int] and [ValueError] for a
    side below 1, and else gives an image of exactly the requested size
    with resampled pixels.  The memory the core may run out of is not
    modelled. *)
Definition resize (im : Image) (size : Z * Z) : result Image :=
  let '(w, h) := size in
  if ((w =? Z.of_nat (width im)) && (h =? Z.of_nat (height im)))%Z%bool
  then Ok im
  else if negb (c_int w && c_int h) then Raise OverflowError
  else if ((w <? 1) || (h <? 1))%Z%bool then Raise ValueError
  else Ok (MkImage (Z.to_nat w) (Z.to_nat h) (fun _ _ => None)).

End PIL.
Import PIL.

(** ** The tiler: the body that danpy/image.py and danpy/image_tile.py share *)

Section Tiler.

Local Open Scope nat_scope.

(** [ws[k] = max(ws[k], v)] *)
Definition update_max (ws : list nat) (k v : nat) : result (list nat) :=
  match nth_error ws k with
  | Some w => Ok (firstn k ws ++ Nat.max w v :: skipn (S k) ws)
  | None => Raise IndexError
  end.

(** The number of columns: the length of the longest row. *)
Definition count_columns (images : list (list Image)) : nat :=
  fold_left (fun ncols row => Nat.max ncols (List.length row)) images 0.

(** <<
    widths = [0] * ncols
    for row in range(nrows):
        for col in range(len(in_paths[row])):
            image = images[row][col]
            widths[col] = max(widths[col], image.width)
>> *)
Definition column_widths (images : list (list Image)) (ncols : nat)
  : result (list nat) :=
  foldM (fun ws row =>
           foldM (fun ws '(col, im) => update_max ws col (width im))
                 (enumerate row) ws)
        images (repeat 0 ncols).

(** <<
    heights = [0] * nrows
    for row in range(nrows):
        for col in range(len(in_paths[row])):
            image = images[row][col]
            heights[row] = max(heights[row], image.height)
>> *)
Definition row_heights (images : list (list Image)) : result (list nat) :=
  foldM (fun hs '(row, imgs) =>
           foldM (fun hs '(_, im) => update_max hs row (height im))
                 (enumerate imgs) hs)
        (enumerate images) (repeat 0 (List.length images)).

(** <<
    for row in range(nrows):
        for col, img in enumerate(images[row]):
            x = sum(widths[:col])
            y = sum(heights[:row])
            combined_img.paste(img, (x, y))
>>
    [nrows] is [len(images)], so the loops over [range(nrows)] that read
    [images[row]] are traversals of [enumerate(images)]. *)
Definition paste_cell (widths heights : list nat) (row : nat)
    (canvas : Image) (cell : nat * Image) : Image :=
  let '(col, img) := cell in
  let x := list_sum (firstn col widths) in
  let y := list_sum (firstn row heights) in
  paste canvas img (x, y).

Definition paste_row (widths heights : list nat)
    (canvas : Image) (r : nat * list Image) : Image :=
  let '(row, imgs) := r in
  fold_left (paste_cell widths heights row) (enumerate imgs) canvas.

Definition paste_images (widths heights : list nat)
    (images : list (list Image)) (canvas : Image) : Image :=
  fold_left (paste_row widths heights) (enumerate images) canvas.

(** From the loaded images to the combined image. *)
Definition tile (images : list (list Image)) (resolution : option (Z * Z))
    (background : color) : result Image :=
  let ncols := count_columns images in
  widths <- column_widths images ncols ;;
  heights <- row_heights images ;;
  let width := list_sum widths in
  let height := list_sum heights in
  let combined_img := Image_new (width, height) background in
  let combined_img := paste_images widths heights images combined_img in
  match resolution with
  | Some size => resize combined_img size
  | None => Ok combined_img
  end.

(** The loops of [image_tile_auto] that distribute the flat list:
<<
    paths_ = []
    idx = 0
    for _row in range(layout[0]):
        paths_row = []
        for _col in range(layout[1]):
            if idx < len(paths):
                paths_row.append(paths[idx])
            idx += 1
        paths_.append(paths_row)
>> *)
Definition arrange_cell {A : Type} (paths : list A)
    (st : list A * nat) (_col : Z) : list A * nat :=
  let '(paths_row, idx) := st in
  (match nth_error paths idx with
   | Some p => paths_row ++ [p]
   | None => paths_row
   end, S idx).

Definition arrange_row {A : Type} (paths : list A) (ncols : Z)
    (st : list (list A) * nat) (_row : Z) : list (list A) * nat :=
  let '(paths_, idx) := st in
  let '(paths_row, idx') :=
    fold_left (arrange_cell paths) (py_range 0 ncols) ([], idx) in
  (paths_ ++ [paths_row], idx').

Definition arrange {A : Type} (paths : list A) (layout : Z * Z)
  : list (list A) :=
  fst (fold_left (arrange_row paths (snd layout))
                 (py_range 0 (fst layout)) ([], 0)).

End Tiler.

(** ** danpy/image.py *)

Module DanpyImage.

(** [ImageT = Image.Image | str | Path]; [Other] is a value of any other
    type. *)
Inductive ImageT : Type :=
  | Path (p : string)
  | Loaded (im : Image)
  | Other.

Definition to_image (fs : filesystem) (image : ImageT) : result Image :=
  match image with
  | Path p => Image_open fs p
  | Loaded im => Ok im
  | Other => Raise TypeError
  end.

Definition image_tile (fs : filesystem) (in_paths : list (list ImageT))
    (resolution : option (Z * Z)) (background : color) : result Image :=
  images <- mapM (mapM (to_image fs)) in_paths ;;
  tile images resolution background.

Definition image_tile_auto (fs : filesystem) (paths : list ImageT)
    (layout : option (Z * Z)) (resolution : option (Z * Z))
    (background : color) : result Image :=
  layout <- match layout with
            | Some l => Ok l
            | None => grid_layout_2d (Z.of_nat (List.length paths))
            end ;;
  image_tile fs (arrange paths layout) resolution background.

End DanpyImage.

(** ** danpy/image_tile.py *)

Module DanpyImageTile.

Section WithSave.

(** [combined_img.save(out_path)]: PIL picks the encoder by the extension
    of the path and writes the file, or raises (an extension it does not
    know, an image the encoder refuses, a path that cannot be written).
    What it does is a parameter: the file system after the call, or the
    exception. *)
Variable save : filesystem -> Image -> string -> result filesystem.

(** This older variant takes paths only and saves the result itself: it
    returns no image, and leaves the file system as [save] leaves it. *)
Definition image_tile (fs : filesystem) (in_paths : list (list string))
    (out_path : string) (resolution : option (Z * Z)) (background : color)
  : result filesystem :=
  images <- mapM (mapM (Image_open fs)) in_paths ;;
  combined_img <- tile images resolution background ;;
  save fs combined_img out_path.

Definition image_tile_auto (fs : filesystem) (paths : list string)
    (out_path : string) (layout : option (Z * Z))
    (resolution : option (Z * Z)) (background : color) : result filesystem :=
  layout <- match layout with
            | Some l => Ok l
            | None => grid_layout_2d (Z.of_nat (List.length paths))
            end ;;
  image_tile fs (arrange paths layout) out_path resolution background.

End WithSave.

End DanpyImageTile.

(** *** The canvas size, in the words of the specification *)

Section TilerSpec.

Local Open Scope nat_scope.

(** The width of the image at a column index of a row, and nothing when
    the row is too short. *)
Definition cell_width (row : list Image) (col : nat) : nat :=
  match nth_error row col with
  | Some im => width im
  | None => 0
  end.

(** Per-column width: the maximum width among the images present at that
    column index across all rows. *)
Definition column_width (images : list (list Image)) (col : nat) : nat :=
  list_max (map (fun row => cell_width row col) images).

(** Per-row height: the maximum height among the images of the row. *)
Definition row_height (row : list Image) : nat :=
  list_max (map height row).

(** Column count: the length of the longest row. *)
Definition column_count (images : list (list Image)) : nat :=
  list_max (map (@List.length Image) images).

(** Canvas width: the sum of all column widths. *)
Definition canvas_width (images : list (list Image)) : nat :=
  list_sum (map (column_width images) (seq 0 (column_count images))).

(** Canvas height: the sum of all row heights. *)
Definition canvas_height (images : list (list Image)) : nat :=
  list_sum (map row_height images).

(** Where the image at [(row, col)] goes: the widths of the columns before
    its column, the heights of the rows before its row. *)
Definition cell_x (images : list (list Image)) (col : nat) : nat :=
  list_sum (map (column_width images) (seq 0 col)).

Definition cell_y (images : list (list Image)) (row : nat) : nat :=
  list_sum (map row_height (firstn row images)).

(** The image at [(row, col)] of a ragged grid, if there is one. *)
Definition image_at (images : list (list Image)) (row col : nat)
  : option Image :=
  match nth_error images row with
  | Some imgs => nth_error imgs col
  | None => None
  end.

(** The [paste] calls of the composition loop, in the order they are
    made: each image with the corner it is pasted at. *)
Definition placements (widths heights : list nat)
    (images : list (list Image)) : list (Image * (nat * nat)) :=
  flat_map (fun '(row, imgs) =>
              map (fun '(col, im) =>
                     (im, (list_sum (firstn col widths),
                           list_sum (firstn row heights))))
                  (enumerate imgs))
           (enumerate images).

(** Does the pasted image [p] cover pixel [(i, j)]? *)
Definition covers (p : Image * (nat * nat)) (i j : nat) : bool :=
  in_box (fst (snd p)) (snd (snd p)) (width (fst p)) (height (fst p)) i j.

(** Making a list of paste calls on a canvas. *)
Definition paste_all (ps : list (Image * (nat * nat))) (canvas : Image)
  : Image :=
  fold_left (fun cv p => paste cv (fst p) (snd p)) ps canvas.

(** Row-major distribution of a flat list over [nrows] rows of [ncols]
    cells: row [k] takes the items from index [k * ncols] on. *)
Definition row_major {A : Type} (items : list A) (nrows ncols : nat)
  : list (list A) :=
  map (fun k => firstn ncols (skipn (k * ncols) items)) (seq 0 nrows).

End TilerSpec.

(** ** Sample data *)

(** The largest length a Python sequence can have: [sys.maxsize]. *)
Definition PY_SSIZE_T_MAX : Z := 2 ^ 63 - 1.

(** An image of one colour. *)
Definition solid (w h : nat) (c : color) : Image :=
  MkImage w h (fun _ _ => Some c).

(** A file system with two image files. *)
Definition sample_fs : filesystem :=
  fun p => if String.eqb p "a.png"%string then Some (solid 100 40 "red"%string)
           else if String.eqb p "b.png"%string then Some (solid 50 60 "blue"%string)
           else None.

(** Two rows: a file and a loaded image, then a single file. *)
Definition sample_grid : list (list DanpyImage.ImageT) :=
  [[DanpyImage.Path "a.png"%string; DanpyImage.Loaded (solid 10 10 "green"%string)];
   [DanpyImage.Path "b.png"%string]].

Definition sample_images : list (list Image) :=
  [[solid 100 40 "red"%string; solid 10 10 "green"%string]; [solid 50 60 "blue"%string]].

Definition three_items : list DanpyImage.ImageT :=
  [DanpyImage.Path "a.png"%string; DanpyImage.Path "b.png"%string;
   DanpyImage.Loaded (solid 10 10 "green"%string)].

(** ** danpy/image.py: locations and labels *)

Module DanpyImageLabel.

Import DanpyImage.

Local Open Scope string_scope.

(** Python strings are modelled over the code points below 256: a
    character of a string is one code point. *)

(** [c.lower()] for one character: the ASCII capitals, and the Latin-1
    capitals but the multiplication sign. *)
Definition lower_char (c : ascii) : ascii :=
  let n := nat_of_ascii c in
  if ((65 <=? n) && (n <=? 90) ||
      (192 <=? n) && (n <=? 222) && negb (n =? 215))%nat%bool
  then ascii_of_nat (n + 32)
  else c.

Fixpoint str_map (f : ascii -> ascii) (s : string) : string :=
  match s with
  | EmptyString => EmptyString
  | String c s' => String (f c) (str_map f s')
  end.

(** [s.lower()] *)
Definition str_lower (s : string) : string := str_map lower_char s.

(** [s.replace(old, new)] for one-character [old] and [new]. *)
Definition str_replace (s : string) (old new : ascii) : string :=
  str_map (fun c => if Ascii.eqb c old then new else c) s.

(** [d.get(key)] on a dict written as the list of its items. *)
Fixpoint dict_get {V : Type} (d : list (string * V)) (key : string)
  : option V :=
  match d with
  | [] => None
  | (k, v) :: d' => if String.eqb key k then Some v else dict_get d' key
  end.

(** [key in t] for a tuple of strings. *)
Definition str_in (key : string) (t : list string) : bool :=
  existsb (String.eqb key) t.

(** [get_args(AbsoluteLocT)].  In the source no comma follows ["left"],
    so Python joins it with the literal on the next line: the type holds
    ["leftcenter"], and neither ["left"] nor ["center"]. *)
Definition AbsoluteLocT_args : list string :=
  ["top left"; "top center"; "top right";
   "center left"; "center center"; "center right";
   "bottom left"; "bottom center"; "bottom right";
   "top"; "leftcenter"; "right"; "bottom"].

Definition aliases : list (string * string) :=
  [("top", "top center");
   ("left", "center left");
   ("center", "center center");
   ("right", "center right");
   ("bottom", "bottom center")].

(** [loc.lower().replace("-", " ")] *)
Definition normalize_loc (loc : string) : string :=
  str_replace (str_lower loc) "-" " ".

Definition to_canonical_absloc (loc : string) : result string :=
  let loc := normalize_loc loc in
  match dict_get aliases loc with
  | Some canonical => Ok canonical
  | None =>
      if negb (str_in loc AbsoluteLocT_args) then Raise ValueError
      else Ok loc
  end.

(** The nine locations the documentation calls canonical: the keys of
    the two tables of [label_image]. *)
Definition canonical_locs : list string :=
  ["top left"; "top center"; "top right";
   "center left"; "center center"; "center right";
   "bottom left"; "bottom center"; "bottom right"].

(** A loaded PIL font, as far as [label_image] uses it: the bounding box
    [(left, top, right, bottom)] that [getbbox] gives a text. *)
Record FreeTypeFont : Type := MkFont {
  getbbox : string -> Z * Z * Z * Z
}.

(** [FontT = str | Path | ImageFont.FreeTypeFont | None]; [FontOther] is
    a value of any other type, with its truth value. *)
Inductive FontT : Type :=
  | FontStr (name : string)
  | FontPath (p : string)
  | FontLoaded (f : FreeTypeFont)
  | FontNone
  | FontOther (truthy : bool).

(** [bool(font)] *)
Definition font_truthy (font : FontT) : bool :=
  match font with
  | FontStr name => negb (String.eqb name EmptyString)
  | FontPath _ => true
  | FontLoaded _ => true
  | FontNone => false
  | FontOther truthy => truthy
  end.

(** [label_image] can raise what the loaders and the drawing raise, and
    the [KeyError] of a dict subscript. *)
Inductive outcome (A : Type) : Type :=
  | Returned (a : A)
  | Raised (e : exception)
  | RaisedKeyError.
Arguments Returned {A} a.
Arguments Raised {A} e.
Arguments RaisedKeyError {A}.

(** [d[key]] *)
Definition dict_item {V : Type} (d : list (string * V)) (key : string)
  : outcome V :=
  match dict_get d key with
  | Some v => Returned v
  | None => RaisedKeyError
  end.

(** The one [draw.text] call that [label_image] makes. *)
Record text_call : Type := MkTextCall {
  call_xy : Z * Z;
  call_text : string;
  call_fill : color;
  call_font : FreeTypeFont;
  call_anchor : string;
  call_stroke : option (Z * color)   (* stroke_width, stroke_fill *)
}.

Section WithFonts.

(** [ImageFont.truetype(font, size)]: the fonts the system can load. *)
Variable truetype : string -> Z -> result FreeTypeFont.

(** [ImageDraw.Draw(image).text(...)]: PIL draws on the image in place, or
    raises (multi-line text with a top or bottom anchor, for one). *)
Variable draw_text : Image -> text_call -> result unit.

Definition to_font (font : FontT) (font_size : Z) : result FreeTypeFont :=
  let font := if font_truthy font then font
              else FontStr "NotoSans-BoldItalic" in
  match font with
  | FontStr name => truetype name font_size
  | FontPath p => truetype p font_size
  | FontLoaded f => Ok f
  | FontNone | FontOther _ => Raise TypeError
  end.

(** [size or (image.height // 15)] *)
Definition label_size (size : option Z) (im : Image) : Z :=
  match size with
  | Some s => if (s =? 0)%Z then Z.of_nat (height im) / 15 else s
  | None => Z.of_nat (height im) / 15
  end.

Definition anchors : list (string * string) :=
  [("top left", "lt"); ("top center", "mt"); ("top right", "rt");
   ("center left", "lm"); ("center center", "mm"); ("center right", "rm");
   ("bottom left", "lb"); ("bottom center", "mb"); ("bottom right", "rb")].

Definition text_xys (im : Image) (w h : Z) : list (string * (Z * Z)) :=
  let W := Z.of_nat (width im) in
  let H := Z.of_nat (height im) in
  [("top left", (0 + w, 0 + h));
   ("top center", (W / 2, 0 + h));
   ("top right", (W - w, 0 + h));
   ("center left", (0 + w, H / 2));
   ("center center", (W / 2, H / 2));
   ("center right", (W - w, H / 2));
   ("bottom left", (0 + w, H - h));
   ("bottom center", (W / 2, H - h));
   ("bottom right", (W - w, H - h))].

(** [label_image]: the image it returns (the loaded image itself, drawn
    on in place) and the [draw.text] call that drew on it; it raises what
    the drawing raises. *)
Definition label_image (fs : filesystem) (image : ImageT) (text : string)
    (loc : string) (font : FontT) (size : option Z) (stroke invert : bool)
  : outcome (Image * text_call) :=
  match to_image fs image with
  | Raise e => Raised e
  | Ok im =>
      let size := label_size size im in
      match to_font font size with
      | Raise e => Raised e
      | Ok fnt =>
          match to_canonical_absloc loc with
          | Raise e => Raised e
          | Ok loc =>
              match dict_item anchors loc with
              | Returned anchor =>
                  let '(l, t, r, b) := getbbox fnt "#" in
                  let w := r - l in
                  let h := b - t in
                  match dict_item (text_xys im w h) loc with
                  | Returned text_xy =>
                      let tcol := if negb invert then "white" else "black" in
                      let scol := if negb invert then "black" else "white" in
                      let stroke_kw :=
                        if stroke then Some (size / 15, scol) else None in
                      let call := MkTextCall text_xy text tcol fnt anchor
                                             stroke_kw in
                      match draw_text im call with
                      | Ok _ => Returned (im, call)
                      | Raise e => Raised e
                      end
                  | Raised e => Raised e
                  | RaisedKeyError => RaisedKeyError
                  end
              | Raised e => Raised e
              | RaisedKeyError => RaisedKeyError
              end
          end
      end
  end.

End WithFonts.

End DanpyImageLabel.

(** ** danpy/option.py *)

Module DanpyOption.

Section Objects.

(** The Python objects that are neither [None] nor a [Some]. *)
Variable T : Type.

(** The objects the module tells apart: [None], [Some(val)] around any
    object, and every other object. *)
Inductive object : Type :=
  | PyNone
  | PySome (val : object)
  | Raw (t : T).

(** What the functions of the module raise. *)
Inductive raised : Type :=
  | RaisedTypeError
  | RaisedAssertionError.

Inductive returns : Type :=
  | Returns (v : object)
  | Raises (e : raised).

Definition to_opt (val : object) : object :=
  match val with
  | PySome _ => val
  | PyNone => PyNone
  | Raw _ => PySome val
  end.

(** [func] is taken as a function that returns. *)
Definition map_opt (val : object) (func : object -> object) : returns :=
  match to_opt val with
  | PySome t => Returns (PySome (func t))
  | PyNone => Returns PyNone
  | Raw _ => Raises RaisedAssertionError    (* assert False *)
  end.

Definition unwrap (some : object) : returns :=
  match some with
  | PySome t => Returns t
  | PyNone => Raises RaisedTypeError
  | Raw _ => Returns some
  end.

(** <<
    try:
        return unwrap(opt)
    except TypeError:
        return default
>> *)
Definition or_default (opt default : object) : returns :=
  match unwrap opt with
  | Returns v => Returns v
  | Raises RaisedTypeError => Returns default
  | Raises e => Raises e
  end.

Definition or_get_default (opt : object) (get_default : unit -> object)
  : returns :=
  match opt with
  | PySome t => Returns t
  | PyNone => Returns (get_default tt)
  | Raw _ => Returns opt
  end.

End Objects.

Arguments PyNone {T}.
Arguments PySome {T} val.
Arguments Raw {T} t.
Arguments Returns {T} v.
Arguments Raises {T} e.
Arguments to_opt {T} val.
Arguments map_opt {T} val func.
Arguments unwrap {T} some.
Arguments or_default {T} opt default.
Arguments or_get_default {T} opt get_default.

End DanpyOption.

(** ** danpy/logging.py *)

Module DanpyLogging.

(** The literals [1e-6] and [1e6]. *)
Definition f1e_6 : float := RN (/ 1000000).
Definition f1e6 : float := Float 1000000 0.

(** [x * y] and [x + y] on floats. *)
Definition py_mul (x y : float) : float := RN_inf (F2R x * F2R y).
Definition py_add (x y : float) : float := RN_inf (F2R x + F2R y).

Record PerfInfo : Type := MkPerfInfo {
  events : Z;
  micros : Z
}.

(** The right operand of [+], [-] and [+=]: a [PerfInfo], or an object of
    another type. *)
Inductive operand : Type :=
  | IsPerfInfo (p : PerfInfo)
  | NotPerfInfo.

(** [self.micros * 1e-6] *)
Definition seconds (self : PerfInfo) : result float :=
  m <- py_float (micros self) ;;
  Ok (py_mul m f1e_6).

(** [self.events / self.seconds] *)
Definition rate (self : PerfInfo) : result float :=
  s <- seconds self ;;
  e <- py_float (events self) ;;
  py_truediv e s.

(** [__add__] *)
Definition add (self : PerfInfo) (rhs : operand) : result PerfInfo :=
  match rhs with
  | NotPerfInfo => Raise TypeError
  | IsPerfInfo rhs =>
      Ok (MkPerfInfo (events self + events rhs) (micros self + micros rhs))
  end.

(** [__sub__] *)
Definition sub (self : PerfInfo) (rhs : operand) : result PerfInfo :=
  match rhs with
  | NotPerfInfo => Raise TypeError
  | IsPerfInfo rhs =>
      Ok (MkPerfInfo (events self - events rhs) (micros self - micros rhs))
  end.

(** [__iadd__]: the updated [self], which is also what is returned. *)
Definition iadd (self : PerfInfo) (rhs : operand) : result PerfInfo :=
  match rhs with
  | NotPerfInfo => Raise TypeError
  | IsPerfInfo rhs =>
      let self := MkPerfInfo (events self + events rhs) (micros self) in
      let self := MkPerfInfo (events self) (micros self + micros rhs) in
      Ok self
  end.

(** A [datetime] is its count of microseconds.  Python normalises a
    [timedelta] to [days], [0 <= seconds < 86400] and
    [0 <= microseconds < 1000000]. *)
Record timedelta : Type := MkTimedelta {
  td_days : Z;
  td_seconds : Z;
  td_microseconds : Z
}.

(** [later - earlier] on datetimes. *)
Definition datetime_sub (later earlier : Z) : timedelta :=
  let us := later - earlier in
  MkTimedelta (us / 86400000000)
              (us mod 86400000000 / 1000000)
              (us mod 1000000).

Record PerfTimer : Type := MkPerfTimer {
  start : Z;
  timer_events : Z
}.

(** [self.events += events; return self] *)
Definition add_events (self : PerfTimer) (n : Z) : PerfTimer :=
  MkPerfTimer (start self) (timer_events self + n).

Definition add_event (self : PerfTimer) : PerfTimer := add_events self 1.

(** [datetime.datetime.now() - self.start], the clock reading [now]. *)
Definition elapsed (self : PerfTimer) (now : Z) : timedelta :=
  datetime_sub now (start self).

(** [tock]: the updated timer and the [PerfInfo] returned.
<<
    self.add_events(events)
    delta = self.elapsed
    return PerfInfo(self.events, int(delta.seconds * 1e6 + delta.microseconds))
>> *)
Definition tock (self : PerfTimer) (now : Z) (n : Z)
  : result (PerfTimer * PerfInfo) :=
  let self := add_events self n in
  let delta := elapsed self now in
  s <- py_float (td_seconds delta) ;;
  u <- py_float (td_microseconds delta) ;;
  Ok (self, MkPerfInfo (timer_events self)
                       (py_int (py_add (py_mul s f1e6) u))).

(** [tick()], the clock reading [now]. *)
Definition tick (now : Z) : PerfTimer := MkPerfTimer now 0.

End DanpyLogging.

(** ** Regular grids *)

(** Do all rows hold [ncols] images, each [w] by [h]? *)
Definition uniform (images : list (list Image)) (ncols w h : nat) : bool :=
  forallb (fun row => (List.length row =? ncols)%nat &&
                      forallb (fun im => (width im =? w)%nat &&
                                         (height im =? h)%nat)
                              row)
          images.

(** ** More sample data *)

(** Two rows of two images, each 2 by 3. *)
Definition sample_uniform : list (list Image) :=
  [[solid 2 3 "red"%string; solid 2 3 "blue"%string];
   [solid 2 3 "green"%string; solid 2 3 "red"%string]].

(** A [save] on a disk that takes every file: afterwards the image is
    at the path. *)
Definition sample_save (fs : filesystem) (im : Image) (path : string)
  : result filesystem :=
  Ok (fun p => if String.eqb p path then Some im else fs p).

(** A drawing that succeeds. *)
Definition sample_draw (im : Image) (call : DanpyImageLabel.text_call)
  : result unit :=
  Ok tt.

(** A system with one font, whose ["#"] is as wide and as high as the
    font size. *)
Definition sample_truetype (name : string) (size : Z)
  : result DanpyImageLabel.FreeTypeFont :=
  if String.eqb name "NotoSans-BoldItalic"%string
  then Ok (DanpyImageLabel.MkFont (fun _ => (0, 0, size, size)))
  else Raise OSError.

(** * Properties *)

(** ** Powers of two and the binary64 format *)

Section Format.

Local Open Scope R_scope.

Lemma pow2_pos (e : Z) : 0 < pow2 e.
Proof. apply powerRZ_lt; lra. Qed.

Lemma pow2_add (a b : Z) : pow2 (a + b) = pow2 a * pow2 b.
Proof. apply powerRZ_add; lra. Qed.

Lemma pow2_0 : pow2 0 = 1.
Proof. reflexivity. Qed.

Lemma pow2_IZR (e : Z) : (0 <= e)%Z -> pow2 e = IZR (2 ^ e).
Proof.
  intros He. unfold pow2.
  rewrite <- (Z2Nat.id e He) at 1 2.
  rewrite <- pow_powerRZ, <- pow_IZR. reflexivity.
Qed.

Lemma pow2_le (a b : Z) : (a <= b)%Z -> pow2 a <= pow2 b.
Proof.
  intros Hab. replace b with (a + (b - a))%Z by lia.
  rewrite pow2_add, (pow2_IZR (b - a)) by lia.
  pose proof (pow2_pos a) as Ha.
  assert (1 <= IZR (2 ^ (b - a))).
  { apply IZR_le. pose proof (Z.pow_pos_nonneg 2 (b - a)). lia. }
  nra.
Qed.

Lemma F2R_int (n : Z) : F2R (Float n 0) = IZR n.
Proof. unfold F2R; cbn [Fnum Fexp]. rewrite pow2_0. ring. Qed.

Lemma binary64_int (n : Z) : (Z.abs n < 2 ^ 53)%Z -> binary64 (Float n 0).
Proof. intros Hn. split; simpl; [exact Hn | lia]. Qed.

(** A float with a non-negative exponent is an integer. *)
Lemma F2R_nonneg_exp (f : float) :
  (0 <= Fexp f)%Z -> F2R f = IZR (Fnum f * 2 ^ Fexp f).
Proof.
  intros He. unfold F2R. rewrite (pow2_IZR _ He), mult_IZR. reflexivity.
Qed.

(** Rescaling a float to a smaller exponent. *)
Lemma F2R_rescale (m e e' : Z) :
  (e' <= e)%Z -> IZR m * pow2 e = IZR (m * 2 ^ (e - e')) * pow2 e'.
Proof.
  intros He. replace e with ((e - e') + e')%Z at 1 by lia.
  rewrite pow2_add, (pow2_IZR (e - e')) by lia.
  rewrite mult_IZR. ring.
Qed.

(** No binary64 number lies strictly between two neighbours
    [m * 2^e] and [(m + 1) * 2^e] with a full 53-bit significand. *)
Lemma binary64_gap (m e : Z) (g : float) :
  (2 ^ 52 <= m)%Z -> binary64 g ->
  IZR m * pow2 e < F2R g -> F2R g < IZR (m + 1) * pow2 e -> False.
Proof.
  intros Hm [Hgm Hge] Hlo Hhi.
  pose proof (pow2_pos e) as Hpe.
  destruct (Z_le_gt_dec e (Fexp g)) as [Hle | Hgt].
  - unfold F2R in Hlo, Hhi.
    rewrite (F2R_rescale (Fnum g) (Fexp g) e Hle) in Hlo, Hhi.
    apply Rmult_lt_reg_r in Hlo; [| exact Hpe].
    apply Rmult_lt_reg_r in Hhi; [| exact Hpe].
    apply lt_IZR in Hlo. apply lt_IZR in Hhi. lia.
  - assert (Hs : IZR m * pow2 e = IZR (m * 2 ^ (e - Fexp g)) * pow2 (Fexp g)).
    { apply F2R_rescale. lia. }
    unfold F2R in Hlo. rewrite Hs in Hlo.
    apply Rmult_lt_reg_r in Hlo; [| apply pow2_pos].
    apply lt_IZR in Hlo.
    assert (2 <= 2 ^ (e - Fexp g))%Z.
    { change 2%Z with (2 ^ 1)%Z at 1. apply Z.pow_le_mono_r; lia. }
    nia.
Qed.

End Format.

(** ** Rounding to nearest *)

Ltac split_Rabs :=
  unfold Rabs in *; repeat (destruct Rcase_abs in *); try lra.

Section Rounding.

Local Open Scope R_scope.

(** Rounding is monotone against a representable bound below ... *)
Lemma nearest_ge (v : R) (f g : float) :
  nearest v f -> binary64 g -> F2R g <= v -> F2R g <= F2R f.
Proof.
  intros [_ Hf] Hg Hgv. specialize (Hf g Hg). split_Rabs.
Qed.

(** ... and above. *)
Lemma nearest_le (v : R) (f g : float) :
  nearest v f -> binary64 g -> v <= F2R g -> F2R f <= F2R g.
Proof.
  intros [_ Hf] Hg Hgv. specialize (Hf g Hg). split_Rabs.
Qed.

(** A representable value is rounded to itself. *)
Lemma nearest_exact (v : R) (f g : float) :
  nearest v f -> binary64 g -> F2R g = v -> F2R f = v.
Proof.
  intros Hf Hg Hgv. apply Rle_antisym.
  - rewrite <- Hgv. apply (nearest_le v); [assumption.. | lra].
  - rewrite <- Hgv. apply (nearest_ge v); [assumption.. | lra].
Qed.

(** Below the midpoint of [g < h], rounding stays below [h]. *)
Lemma nearest_lt_mid (v h : R) (f g : float) :
  nearest v f -> binary64 g -> F2R g < h -> 2 * v < F2R g + h -> F2R f < h.
Proof.
  intros [_ Hf] Hg Hgh Hmid. specialize (Hf g Hg).
  destruct (Rlt_le_dec (F2R f) h) as [Hlt | Hge]; [exact Hlt | exfalso].
  split_Rabs.
Qed.

Lemma binary64_max_float : binary64 max_float.
Proof. split; simpl; lia. Qed.

Lemma binary64_le_max (g : float) : binary64 g -> F2R g <= F2R max_float.
Proof.
  intros [Hm He]. unfold F2R, max_float; cbn [Fnum Fexp].
  pose proof (pow2_pos (Fexp g)) as Hp.
  pose proof (pow2_le (Fexp g) 971 (proj2 He)) as Hle.
  assert (Hn : IZR (Fnum g) <= IZR (2 ^ 53 - 1)) by (apply IZR_le; lia).
  assert (H0 : 0 <= IZR (2 ^ 53 - 1)) by (apply IZR_le; lia).
  apply Rle_trans with (IZR (2 ^ 53 - 1) * pow2 (Fexp g)).
  - apply Rmult_le_compat_r; lra.
  - apply Rmult_le_compat_l; lra.
Qed.

(** Between two neighbouring binary64 numbers one of them is nearest. *)
Lemma nearest_bracket_exists (m e : Z) (v : R) :
  (2 ^ 52 <= m < 2 ^ 53)%Z -> (-1074 <= e <= 971)%Z ->
  (m + 1 < 2 ^ 53 \/ e < 971)%Z ->
  IZR m * pow2 e <= v <= IZR (m + 1) * pow2 e ->
  exists f, nearest v f.
Proof.
  intros Hm He Hfit Hv.
  assert (Hlo : binary64 (Float m e)) by (split; simpl; lia).
  assert (Hhi : exists h, binary64 h /\ F2R h = IZR (m + 1) * pow2 e).
  { destruct (Z_lt_ge_dec (m + 1) (2 ^ 53)) as [Hs | Hs].
    - exists (Float (m + 1) e). split; [split; simpl; lia | reflexivity].
    - exists (Float (2 ^ 52) (e + 1)). split; [split; simpl; lia |].
      unfold F2R; cbn [Fnum Fexp].
      replace (m + 1)%Z with (2 ^ 53)%Z by lia.
      rewrite (F2R_rescale (2 ^ 52) (e + 1) e) by lia.
      replace (e + 1 - e)%Z with 1%Z by lia. reflexivity. }
  destruct Hhi as (h & Hh & Hhv).
  assert (Hout : forall g, binary64 g ->
                   F2R g <= IZR m * pow2 e \/ IZR (m + 1) * pow2 e <= F2R g).
  { intros g Hg.
    destruct (Rle_lt_dec (F2R g) (IZR m * pow2 e)) as [Hl | Hl]; [now left |].
    destruct (Rle_lt_dec (IZR (m + 1) * pow2 e) (F2R g)) as [Hr | Hr];
      [now right |].
    exfalso. apply (binary64_gap m e g); [lia | assumption..]. }
  destruct (Rle_lt_dec (v - IZR m * pow2 e) (IZR (m + 1) * pow2 e - v))
    as [Hnear | Hnear].
  - exists (Float m e). split; [exact Hlo |].
    intros g Hg. destruct (Hout g Hg) as [Hg' | Hg'];
      unfold F2R at 1; cbn [Fnum Fexp]; split_Rabs.
  - exists h. split; [exact Hh |].
    intros g Hg. rewrite Hhv. destruct (Hout g Hg) as [Hg' | Hg']; split_Rabs.
Qed.

Lemma max_float_lt : F2R max_float < pow2 1024.
Proof.
  unfold max_float, F2R; cbn [Fnum Fexp].
  change 1024%Z with (53 + 971)%Z. rewrite pow2_add, (pow2_IZR 53) by lia.
  pose proof (pow2_pos 971).
  assert (IZR (2 ^ 53 - 1) < IZR (2 ^ 53)) by (apply IZR_lt; lia).
  nra.
Qed.

(** Every real from 1 on has a nearest binary64 number. *)
Lemma nearest_exists (v : R) : 1 <= v -> exists f, nearest v f.
Proof.
  intros Hv1.
  destruct (Rle_lt_dec (F2R max_float) v) as [Hbig | Hsmall].
  - exists max_float. split; [exact binary64_max_float |].
    intros g Hg. pose proof (binary64_le_max g Hg). split_Rabs.
  - destruct (base_Int_part v) as [Hk1 Hk2].
    set (k := Int_part v) in *.
    assert (Hk : (1 <= k)%Z).
    { assert (IZR 0 < IZR k) by lra. apply lt_IZR in H. lia. }
    destruct (Z.log2_spec k ltac:(lia)) as [Hn1 Hn2].
    set (n := Z.log2 k) in *.
    assert (Hn0 : (0 <= n)%Z) by apply Z.log2_nonneg.
    assert (Hvlo : pow2 n <= v).
    { rewrite pow2_IZR by lia. apply IZR_le in Hn1. lra. }
    assert (Hvhi : v < pow2 (n + 1)).
    { rewrite pow2_IZR by lia.
      assert (IZR (k + 1) <= IZR (2 ^ (n + 1))) by (apply IZR_le; lia).
      rewrite plus_IZR in H. lra. }
    assert (Hn : (n <= 1023)%Z).
    { destruct (Z_le_gt_dec n 1023) as [|Hgt]; [assumption | exfalso].
      pose proof (pow2_le 1024 n ltac:(lia)). pose proof max_float_lt. lra. }
    set (e := (n - 52)%Z).
    pose proof (pow2_pos e) as Hpe.
    pose proof (pow2_pos (- e)) as Hpne.
    assert (Hinv : pow2 e * pow2 (- e) = 1).
    { rewrite <- pow2_add. replace (e + - e)%Z with 0%Z by lia. apply pow2_0. }
    set (w := v * pow2 (- e)).
    assert (Hwv : v = w * pow2 e) by (unfold w; rewrite Rmult_assoc,
      (Rmult_comm (pow2 (- e))), Hinv; ring).
    assert (Hwlo : IZR (2 ^ 52) <= w).
    { rewrite <- pow2_IZR by lia. replace 52%Z with (n + - e)%Z by (unfold e; lia).
      rewrite pow2_add. unfold w. apply Rmult_le_compat_r; lra. }
    assert (Hwhi : w < IZR (2 ^ 53)).
    { rewrite <- pow2_IZR by lia.
      replace 53%Z with (n + 1 + - e)%Z by (unfold e; lia).
      rewrite pow2_add. unfold w. apply Rmult_lt_compat_r; lra. }
    destruct (base_Int_part w) as [Hm1 Hm2].
    set (m := Int_part w) in *.
    assert (Hm : (2 ^ 52 <= m < 2 ^ 53)%Z).
    { split.
      - assert (IZR (2 ^ 52) < IZR (m + 1)) by (rewrite plus_IZR; lra).
        apply lt_IZR in H. lia.
      - apply lt_IZR. lra. }
    apply (nearest_bracket_exists m e).
    + exact Hm.
    + unfold e; lia.
    + destruct (Z_lt_ge_dec e 971) as [|He]; [now right | left].
      destruct (Z_lt_ge_dec (m + 1) (2 ^ 53)) as [|Hm53]; [assumption | exfalso].
      assert (e = 971%Z) by (unfold e in *; lia).
      assert (m = (2 ^ 53 - 1)%Z) by lia.
      assert (F2R max_float <= v); [| lra].
      unfold max_float, F2R; cbn [Fnum Fexp]. rewrite Hwv.
      replace (2 ^ 53 - 1)%Z with m by assumption. rewrite <- H.
      apply Rmult_le_compat_r; lra.
    + rewrite plus_IZR, Hwv. split.
      * apply Rmult_le_compat_r; lra.
      * apply Rmult_le_compat_r; lra.
Qed.

(** Wherever a nearest number exists, [RN] is one. *)
Lemma RN_nearest (v : R) : (exists f, nearest v f) -> nearest v (RN v).
Proof. intros H. unfold RN. apply epsilon_spec. exact H. Qed.

Lemma RN_exact (v : R) (g : float) : binary64 g -> F2R g = v -> F2R (RN v) = v.
Proof.
  intros Hg Hgv.
  assert (Hn : nearest v g).
  { split; [exact Hg |]. intros h _. rewrite Hgv. split_Rabs. }
  apply (nearest_exact v (RN v) g); [| assumption..].
  apply RN_nearest. now exists g.
Qed.

(** Below the overflow threshold the result is the rounded value. *)
Lemma RN_inf_finite (v : R) (n : Z) :
  Rabs v <= IZR n -> (n < 2 ^ 1024 - 2 ^ 970)%Z -> RN_inf v = RN v.
Proof.
  intros Hv Hn. unfold RN_inf.
  destruct (Rle_dec (IZR (2 ^ 1024 - 2 ^ 970)) (Rabs v)) as [Hle | _];
    [| reflexivity].
  exfalso. apply IZR_lt in Hn. lra.
Qed.

(** [int()] of a non-negative float is its floor. *)
Lemma py_int_floor (f : float) :
  0 <= F2R f -> IZR (py_int f) <= F2R f < IZR (py_int f) + 1.
Proof.
  intros Hf. unfold py_int.
  destruct (Z.leb_spec 0 (Fexp f)) as [He | He].
  - rewrite (F2R_nonneg_exp f He). lra.
  - assert (Hm : (0 <= Fnum f)%Z).
    { unfold F2R in Hf. pose proof (pow2_pos (Fexp f)).
      apply le_IZR. nra. }
    set (d := (2 ^ (- Fexp f))%Z).
    assert (Hd : (0 < d)%Z) by (apply Z.pow_pos_nonneg; lia).
    rewrite Z.quot_div_nonneg by lia.
    assert (Hv : F2R f * IZR d = IZR (Fnum f)).
    { unfold F2R, d. rewrite <- pow2_IZR by lia.
      rewrite Rmult_assoc, <- pow2_add.
      replace (Fexp f + - Fexp f)%Z with 0%Z by lia. rewrite pow2_0. ring. }
    pose proof (Z.div_mod (Fnum f) d ltac:(lia)) as Hdm.
    pose proof (Z.mod_pos_bound (Fnum f) d Hd) as Hr.
    assert (HdR : 0 < IZR d) by (apply IZR_lt; exact Hd).
    assert (H1 : IZR (Fnum f / d) * IZR d <= IZR (Fnum f)).
    { rewrite <- mult_IZR. apply IZR_le. lia. }
    assert (H2 : IZR (Fnum f) < (IZR (Fnum f / d) + 1) * IZR d).
    { rewrite <- (plus_IZR _ 1), <- mult_IZR. apply IZR_lt. lia. }
    rewrite <- Hv in H1, H2. split.
    + apply Rmult_le_reg_r with (IZR d); lra.
    + apply Rmult_lt_reg_r with (IZR d); lra.
Qed.

Lemma py_int_ge (f : float) (k : Z) :
  0 <= F2R f -> IZR k <= F2R f -> (k <= py_int f)%Z.
Proof.
  intros Hf Hk. destruct (py_int_floor f Hf) as [_ Hhi].
  assert (IZR k < IZR (py_int f + 1)) by (rewrite plus_IZR; lra).
  apply lt_IZR in H. lia.
Qed.

Lemma py_int_lt (f : float) (k : Z) :
  0 <= F2R f -> F2R f < IZR k -> (py_int f < k)%Z.
Proof.
  intros Hf Hk. destruct (py_int_floor f Hf) as [Hlo _].
  apply lt_IZR. lra.
Qed.

End Rounding.

(** ** The float expressions of the layout functions *)

Section PythonFloats.

Local Open Scope R_scope.

Lemma pow2_neg (k : Z) : pow2 (- k) = / pow2 k.
Proof. apply powerRZ_neg'. Qed.

Lemma pow2_m1 : pow2 (-1) = / 2.
Proof. change (-1)%Z with (- (1))%Z. rewrite pow2_neg, pow2_IZR by lia. reflexivity. Qed.

(** [1.0 / 2.0] is [0.5]. *)
Lemma py_truediv_half :
  exists h, py_truediv f1_0 f2_0 = Ok h /\ F2R h = / 2.
Proof.
  eexists. split; [reflexivity |].
  assert (Hv : F2R f1_0 / F2R f2_0 = / 2).
  { unfold F2R; cbn [Fnum Fexp f1_0 f2_0]. rewrite pow2_0. lra. }
  rewrite Hv, (RN_inf_finite _ 1) by (try lia; split_Rabs; lra).
  apply (RN_exact _ (Float 1 (-1))).
  - split; simpl; lia.
  - unfold F2R; cbn [Fnum Fexp]. rewrite pow2_m1. lra.
Qed.

(** [1.0 / 3.0] is [0x1.5555555555555p-2], just below one third. *)
Lemma py_truediv_third :
  exists t, py_truediv f1_0 f3_0 = Ok t /\
            F2R t = IZR third_num * pow2 (-54).
Proof.
  eexists. split; [reflexivity |].
  set (v := F2R f1_0 / F2R f3_0).
  assert (Hv : v = / 3).
  { unfold v, F2R; cbn [Fnum Fexp f1_0 f3_0]. rewrite pow2_0. lra. }
  rewrite (RN_inf_finite v 1) by (try lia; rewrite Hv; split_Rabs; lra).
  pose proof (pow2_pos (-54)) as Hp.
  assert (Hp54 : pow2 (-54) * IZR (2 ^ 54) = 1).
  { rewrite <- pow2_IZR, <- pow2_add by lia. reflexivity. }
  assert (Hlo : IZR third_num * pow2 (-54) < v).
  { rewrite Hv. unfold third_num.
    apply Rmult_lt_reg_r with (IZR (2 ^ 54)); [apply IZR_lt; lia |].
    rewrite Rmult_assoc, Hp54.
    replace (/ 3 * IZR (2 ^ 54)) with (IZR (2 ^ 54) / 3) by lra.
    apply Rmult_lt_reg_r with 3; [lra |].
    replace (IZR (2 ^ 54) / 3 * 3) with (IZR (2 ^ 54)) by lra.
    rewrite Rmult_1_r, <- mult_IZR. apply IZR_lt. lia. }
  assert (Hhi : v < IZR (third_num + 1) * pow2 (-54)).
  { rewrite Hv. unfold third_num.
    apply Rmult_lt_reg_r with (IZR (2 ^ 54)); [apply IZR_lt; lia |].
    rewrite Rmult_assoc, Hp54.
    replace (/ 3 * IZR (2 ^ 54)) with (IZR (2 ^ 54) / 3) by lra.
    apply Rmult_lt_reg_r with 3; [lra |].
    replace (IZR (2 ^ 54) / 3 * 3) with (IZR (2 ^ 54)) by lra.
    rewrite Rmult_1_r, <- mult_IZR. apply IZR_lt. lia. }
  assert (Hg : binary64 (Float third_num (-54))) by (split; simpl; lia).
  assert (Hn : nearest v (RN v)).
  { apply RN_nearest. apply (nearest_bracket_exists third_num (-54)).
    - unfold third_num; lia.
    - lia.
    - unfold third_num; lia.
    - lra. }
  pose proof (nearest_ge v _ _ Hn Hg ltac:(unfold F2R; cbn [Fnum Fexp]; lra))
    as Hge.
  assert (Hlt : F2R (RN v) < IZR (third_num + 1) * pow2 (-54)).
  { apply (nearest_lt_mid v _ _ (Float third_num (-54)) Hn Hg);
      unfold F2R; cbn [Fnum Fexp].
    - rewrite plus_IZR. lra.
    - rewrite Hv in *. rewrite plus_IZR in *. 
      assert (3 * (IZR third_num * pow2 (-54)) = 1 - pow2 (-54)).
      { unfold third_num.
        apply Rmult_eq_reg_r with (IZR (2 ^ 54)); [| apply not_0_IZR; lia].
        replace ((1 - pow2 (-54)) * IZR (2 ^ 54))
          with (IZR (2 ^ 54) - pow2 (-54) * IZR (2 ^ 54)) by ring.
        replace (3 * (6004799503160661 * pow2 (-54)) * IZR (2 ^ 54))
          with (3 * 6004799503160661 * (pow2 (-54) * IZR (2 ^ 54))) by ring.
        rewrite Hp54. rewrite <- mult_IZR, <- minus_IZR, Rmult_1_r.
        apply f_equal. reflexivity. }
      lra. }
  destruct (Rle_lt_dec (F2R (RN v)) (F2R (Float third_num (-54))))
    as [Hle | Hgt].
  - apply Rle_antisym; assumption.
  - exfalso. apply (binary64_gap third_num (-54) (RN v));
      [unfold third_num; lia | apply Hn | exact Hgt | exact Hlt].
Qed.

(** Integers below [2^53] convert to float without rounding. *)
Lemma py_float_exact (count : Z) :
  (0 <= count < 2 ^ 53)%Z ->
  exists x, py_float count = Ok x /\ F2R x = IZR count.
Proof.
  intros Hc. unfold py_float.
  destruct (Z.leb_spec (2 ^ 1024 - 2 ^ 970) (Z.abs count)) as [Hbig | _].
  - exfalso. lia.
  - eexists. split; [reflexivity |].
    apply (RN_exact _ (Float count 0)); [| apply F2R_int].
    apply binary64_int. lia.
Qed.

Lemma libm_pow_zero (x y : float) : F2R x = 0 -> py_int (libm_pow x y) = 0%Z.
Proof.
  intros Hx. unfold libm_pow, real_pow. rewrite Hx.
  destruct (Req_dec_T 0 0) as [_ | Hne]; [| now elim Hne].
  assert (H0 : F2R (RN 0) = 0).
  { apply (RN_exact _ (Float 0 0)); [apply binary64_int; simpl; lia |].
    apply F2R_int. }
  destruct (py_int_floor (RN 0)) as [Hlo Hhi]; [lra |].
  rewrite H0 in Hlo, Hhi.
  assert (IZR (py_int (RN 0)) < IZR 1) by lra.
  assert (IZR (-1) < IZR (py_int (RN 0))) by lra.
  apply lt_IZR in H. apply lt_IZR in H1. lia.
Qed.

(** [int(count ** 0.5)] is the integer square root, or one more when the
    square root rounds up to the next integer; in that case the extra
    candidate does not divide [count]. *)
Lemma py_pow_sqrt (count : Z) (h : float) :
  F2R h = / 2 -> (0 <= count < 2 ^ 53)%Z ->
  exists p, py_pow count h = Ok p /\
    (py_int p = Z.sqrt count \/
     (py_int p = (Z.sqrt count + 1)%Z /\
      (count mod (Z.sqrt count + 1))%Z <> 0%Z)).
Proof.
  intros Hh Hc. unfold py_pow.
  destruct (Z.ltb_spec count 0) as [Hneg | _]; [lia |].
  destruct (py_float_exact count Hc) as (x & Hx & Hxv). rewrite Hx. simpl.
  eexists. split; [reflexivity |].
  destruct (Z.eq_dec count 0) as [-> | Hnz].
  { left. rewrite libm_pow_zero by exact Hxv. reflexivity. }
  assert (Hc1 : (1 <= count)%Z) by lia.
  pose proof (Z.sqrt_spec count ltac:(lia)) as Hs. cbv zeta in Hs.
  set (s := Z.sqrt count) in *.
  assert (Hs0 : (1 <= s)%Z).
  { destruct (Z_le_gt_dec 1 s); [assumption |].
    pose proof (Z.sqrt_nonneg count). fold s in H. nia. }
  assert (Hs27 : (s < 2 ^ 27)%Z) by nia.
  set (v := sqrt (IZR count)).
  assert (Hpow : real_pow (F2R x) (F2R h) = v).
  { unfold real_pow. rewrite Hxv, Hh.
    assert (0 < IZR count) by (apply IZR_lt; lia).
    destruct (Req_dec_T (IZR count) 0) as [He | _]; [lra |].
    apply Rpower_sqrt. assumption. }
  unfold libm_pow. rewrite Hpow.
  assert (Hc0 : 0 <= IZR count) by (apply IZR_le; lia).
  assert (Hvv : v * v = IZR count) by (apply sqrt_def; exact Hc0).
  assert (Hv0 : 0 <= v) by apply sqrt_pos.
  assert (HsR : 1 <= IZR s) by (apply IZR_le; lia).
  assert (Hvlo : IZR s <= v).
  { destruct (Rle_lt_dec (IZR s) v) as [|Hlt]; [assumption | exfalso].
    assert (IZR (s * s) <= IZR count) by (apply IZR_le; lia).
    rewrite mult_IZR in H. nra. }
  assert (Hvhi : v < IZR (s + 1)).
  { destruct (Rlt_le_dec v (IZR (s + 1))) as [|Hge]; [assumption | exfalso].
    assert (IZR count < IZR ((s + 1) * (s + 1))) by (apply IZR_lt; lia).
    rewrite mult_IZR in H. assert (0 <= IZR (s + 1)) by (apply IZR_le; lia).
    nra. }
  assert (Hn : nearest v (RN v)) by (apply RN_nearest, nearest_exists; lra).
  assert (Hrlo : IZR s <= F2R (RN v)).
  { rewrite <- (F2R_int s). apply (nearest_ge v); [exact Hn | |].
    - apply binary64_int. lia.
    - rewrite F2R_int. exact Hvlo. }
  assert (Hrhi : F2R (RN v) <= IZR (s + 1)).
  { rewrite <- (F2R_int (s + 1)). apply (nearest_le v); [exact Hn | |].
    - apply binary64_int. lia.
    - rewrite F2R_int. lra. }
  assert (Hr0 : 0 <= F2R (RN v)) by lra.
  pose proof (py_int_ge _ s Hr0 Hrlo) as Hb1.
  destruct (py_int_floor _ Hr0) as [Hfl _].
  assert (Hb2 : (py_int (RN v) <= s + 1)%Z) by (apply le_IZR; lra).
  destruct (Z.eq_dec (py_int (RN v)) s) as [Heq | Hne]; [now left | right].
  split; [lia |].
  assert (Hb : py_int (RN v) = (s + 1)%Z) by lia.
  (* The square root is at least [s + 1/2]. *)
  assert (Hmid : IZR (2 * s + 1) <= 2 * v).
  { destruct (Rle_lt_dec (IZR (2 * s + 1)) (2 * v)) as [|Hlt];
      [assumption | exfalso].
    assert (Hg : binary64 (Float (2 * s + 1) (-1))).
    { unfold binary64; cbn [Fnum Fexp]. lia. }
    assert (Hgv : F2R (Float (2 * s + 1) (-1)) = IZR (2 * s + 1) / 2).
    { unfold F2R; cbn [Fnum Fexp]. rewrite pow2_m1. lra. }
    assert (Hlt' : F2R (RN v) < IZR (s + 1)).
    { apply (nearest_lt_mid v _ _ _ Hn Hg); rewrite Hgv;
        rewrite plus_IZR, mult_IZR in *; rewrite plus_IZR; lra. }
    pose proof (py_int_lt _ _ Hr0 Hlt'). lia. }
  assert (Hz : ((2 * s + 1) * (2 * s + 1) <= 4 * count)%Z).
  { apply le_IZR. rewrite !mult_IZR.
    assert (0 <= IZR (2 * s + 1)) by (apply IZR_le; lia).
    nra. }
  intros Hmod.
  apply Z.mod_divide in Hmod; [| lia].
  destruct Hmod as [k Hk].
  assert (Hks : (k <= s)%Z).
  { apply Z.lt_succ_r. apply Z.mul_lt_mono_pos_r with (s + 1)%Z; lia. }
  assert (k * (s + 1) <= s * (s + 1))%Z by (apply Z.mul_le_mono_nonneg_r; lia).
  lia.
Qed.

(** [2 ^ (- 2^-k)] lies strictly below [1 - 2^-(k+1)]: squaring [k] times
    would otherwise give more than one half. *)
Lemma Rpower_2_neg_upper (k : nat) :
  (1 <= k)%nat -> Rpower 2 (- / 2 ^ k) < 1 - / 2 ^ (S k).
Proof.
  assert (Hsq : forall a, Rpower 2 a * Rpower 2 a = Rpower 2 (a + a))
    by (intros; now rewrite Rpower_plus).
  assert (Hhalf : Rpower 2 (- (1)) = / 2).
  { rewrite Rpower_Ropp, Rpower_1 by lra. reflexivity. }
  induction k as [| k IH]; [lia |]. intros _.
  destruct k as [| k].
  - clear IH. set (w := Rpower 2 (- / 2 ^ 1)).
    assert (Hw : w * w = / 2).
    { unfold w. rewrite Hsq, <- Hhalf. f_equal. simpl. lra. }
    destruct (Rlt_le_dec w (1 - / 2 ^ 2)) as [|Hge]; [assumption | exfalso].
    simpl in Hge. nra.
  - specialize (IH ltac:(lia)).
    set (h := / 2 ^ S (S (S k))).
    assert (Hh : 0 < h) by (apply Rinv_0_lt_compat, pow_lt; lra).
    assert (Hh1 : / 2 ^ S (S k) = 2 * h).
    { unfold h. change (2 ^ S (S (S k))) with (2 * 2 ^ S (S k)).
      assert (0 < 2 ^ S (S k)) by (apply pow_lt; lra). field. lra. }
    assert (Hh2 : / 2 ^ S k = 4 * h).
    { unfold h. change (2 ^ S (S (S k))) with (2 * (2 * 2 ^ S k)).
      assert (0 < 2 ^ S k) by (apply pow_lt; lra). field. lra. }
    assert (Hh8 : h <= / 8).
    { assert (1 <= 2 ^ k) by (apply pow_R1_Rle; lra).
      unfold h. change (2 ^ S (S (S k))) with (2 * (2 * (2 * 2 ^ k))).
      apply Rinv_le_contravar; lra. }
    set (w := Rpower 2 (- / 2 ^ S (S k))).
    assert (Hw : w * w = Rpower 2 (- / 2 ^ S k)).
    { unfold w. rewrite Hsq. f_equal. rewrite Hh1, Hh2. lra. }
    rewrite Hh2 in Hw. rewrite Hh2, Hh1 in IH. rewrite <- Hw in IH.
    fold h. destruct (Rlt_le_dec w (1 - h)) as [|Hge]; [assumption | exfalso].
    nra.
Qed.

(** [int(64 ** (1.0 / 3.0))] is 3: the exponent lies below one third, the
    power lies below 4 by more than half the distance to the next float
    below 4, and so rounds to [3.9999999999999996]. *)
Lemma py_pow_third_64 (t : float) :
  F2R t = IZR third_num * pow2 (-54) ->
  exists p, py_pow 64 t = Ok p /\ py_int p = 3%Z.
Proof.
  intros Ht. unfold py_pow.
  destruct (py_float_exact 64 ltac:(lia)) as (x & Hx & Hxv).
  simpl (64 <? 0)%Z. cbv iota. rewrite Hx. simpl.
  eexists. split; [reflexivity |].
  unfold libm_pow, real_pow. rewrite Hxv, Ht.
  destruct (Req_dec_T 64 0) as [He | _]; [lra |].
  set (v := Rpower 64 (IZR third_num * pow2 (-54))).
  assert (Hp53 : pow2 (-53) = / 2 ^ 53).
  { change (-53)%Z with (- (53))%Z.
    rewrite pow2_neg, pow2_IZR by lia. rewrite pow_IZR. reflexivity. }
  assert (Hp54 : pow2 (-54) = / 2 ^ 54).
  { change (-54)%Z with (- (54))%Z.
    rewrite pow2_neg, pow2_IZR by lia. rewrite pow_IZR. reflexivity. }
  assert (H253 : 0 < 2 ^ 53) by (apply pow_lt; lra).
  assert (Hexp : 6 * (IZR third_num * pow2 (-54)) = 2 + - / 2 ^ 53).
  { rewrite Hp54. change (2 ^ 54) with (2 * 2 ^ 53). unfold third_num.
    assert (E : 2 ^ 53 = 9007199254740992) by (rewrite pow_IZR; reflexivity).
    rewrite E. field. }
  assert (Hv : v = 4 * Rpower 2 (- / 2 ^ 53)).
  { assert (H6 : Rpower 2 6 = 64).
    { transitivity (Rpower 2 (INR 6)).
      - f_equal; try (rewrite INR_IZR_INZ; reflexivity).
      - rewrite Rpower_pow by lra. simpl. lra. }
    assert (H2 : Rpower 2 2 = 4).
    { transitivity (Rpower 2 (INR 2)).
      - f_equal; try (rewrite INR_IZR_INZ; reflexivity).
      - rewrite Rpower_pow by lra. simpl. lra. }
    unfold v. rewrite <- H6, Rpower_mult, Hexp, Rpower_plus, H2.
    reflexivity. }
  set (u := Rpower 2 (- / 2 ^ 53)) in *.
  assert (Hu_hi : u < 1 - / 2 ^ 54) by (apply Rpower_2_neg_upper; lia).
  assert (Hu_lo : 3 / 4 <= u).
  { unfold u, Rpower.
    assert (Hln : 0 < ln 2 < 1).
    { split.
      - rewrite <- ln_1. apply ln_increasing; lra.
      - rewrite <- (ln_exp 1). apply ln_increasing; [lra |].
        pose proof (exp_ineq1 1). lra. }
    set (z := - / 2 ^ 53 * ln 2).
    assert (H53 : / 2 ^ 53 <= / 4).
    { change (2 ^ 53) with (2 * (2 * 2 ^ 51)).
      assert (1 <= 2 ^ 51) by (apply pow_R1_Rle; lra).
      apply Rinv_le_contravar; lra. }
    assert (Hi : 0 < / 2 ^ 53) by (apply Rinv_0_lt_compat; assumption).
    assert (Hz : - / 4 <= z /\ z < 0) by (unfold z; nra).
    pose proof (exp_ineq1 z ltac:(lra)). lra. }
  assert (Hn : nearest v (RN v)) by (apply RN_nearest, nearest_exists; lra).
  assert (Hlo : 3 <= F2R (RN v)).
  { rewrite <- (F2R_int 3). apply (nearest_ge v); [exact Hn | |].
    - apply binary64_int. simpl. lia.
    - rewrite F2R_int. lra. }
  assert (Hhi : F2R (RN v) < 4).
  { assert (Hg : binary64 (Float (2 ^ 53 - 1) (-51))).
    { unfold binary64; cbn [Fnum Fexp]. lia. }
    assert (Hgv : F2R (Float (2 ^ 53 - 1) (-51)) = 4 - 4 / 2 ^ 53).
    { unfold F2R; cbn [Fnum Fexp]. change (-51)%Z with (2 + -53)%Z.
      rewrite pow2_add, Hp53, (pow2_IZR 2), minus_IZR by lia.
      rewrite (pow_IZR 2 53). change (Z.of_nat 53) with 53%Z.
      change (IZR (2 ^ 2)) with 4.
      assert (0 < IZR (2 ^ 53)) by (apply IZR_lt; lia).
      field. lra. }
    apply (nearest_lt_mid v _ _ _ Hn Hg); rewrite Hgv.
    - assert (0 < / 2 ^ 53) by (apply Rinv_0_lt_compat; assumption). lra.
    - change (2 ^ 54) with (2 * 2 ^ 53) in Hu_hi.
      assert (/ (2 * 2 ^ 53) = / 2 ^ 53 / 2) by (field; lra).
      lra. }
  assert (Hr0 : 0 <= F2R (RN v)) by lra.
  pose proof (py_int_ge _ 3 Hr0 Hlo). pose proof (py_int_lt _ 4 Hr0 Hhi). lia.
Qed.

(** Above the midpoint of [g < h], rounding stays above [g]. *)
Lemma nearest_gt_mid (v g : R) (f h : float) :
  nearest v f -> binary64 h -> g < F2R h -> g + F2R h < 2 * v -> g < F2R f.
Proof.
  intros [_ Hf] Hh Hgh Hmid. specialize (Hf h Hh).
  destruct (Rlt_le_dec g (F2R f)) as [Hlt | Hge]; [exact Hlt | exfalso].
  split_Rabs.
Qed.

(** The cube of [c ** (1.0 / 3.0)] is [c ^ (1 - 2^-54)]: at most [c], and
    below it by less than [c * (c - 1) * 2^-54]. *)
Lemma third_cube (c y : R) :
  y = IZR third_num * pow2 (-54) -> 1 <= c ->
  0 < Rpower c y /\
  Rpower c y * Rpower c y * Rpower c y <= c /\
  c - c * (c - 1) * pow2 (-54) <= Rpower c y * Rpower c y * Rpower c y.
Proof.
  intros Hy Hc.
  assert (Hp54 : pow2 (-54) * IZR (2 ^ 54) = 1).
  { rewrite <- pow2_IZR, <- pow2_add by lia. reflexivity. }
  pose proof (pow2_pos (-54)) as Hd. set (d := pow2 (-54)) in *.
  assert (H3y : y + y + y = 1 + - d).
  { rewrite Hy. unfold third_num.
    replace (6004799503160661 * d + 6004799503160661 * d +
             6004799503160661 * d) with (18014398509481983 * d) by ring.
    replace 18014398509481983 with (IZR (2 ^ 54) - 1).
    - lra.
    - rewrite <- minus_IZR. reflexivity. }
  split; [apply exp_pos |].
  rewrite <- !Rpower_plus, H3y, Rpower_plus, Rpower_1 by lra.
  unfold Rpower.
  assert (Hln : 0 <= ln c <= c - 1).
  { split.
    - rewrite <- ln_1. destruct (Req_dec c 1) as [-> | Hne]; [lra |].
      apply Rlt_le, ln_increasing; lra.
    - pose proof (exp_ineq1_le (ln c)) as H. rewrite exp_ln in H by lra. lra. }
  set (x := - d * ln c).
  assert (Hx : - d * (c - 1) <= x <= 0) by (unfold x; nra).
  pose proof (exp_ineq1_le x) as Hlo.
  assert (Hhi : exp x <= 1).
  { rewrite <- exp_0. destruct (Req_dec x 0) as [-> | Hne]; [lra |].
    apply Rlt_le, exp_increasing. lra. }
  split; nra.
Qed.

(** Between two cubes, and up to [2^27], [int(count ** (1.0 / 3.0))] is
    the integer cube root. *)
Lemma py_pow_third_between (count k : Z) (t : float) :
  F2R t = IZR third_num * pow2 (-54) ->
  (1 <= k)%Z -> (k * k * k < count < (k + 1) * (k + 1) * (k + 1))%Z ->
  (count <= 2 ^ 27)%Z ->
  exists p, py_pow count t = Ok p /\ py_int p = k.
Proof.
  intros Ht Hk Hc H27. unfold py_pow.
  destruct (Z.ltb_spec count 0) as [Hneg | _]; [lia |].
  destruct (py_float_exact count ltac:(lia)) as (x & Hx & Hxv).
  rewrite Hx. cbn [bind]. eexists. split; [reflexivity |].
  unfold libm_pow, real_pow. rewrite Hxv, Ht.
  assert (Hc1 : 1 <= IZR count) by (apply IZR_le; lia).
  destruct (Req_dec_T (IZR count) 0) as [He | _]; [lra |].
  destruct (third_cube (IZR count) _ eq_refl Hc1) as (Hv0 & Hhi & Hlo).
  set (v := Rpower (IZR count) (IZR third_num * pow2 (-54))) in *.
  assert (Hk9 : (k < 2 ^ 9)%Z) by nia.
  assert (HkR : 1 <= IZR k <= 511) by (split; apply IZR_le; lia).
  assert (Hp54 : pow2 (-54) * IZR (2 ^ 54) = 1).
  { rewrite <- pow2_IZR, <- pow2_add by lia. reflexivity. }
  assert (Hc27 : IZR count <= IZR (2 ^ 27)) by (apply IZR_le; lia).
  assert (Hv3lo : IZR count - 1 < v * v * v).
  { assert (IZR count * (IZR count - 1) * pow2 (-54) < 1); [| lra].
    pose proof (pow2_pos (-54)) as Hd.
    assert (IZR count * (IZR count - 1) < IZR (2 ^ 54)).
    { replace (IZR (2 ^ 54)) with (IZR (2 ^ 27) * IZR (2 ^ 27))
        by (rewrite <- mult_IZR; reflexivity).
      assert (0 < IZR (2 ^ 27)) by (apply IZR_lt; lia). nra. }
    nra. }
  assert (Hklo : IZR (k * k * k) <= IZR count - 1).
  { rewrite <- minus_IZR. apply IZR_le. lia. }
  rewrite !mult_IZR in Hklo.
  assert (Hvk : IZR k < v).
  { destruct (Rlt_le_dec (IZR k) v) as [| Hle]; [assumption | exfalso].
    assert (v * v <= IZR k * IZR k) by nra.
    assert (v * v * v <= IZR k * IZR k * IZR k) by nra. lra. }
  assert (Hn : nearest v (RN v)) by (apply RN_nearest, nearest_exists; lra).
  assert (Hrlo : IZR k <= F2R (RN v)).
  { rewrite <- (F2R_int k). apply (nearest_ge v); [exact Hn | |].
    - apply binary64_int. lia.
    - rewrite F2R_int. lra. }
  assert (Hkhi : IZR count <= IZR ((k + 1) * (k + 1) * (k + 1)) - 1).
  { rewrite <- minus_IZR. apply IZR_le. lia. }
  rewrite !mult_IZR, !plus_IZR in Hkhi.
  set (K := IZR k + 1) in *.
  assert (Hrhi : F2R (RN v) < K).
  { assert (Hg : binary64 (Float ((k + 1) * 2 ^ 21 - 1) (-21))).
    { unfold binary64; cbn [Fnum Fexp]. lia. }
    assert (Hp21 : pow2 (-21) = / 2097152).
    { change (-21)%Z with (- (21))%Z. rewrite pow2_neg, pow2_IZR by lia.
      reflexivity. }
    assert (Hgv : F2R (Float ((k + 1) * 2 ^ 21 - 1) (-21)) = K - / 2097152).
    { unfold F2R; cbn [Fnum Fexp].
      rewrite Hp21, minus_IZR, mult_IZR, plus_IZR.
      change (IZR (2 ^ 21)) with 2097152. unfold K. field. }
    apply (nearest_lt_mid v _ _ _ Hn Hg); rewrite Hgv; [lra |].
    destruct (Rlt_le_dec (2 * v) (K - / 2097152 + K)) as [| Hge];
      [assumption | exfalso].
    set (cc := K - / 4194304).
    assert (Hcc : cc <= v) by (unfold cc; lra).
    assert (Hcc0 : 1 <= cc) by (unfold cc, K; lra).
    assert (H2 : cc * cc <= v * v) by nra.
    assert (H3 : cc * cc * cc <= v * v * v) by nra.
    assert (HK : 2 <= K <= 512) by (unfold K; lra).
    assert (Hexp : K * K * K - 1 < cc * cc * cc).
    { unfold cc. 
      assert (K * K <= 262144) by nra.
      nra. }
    lra. }
  assert (Hr0 : 0 <= F2R (RN v)) by lra.
  pose proof (py_int_ge _ k Hr0 Hrlo).
  assert (Hlt : F2R (RN v) < IZR (k + 1)) by (rewrite plus_IZR; exact Hrhi).
  pose proof (py_int_lt _ (k + 1) Hr0 Hlt). lia.
Qed.

(** [int(1 ** (1.0 / 3.0))] is 1. *)
Lemma py_pow_third_1 (t : float) :
  exists p, py_pow 1 t = Ok p /\ py_int p = 1%Z.
Proof.
  unfold py_pow. destruct (py_float_exact 1 ltac:(lia)) as (x & Hx & Hxv).
  simpl (1 <? 0)%Z. cbv iota. rewrite Hx. cbn [bind].
  eexists. split; [reflexivity |].
  unfold libm_pow, real_pow. rewrite Hxv.
  destruct (Req_dec_T 1 0) as [He | _]; [lra |].
  assert (Hv : Rpower 1 (F2R t) = 1).
  { unfold Rpower. rewrite ln_1, Rmult_0_r. apply exp_0. }
  rewrite Hv.
  assert (H1 : F2R (RN 1) = 1).
  { apply (RN_exact _ (Float 1 0)); [apply binary64_int; simpl; lia |].
    apply F2R_int. }
  pose proof (py_int_ge (RN 1) 1 ltac:(lra) ltac:(lra)).
  pose proof (py_int_lt (RN 1) 2 ltac:(lra) ltac:(lra)). lia.
Qed.

(** [int(8 ** (1.0 / 3.0))] is 2: the power [2 * 2^(-2^-54)] lies above
    the midpoint of 2.0 and the float before it, and rounds to 2.0. *)
Lemma py_pow_third_8 (t : float) :
  F2R t = IZR third_num * pow2 (-54) ->
  exists p, py_pow 8 t = Ok p /\ py_int p = 2%Z.
Proof.
  intros Ht. unfold py_pow.
  destruct (py_float_exact 8 ltac:(lia)) as (x & Hx & Hxv).
  simpl (8 <? 0)%Z. cbv iota. rewrite Hx. cbn [bind].
  eexists. split; [reflexivity |].
  unfold libm_pow, real_pow. rewrite Hxv, Ht.
  destruct (Req_dec_T 8 0) as [He | _]; [lra |].
  set (v := Rpower 8 (IZR third_num * pow2 (-54))).
  pose proof (pow2_pos (-54)) as Hd.
  assert (Hp54 : pow2 (-54) * IZR (2 ^ 54) = 1).
  { rewrite <- pow2_IZR, <- pow2_add by lia. reflexivity. }
  assert (Hexp : 3 * (IZR third_num * pow2 (-54)) = 1 + - pow2 (-54)).
  { unfold third_num.
    replace (3 * (6004799503160661 * pow2 (-54)))
      with ((IZR (2 ^ 54) - 1) * pow2 (-54)).
    - lra.
    - rewrite <- minus_IZR. change (IZR (2 ^ 54 - 1)) with 18014398509481983.
      ring. }
  assert (Hv : v = 2 * Rpower 2 (- pow2 (-54))).
  { assert (H3 : Rpower 2 3 = 8).
    { transitivity (Rpower 2 (INR 3)).
      - f_equal; try (rewrite INR_IZR_INZ; reflexivity).
      - rewrite Rpower_pow by lra. simpl. lra. }
    unfold v. rewrite <- H3, Rpower_mult, Hexp, Rpower_plus, Rpower_1 by lra.
    reflexivity. }
  assert (Hln : 0 < ln 2 < 1).
  { split.
    - rewrite <- ln_1. apply ln_increasing; lra.
    - rewrite <- (ln_exp 1). apply ln_increasing; [lra |].
      pose proof (exp_ineq1 1). lra. }
  assert (Hu : 1 - pow2 (-54) < Rpower 2 (- pow2 (-54)) <= 1).
  { unfold Rpower. set (z := - pow2 (-54) * ln 2).
    assert (Hz : - pow2 (-54) < z < 0) by (unfold z; nra).
    pose proof (exp_ineq1_le z). split; [lra |].
    rewrite <- exp_0. apply Rlt_le, exp_increasing. lra. }
  assert (Hn : nearest v (RN v)) by (apply RN_nearest, nearest_exists; lra).
  assert (H2 : binary64 (Float 2 0)) by (apply binary64_int; simpl; lia).
  assert (Hhi : F2R (RN v) <= 2).
  { rewrite <- (F2R_int 2). apply (nearest_le v); [exact Hn | exact H2 |].
    rewrite F2R_int. lra. }
  assert (Hp52 : pow2 (-52) = 4 * pow2 (-54)).
  { change (-52)%Z with (2 + -54)%Z. rewrite pow2_add, (pow2_IZR 2) by lia.
    reflexivity. }
  assert (Hlo : IZR (2 ^ 53 - 1) * pow2 (-52) < F2R (RN v)).
  { assert (Hpred : IZR (2 ^ 53 - 1) * pow2 (-52) = 2 - pow2 (-52)).
    { rewrite minus_IZR, Hp52.
      replace (IZR (2 ^ 53)) with (IZR (2 ^ 54) / 2)
        by (change (IZR (2 ^ 54)) with 18014398509481984;
            change (IZR (2 ^ 53)) with 9007199254740992; lra).
      lra. }
    rewrite Hpred.
    apply (nearest_gt_mid v _ _ (Float 2 0) Hn H2); rewrite F2R_int; lra. }
  assert (Hge : 2 <= F2R (RN v)).
  { destruct (Rle_lt_dec 2 (F2R (RN v))) as [| Hlt]; [assumption | exfalso].
    apply (binary64_gap (2 ^ 53 - 1) (-52) (RN v));
      [lia | apply Hn | exact Hlo |].
    replace (2 ^ 53 - 1 + 1)%Z with (2 ^ 53)%Z by lia.
    replace (IZR (2 ^ 53) * pow2 (-52)) with 2; [exact Hlt |].
    rewrite Hp52.
    replace (IZR (2 ^ 53)) with (IZR (2 ^ 54) / 2)
      by (change (IZR (2 ^ 54)) with 18014398509481984;
          change (IZR (2 ^ 53)) with 9007199254740992; lra).
    lra. }
  pose proof (py_int_ge (RN v) 2 ltac:(lra) ltac:(lra)).
  pose proof (py_int_lt (RN v) 3 ltac:(lra) ltac:(lra)). lia.
Qed.

End PythonFloats.

(** ** The divisor search *)

Section DivisorLoop.

Lemma py_range_snoc (lo : Z) (n : nat) :
  py_range lo (lo + Z.of_nat (S n)) =
  py_range lo (lo + Z.of_nat n) ++ [lo + Z.of_nat n].
Proof.
  unfold py_range.
  replace (Z.to_nat (lo + Z.of_nat (S n) - lo)) with (S n) by lia.
  replace (Z.to_nat (lo + Z.of_nat n - lo)) with n by lia.
  rewrite seq_S, map_app. reflexivity.
Qed.

Lemma py_range_empty (lo hi : Z) : hi <= lo -> py_range lo hi = [].
Proof.
  intros H. unfold py_range.
  replace (Z.to_nat (hi - lo)) with 0%nat by lia. reflexivity.
Qed.

Lemma divisor_loop_empty (count stop : Z) :
  stop <= 2 -> divisor_loop count stop = 1.
Proof.
  intros H. unfold divisor_loop. rewrite py_range_empty by exact H.
  reflexivity.
Qed.

Lemma divisor_loop_snoc (count : Z) (n : nat) :
  divisor_loop count (2 + Z.of_nat (S n)) =
  divisor_step count (divisor_loop count (2 + Z.of_nat n)) (2 + Z.of_nat n).
Proof.
  unfold divisor_loop. rewrite py_range_snoc, fold_left_app. reflexivity.
Qed.

Lemma divisor_loop_nat (count : Z) (n : nat) :
  largest_divisor_upto count (1 + Z.of_nat n)
    (divisor_loop count (2 + Z.of_nat n)).
Proof.
  induction n as [| n IH].
  - rewrite divisor_loop_empty by lia. right. split; [reflexivity |].
    intros i Hi. lia.
  - rewrite divisor_loop_snoc. unfold divisor_step.
    destruct (Z.eqb_spec (count mod (2 + Z.of_nat n)) 0) as [Hdiv | Hndiv].
    + left. split; [lia |]. split; [exact Hdiv |]. intros i Hi. lia.
    + destruct IH as [(Hd & Hm & Hbig) | (Hd & Hnone)].
      * left. split; [lia |]. split; [exact Hm |]. intros i Hi.
        destruct (Z.eq_dec i (2 + Z.of_nat n)) as [-> | Hne];
          [exact Hndiv | apply Hbig; lia].
      * right. split; [exact Hd |]. intros i Hi.
        destruct (Z.eq_dec i (2 + Z.of_nat n)) as [-> | Hne];
          [exact Hndiv | apply Hnone; lia].
Qed.

(** The loop finds the largest divisor in [[2, hi]], or keeps 1. *)
Lemma divisor_loop_spec (count hi : Z) :
  largest_divisor_upto count hi (divisor_loop count (hi + 1)).
Proof.
  destruct (Z_le_gt_dec 1 hi) as [Hhi | Hhi].
  - pose proof (divisor_loop_nat count (Z.to_nat (hi - 1))) as H.
    replace (1 + Z.of_nat (Z.to_nat (hi - 1))) with hi in H by lia.
    replace (2 + Z.of_nat (Z.to_nat (hi - 1))) with (hi + 1) in H by lia.
    exact H.
  - rewrite divisor_loop_empty by lia. right. split; [reflexivity |].
    intros i Hi. lia.
Qed.

(** The value is determined by the specification. *)
Lemma largest_divisor_upto_unique (count hi d d' : Z) :
  largest_divisor_upto count hi d -> largest_divisor_upto count hi d' ->
  d = d'.
Proof.
  intros [(Hd & Hm & Hbig) | (Hd & Hnone)]
         [(Hd' & Hm' & Hbig') | (Hd' & Hnone')].
  - destruct (Z.lt_trichotomy d d') as [Hlt | [Heq | Hgt]]; [| exact Heq |].
    + exfalso. apply (Hbig d'); [lia | exact Hm'].
    + exfalso. apply (Hbig' d); [lia | exact Hm].
  - exfalso. apply (Hnone' d); [lia | exact Hm].
  - exfalso. apply (Hnone d'); [lia | exact Hm'].
  - lia.
Qed.

Lemma divisor_loop_divides (count stop : Z) :
  1 <= divisor_loop count stop /\ count mod divisor_loop count stop = 0.
Proof.
  pose proof (divisor_loop_spec count (stop - 1)) as H.
  replace (stop - 1 + 1) with stop in H by lia.
  destruct H as [(Hd & Hm & _) | (Hd & _)].
  - split; [lia | exact Hm].
  - rewrite Hd. split; [lia | apply Z.mod_1_r].
Qed.

Lemma divisor_loop_product (count stop : Z) :
  divisor_loop count stop * (count / divisor_loop count stop) = count.
Proof.
  destruct (divisor_loop_divides count stop) as [Hd Hm].
  pose proof (Z.div_mod count (divisor_loop count stop) ltac:(lia)). lia.
Qed.

(** One more candidate that does not divide [count] changes nothing. *)
Lemma divisor_loop_extend (count hi : Z) :
  count mod hi <> 0 -> divisor_loop count (hi + 1) = divisor_loop count hi.
Proof.
  intros Hnd. destruct (Z_le_gt_dec 2 hi) as [Hhi | Hhi].
  - replace (hi + 1) with (2 + Z.of_nat (S (Z.to_nat (hi - 2)))) by lia.
    rewrite divisor_loop_snoc.
    replace (2 + Z.of_nat (Z.to_nat (hi - 2))) with hi by lia.
    unfold divisor_step.
    destruct (Z.eqb_spec (count mod hi) 0); [contradiction | reflexivity].
  - rewrite !divisor_loop_empty by lia. reflexivity.
Qed.

End DivisorLoop.

(** ** The layout functions *)

Section GridLayout.

(** Largest count Python still converts to a float. *)
Lemma py_float_ok (count : Z) :
  0 <= count < 2 ^ 1024 - 2 ^ 970 -> exists x, py_float count = Ok x.
Proof.
  intros Hc. unfold py_float.
  destruct (Z.leb_spec (2 ^ 1024 - 2 ^ 970) (Z.abs count)) as [Hbig | _].
  - exfalso. lia.
  - eexists. reflexivity.
Qed.

(** Up to [2^53] the float square root bounds the search exactly as the
    integer square root does. *)
Lemma grid_layout_2d_eq (count : Z) :
  0 <= count < 2 ^ 53 ->
  grid_layout_2d count = Ok (grid_layout_2d_isqrt count).
Proof.
  intros Hc. unfold grid_layout_2d, grid_layout_2d_isqrt.
  destruct py_truediv_half as (h & Hh & Hhv). rewrite Hh. cbn [bind].
  destruct (py_pow_sqrt count h Hhv Hc) as (p & Hp & Hb). rewrite Hp.
  cbn [bind].
  destruct Hb as [Hb | [Hb Hnd]]; rewrite Hb.
  - reflexivity.
  - rewrite divisor_loop_extend by exact Hnd. reflexivity.
Qed.

(** Whatever the search bound, the result multiplies back to [count]. *)
Lemma grid_layout_2d_returns (count : Z) :
  0 <= count < 2 ^ 1024 - 2 ^ 970 ->
  exists rows cols,
    grid_layout_2d count = Ok (rows, cols) /\
    rows * cols = count /\ 1 <= rows /\ count mod rows = 0.
Proof.
  intros Hc. unfold grid_layout_2d.
  destruct py_truediv_half as (h & Hh & _). rewrite Hh. cbn [bind].
  unfold py_pow. destruct (Z.ltb_spec count 0) as [Hneg | _]; [lia |].
  destruct (py_float_ok count Hc) as (x & Hx). rewrite Hx. cbn [bind].
  eexists _, _. split; [reflexivity |].
  split; [apply divisor_loop_product | apply divisor_loop_divides].
Qed.

Lemma grid_layout_3d_returns (count : Z) :
  0 <= count < 2 ^ 1024 - 2 ^ 970 ->
  exists depth rows cols,
    grid_layout_3d count = Ok (depth, rows, cols) /\
    depth * rows * cols = count.
Proof.
  intros Hc. unfold grid_layout_3d.
  destruct py_truediv_third as (t & Ht & _). rewrite Ht. cbn [bind].
  unfold py_pow. destruct (Z.ltb_spec count 0) as [Hneg | _]; [lia |].
  destruct (py_float_ok count Hc) as (x & Hx). rewrite Hx. cbn [bind].
  set (root := divisor_loop count (py_int (libm_pow x t) + 1)).
  destruct (divisor_loop_divides count (py_int (libm_pow x t) + 1))
    as [Hr1 Hrm]. fold root in Hr1, Hrm.
  pose proof (divisor_loop_product count (py_int (libm_pow x t) + 1)) as Hprod.
  fold root in Hprod.
  assert (Hq : 0 <= count / root < 2 ^ 1024 - 2 ^ 970).
  { split; [apply Z.div_pos; lia |].
    apply Z.le_lt_trans with count; [| lia].
    apply Z.div_le_upper_bound; [lia |]. nia. }
  destruct (grid_layout_2d_returns (count / root) Hq)
    as (ny & nx & H2 & Hnn & _).
  rewrite H2. cbn [bind]. eexists _, _, _. split; [reflexivity |].
  rewrite <- Z.mul_assoc, Hnn. exact Hprod.
Qed.

Lemma grid_layout_2d_isqrt_spec (count : Z) :
  1 <= count ->
  largest_divisor_upto count (Z.sqrt count) (fst (grid_layout_2d_isqrt count))
  /\ snd (grid_layout_2d_isqrt count) = count / fst (grid_layout_2d_isqrt count)
  /\ fst (grid_layout_2d_isqrt count) <= snd (grid_layout_2d_isqrt count).
Proof.
  intros Hc. unfold grid_layout_2d_isqrt. cbn [fst snd].
  pose proof (divisor_loop_spec count (Z.sqrt count)) as Hspec.
  split; [exact Hspec |]. split; [reflexivity |].
  set (d := divisor_loop count (Z.sqrt count + 1)) in *.
  pose proof (Z.sqrt_spec count ltac:(lia)) as Hs. cbv zeta in Hs.
  destruct Hspec as [(Hd & Hm & _) | (Hd & _)].
  - apply Z.div_le_lower_bound; [lia |]. nia.
  - rewrite Hd, Z.div_1_r. exact Hc.
Qed.

(** The 3D layout, once the value of [int(count ** (1.0 / 3.0))] is
    known. *)
Lemma grid_layout_3d_with_bound (count k : Z) :
  0 <= count < 2 ^ 53 ->
  (forall t, F2R t = (IZR third_num * pow2 (-54))%R ->
             exists p, py_pow count t = Ok p /\ py_int p = k) ->
  grid_layout_3d count =
  Ok (divisor_loop count (k + 1),
      fst (grid_layout_2d_isqrt (count / divisor_loop count (k + 1))),
      snd (grid_layout_2d_isqrt (count / divisor_loop count (k + 1)))).
Proof.
  intros Hc Hk. unfold grid_layout_3d.
  destruct py_truediv_third as (t & Ht & Htv). rewrite Ht. cbn [bind].
  destruct (Hk t Htv) as (p & Hp & Hi). rewrite Hp. cbn [bind]. cbv zeta.
  rewrite Hi.
  destruct (divisor_loop_divides count (k + 1)) as [Hr1 _].
  set (root := divisor_loop count (k + 1)) in *.
  rewrite grid_layout_2d_eq.
  - cbn [bind]. destruct (grid_layout_2d_isqrt (count / root)). reflexivity.
  - split; [apply Z.div_pos; lia |].
    apply Z.le_lt_trans with count; [| lia].
    apply Z.div_le_upper_bound; [lia |]. nia.
Qed.

(** Between two cubes, and up to [2^27], the depth is the largest divisor
    up to the integer cube root [k], and the rest is the 2D layout of the
    quotient. *)
Lemma grid_layout_3d_between (count k : Z) :
  1 <= k -> k * k * k < count < (k + 1) * (k + 1) * (k + 1) ->
  count <= 2 ^ 27 ->
  exists d,
    largest_divisor_upto count k d /\
    grid_layout_3d count =
    Ok (d, fst (grid_layout_2d_isqrt (count / d)),
           snd (grid_layout_2d_isqrt (count / d))).
Proof.
  intros Hk Hc H27. exists (divisor_loop count (k + 1)).
  split; [apply divisor_loop_spec |].
  apply grid_layout_3d_with_bound; [lia |].
  intros t Ht. apply py_pow_third_between; assumption.
Qed.

(** The assertions of tests/test_grid_layout.py. *)
Lemma test_grid_layout_2d :
  grid_layout_2d 1 = Ok (1, 1) /\ grid_layout_2d 2 = Ok (1, 2) /\
  grid_layout_2d 3 = Ok (1, 3) /\ grid_layout_2d 4 = Ok (2, 2) /\
  grid_layout_2d 5 = Ok (1, 5) /\ grid_layout_2d 6 = Ok (2, 3) /\
  grid_layout_2d 7 = Ok (1, 7) /\ grid_layout_2d 8 = Ok (2, 4) /\
  grid_layout_2d 9 = Ok (3, 3) /\ grid_layout_2d 10 = Ok (2, 5).
Proof.
  repeat split; rewrite grid_layout_2d_eq by lia; reflexivity.
Qed.

Lemma test_grid_layout_3d :
  grid_layout_3d 1 = Ok (1, 1, 1) /\ grid_layout_3d 2 = Ok (1, 1, 2) /\
  grid_layout_3d 3 = Ok (1, 1, 3) /\ grid_layout_3d 4 = Ok (1, 2, 2) /\
  grid_layout_3d 5 = Ok (1, 1, 5) /\ grid_layout_3d 6 = Ok (1, 2, 3) /\
  grid_layout_3d 7 = Ok (1, 1, 7) /\ grid_layout_3d 8 = Ok (2, 2, 2) /\
  grid_layout_3d 9 = Ok (1, 3, 3) /\ grid_layout_3d 10 = Ok (2, 1, 5).
Proof.
  split; [rewrite (grid_layout_3d_with_bound 1 1);
          [reflexivity | lia | intros t _; apply py_pow_third_1] |].
  do 6 (split; [rewrite (grid_layout_3d_with_bound _ 1);
                [reflexivity | lia
                | intros t Ht; apply py_pow_third_between;
                  [exact Ht | lia..]] |]).
  split; [rewrite (grid_layout_3d_with_bound 8 2);
          [reflexivity | lia | intros t Ht; apply py_pow_third_8; exact Ht] |].
  split; rewrite (grid_layout_3d_with_bound _ 2);
    first [reflexivity | lia
          | intros t Ht; apply py_pow_third_between; [exact Ht | lia..]].
Qed.

End GridLayout.

(** ** The sizes the tiler computes *)

Section TilerSizes.

Local Open Scope nat_scope.

Lemma update_max_ok (ws : list nat) (k v : nat) :
  k < List.length ws ->
  exists ws', update_max ws k v = Ok ws' /\
    List.length ws' = List.length ws /\
    forall i, nth i ws' 0 =
              if i =? k then Nat.max (nth k ws 0) v else nth i ws 0.
Proof.
  intros Hk. unfold update_max.
  destruct (nth_error ws k) as [w |] eqn:Hw;
    [| apply nth_error_None in Hw; lia].
  eexists. split; [reflexivity |].
  assert (Hlen : List.length (firstn k ws) = k)
    by (rewrite length_firstn; lia).
  assert (Hwk : nth k ws 0 = w) by (apply nth_error_nth; exact Hw).
  split.
  - rewrite length_app, Hlen. cbn [List.length]. rewrite length_skipn. lia.
  - intros i. destruct (Nat.eqb_spec i k) as [-> | Hne].
    + rewrite app_nth2 by lia. rewrite Hlen, Nat.sub_diag, Hwk. reflexivity.
    + destruct (Nat.lt_ge_cases i k) as [Hlt | Hge].
      * rewrite app_nth1 by lia. rewrite nth_firstn.
        destruct (Nat.ltb_spec i k); [reflexivity | lia].
      * rewrite app_nth2 by lia. rewrite Hlen.
        destruct (i - k) as [| d] eqn:Hd; [lia |].
        cbn [nth]. rewrite nth_skipn. f_equal. lia.
Qed.

(** One row of the width loop, started at column [s]. *)
Lemma widths_row (row : list Image) : forall (ws : list nat) (s : nat),
  s + List.length row <= List.length ws ->
  exists ws',
    foldM (fun ws '(col, im) => update_max ws col (width im))
          (combine (seq s (List.length row)) row) ws = Ok ws' /\
    List.length ws' = List.length ws /\
    forall i, nth i ws' 0 =
              if s <=? i then Nat.max (nth i ws 0) (cell_width row (i - s))
              else nth i ws 0.
Proof.
  induction row as [| im row IH]; intros ws s Hlen.
  - exists ws. split; [reflexivity |]. split; [reflexivity |].
    intros i. unfold cell_width.
    destruct (s <=? i); [| reflexivity].
    destruct (i - s); cbn [nth_error]; lia.
  - cbn [List.length seq combine foldM] in *.
    destruct (update_max_ok ws s (width im)) as (ws1 & H1 & Hl1 & Hn1);
      [lia |].
    rewrite H1. cbn [bind].
    destruct (IH ws1 (S s)) as (ws2 & H2 & Hl2 & Hn2); [lia |].
    exists ws2. split; [exact H2 |]. split; [lia |].
    intros i. rewrite Hn2, !Hn1. unfold cell_width.
    destruct (Nat.leb_spec (S s) i) as [Hi | Hi].
    + destruct (Nat.leb_spec s i); [| lia].
      destruct (Nat.eqb_spec i s); [lia |].
      replace (i - s) with (S (i - S s)) by lia. reflexivity.
    + destruct (Nat.eqb_spec i s) as [-> | Hne].
      * rewrite Nat.leb_refl, Nat.sub_diag. reflexivity.
      * destruct (Nat.leb_spec s i); [lia | reflexivity].
Qed.

Lemma column_width_cons (row : list Image) (images : list (list Image))
    (col : nat) :
  column_width (row :: images) col =
  Nat.max (cell_width row col) (column_width images col).
Proof. reflexivity. Qed.

(** The width loop over all rows. *)
Lemma widths_rows (images : list (list Image)) : forall ws : list nat,
  Forall (fun row => List.length row <= List.length ws) images ->
  exists ws',
    foldM (fun ws row =>
             foldM (fun ws '(col, im) => update_max ws col (width im))
                   (enumerate row) ws) images ws = Ok ws' /\
    List.length ws' = List.length ws /\
    forall i, nth i ws' 0 = Nat.max (nth i ws 0) (column_width images i).
Proof.
  induction images as [| row images IH]; intros ws Hall.
  - exists ws. split; [reflexivity |]. split; [reflexivity |].
    intros i. unfold column_width. cbn. lia.
  - inversion Hall as [| ? ? Hrow Hrest]; subst.
    cbn [foldM]. unfold enumerate at 1.
    destruct (widths_row row ws 0) as (ws1 & H1 & Hl1 & Hn1); [lia |].
    rewrite H1. cbn [bind].
    destruct (IH ws1) as (ws2 & H2 & Hl2 & Hn2).
    { rewrite Hl1. exact Hrest. }
    exists ws2. split; [exact H2 |]. split; [lia |].
    intros i. rewrite Hn2, Hn1, column_width_cons.
    cbn [Nat.leb]. rewrite Nat.sub_0_r. lia.
Qed.

Lemma count_columns_eq (images : list (list Image)) :
  count_columns images = column_count images.
Proof.
  unfold count_columns, column_count.
  assert (H : forall a,
            fold_left (fun ncols row => Nat.max ncols (List.length row))
                      images a =
            Nat.max a (list_max (map (@List.length Image) images))).
  { induction images as [| row images IH]; intros a.
    - cbn. lia.
    - cbn [fold_left map]. rewrite IH.
      change (list_max (List.length row :: map (@List.length Image) images))
        with (Nat.max (List.length row)
                      (list_max (map (@List.length Image) images))).
      lia. }
  rewrite H. reflexivity.
Qed.

Lemma row_le_column_count (images : list (list Image)) :
  Forall (fun row => List.length row <= column_count images) images.
Proof.
  unfold column_count.
  assert (H : Forall (fun k => k <= list_max (map (@List.length Image) images))
                     (map (@List.length Image) images))
    by (apply list_max_le; lia).
  rewrite Forall_map in H. exact H.
Qed.

(** The widths the code computes are the column widths of the
    specification. *)
Lemma column_widths_eq (images : list (list Image)) :
  column_widths images (count_columns images) =
  Ok (map (column_width images) (seq 0 (column_count images))).
Proof.
  unfold column_widths. rewrite count_columns_eq.
  destruct (widths_rows images (repeat 0 (column_count images)))
    as (ws & H & Hl & Hn).
  { rewrite repeat_length. apply row_le_column_count. }
  rewrite H. f_equal. rewrite repeat_length in Hl.
  apply (nth_ext _ _ 0 0).
  - rewrite length_map, length_seq. exact Hl.
  - intros i Hi. rewrite Hn, nth_repeat.
    rewrite (nth_indep _ 0 (column_width images 0))
      by (rewrite length_map, length_seq; lia).
    rewrite map_nth, seq_nth by lia. reflexivity.
Qed.

(** One row of the height loop: only entry [r] changes. *)
Lemma heights_row (r : nat) (imgs : list Image) :
  forall (hs : list nat) (s : nat),
  r < List.length hs ->
  exists hs',
    foldM (fun hs '(_, im) => update_max hs r (height im))
          (combine (seq s (List.length imgs)) imgs) hs = Ok hs' /\
    List.length hs' = List.length hs /\
    forall i, nth i hs' 0 =
              if i =? r then Nat.max (nth r hs 0) (row_height imgs)
              else nth i hs 0.
Proof.
  induction imgs as [| im imgs IH]; intros hs s Hr.
  - exists hs. split; [reflexivity |]. split; [reflexivity |].
    intros i. unfold row_height. cbn.
    destruct (Nat.eqb_spec i r) as [-> |]; [lia | reflexivity].
  - cbn [List.length seq combine foldM].
    destruct (update_max_ok hs r (height im) Hr) as (hs1 & H1 & Hl1 & Hn1).
    rewrite H1. cbn [bind].
    destruct (IH hs1 (S s)) as (hs2 & H2 & Hl2 & Hn2); [lia |].
    exists hs2. split; [exact H2 |]. split; [lia |].
    intros i. rewrite Hn2, !Hn1, Nat.eqb_refl.
    change (row_height (im :: imgs))
      with (Nat.max (height im) (row_height imgs)).
    destruct (Nat.eqb_spec i r); [lia | reflexivity].
Qed.

(** The height loop over all rows, started at row [s]. *)
Lemma heights_rows (images : list (list Image)) :
  forall (hs : list nat) (s : nat),
  s + List.length images <= List.length hs ->
  exists hs',
    foldM (fun hs '(row, imgs) =>
             foldM (fun hs '(_, im) => update_max hs row (height im))
                   (enumerate imgs) hs)
          (combine (seq s (List.length images)) images) hs = Ok hs' /\
    List.length hs' = List.length hs /\
    forall i, nth i hs' 0 =
              if s <=? i
              then Nat.max (nth i hs 0) (row_height (nth (i - s) images []))
              else nth i hs 0.
Proof.
  induction images as [| imgs images IH]; intros hs s Hlen.
  - exists hs. split; [reflexivity |]. split; [reflexivity |].
    intros i. destruct (s <=? i); [| reflexivity].
    destruct (i - s); cbn; lia.
  - cbn [List.length seq combine foldM] in *. unfold enumerate at 1.
    destruct (heights_row s imgs hs 0) as (hs1 & H1 & Hl1 & Hn1); [lia |].
    rewrite H1. cbn [bind].
    destruct (IH hs1 (S s)) as (hs2 & H2 & Hl2 & Hn2); [lia |].
    exists hs2. split; [exact H2 |]. split; [lia |].
    intros i. rewrite Hn2, !Hn1.
    destruct (Nat.leb_spec (S s) i) as [Hi | Hi].
    + destruct (Nat.leb_spec s i); [| lia].
      destruct (Nat.eqb_spec i s); [lia |].
      replace (i - s) with (S (i - S s)) by lia. reflexivity.
    + destruct (Nat.eqb_spec i s) as [-> | Hne].
      * rewrite Nat.leb_refl, Nat.sub_diag. reflexivity.
      * destruct (Nat.leb_spec s i); [lia | reflexivity].
Qed.

(** The heights the code computes are the row heights of the
    specification. *)
Lemma row_heights_eq (images : list (list Image)) :
  row_heights images = Ok (map row_height images).
Proof.
  unfold row_heights.
  change (enumerate images)
    with (combine (seq 0 (List.length images)) images).
  destruct (heights_rows images (repeat 0 (List.length images)) 0)
    as (hs & H & Hl & Hn).
  { rewrite repeat_length. lia. }
  rewrite H. f_equal. rewrite repeat_length in Hl.
  apply (nth_ext _ _ 0 0).
  - rewrite length_map. exact Hl.
  - intros i Hi. rewrite Hn, nth_repeat. cbn [Nat.leb].
    rewrite Nat.sub_0_r. change 0 with (row_height []) at 2.
    rewrite map_nth. reflexivity.
Qed.

(** The tiler never fails before the final resize, and without a
    resolution it returns the pasted canvas. *)
Lemma tile_no_resolution (images : list (list Image)) (background : color) :
  tile images None background =
  Ok (paste_images (map (column_width images) (seq 0 (column_count images)))
                   (map row_height images) images
                   (Image_new (canvas_width images, canvas_height images)
                              background)).
Proof.
  unfold tile. rewrite column_widths_eq. cbn [bind].
  rewrite row_heights_eq. cbn [bind]. reflexivity.
Qed.


(** Pasting leaves the size of the canvas alone. *)
Lemma paste_images_size (widths heights : list nat)
    (images : list (list Image)) (canvas : Image) :
  width (paste_images widths heights images canvas) = width canvas /\
  height (paste_images widths heights images canvas) = height canvas.
Proof.
  unfold paste_images.
  assert (Hrow : forall r cv,
            width (paste_row widths heights cv r) = width cv /\
            height (paste_row widths heights cv r) = height cv).
  { intros [row imgs] cv. unfold paste_row.
    generalize (enumerate imgs) as cells. intros cells. revert cv.
    induction cells as [| [col im] cells IH]; intros cv; [now split |].
    cbn [fold_left]. destruct (IH (paste_cell widths heights row cv (col, im)))
      as [Hw Hh]. rewrite Hw, Hh. now split. }
  generalize (enumerate images) as rows. intros rows. revert canvas.
  induction rows as [| r rows IH]; intros canvas; [now split |].
  cbn [fold_left]. destruct (IH (paste_row widths heights canvas r))
    as [Hw Hh]. rewrite Hw, Hh. apply Hrow.
Qed.



End TilerSizes.

(** ** The composition loop *)

Section TilerPaste.

Local Open Scope nat_scope.

Lemma In_enumerate {A : Type} (l : list A) (k : nat) (a : A) :
  In (k, a) (enumerate l) <-> nth_error l k = Some a.
Proof.
  unfold enumerate.
  assert (H : forall s, In (k, a) (combine (seq s (List.length l)) l) <->
                        s <= k /\ nth_error l (k - s) = Some a).
  { induction l as [| x l IH]; intros s.
    - cbn. split; [tauto |]. intros [_ H]. destruct (k - s); discriminate.
    - cbn [List.length seq combine In]. rewrite IH. split.
      + intros [Heq | [Hle Hn]].
        * inversion Heq; subst. rewrite Nat.sub_diag. split; [lia | reflexivity].
        * split; [lia |]. replace (k - s) with (S (k - S s)) by lia. exact Hn.
      + intros [Hle Hn]. destruct (Nat.eq_dec s k) as [-> | Hne].
        * left. rewrite Nat.sub_diag in Hn. cbn in Hn. congruence.
        * right. split; [lia |].
          replace (k - s) with (S (k - S s)) in Hn by lia. exact Hn. }
  rewrite H, Nat.sub_0_r. split; [tauto | split; [lia | assumption]].
Qed.

(** The paste calls are those of [placements]. *)
Lemma paste_images_placements (widths heights : list nat)
    (images : list (list Image)) (canvas : Image) :
  paste_images widths heights images canvas =
  fold_left (fun cv p => paste cv (fst p) (snd p))
            (placements widths heights images) canvas.
Proof.
  unfold paste_images, placements.
  generalize (enumerate images) as rows. intros rows. revert canvas.
  induction rows as [| [row imgs] rows IH]; intros canvas; [reflexivity |].
  cbn [fold_left flat_map]. rewrite fold_left_app, IH. f_equal.
  unfold paste_row. generalize (enumerate imgs) as cells. intros cells.
  revert canvas. induction cells as [| [col im] cells IHc]; intros canvas;
    [reflexivity |].
  cbn [fold_left map]. rewrite IHc. reflexivity.
Qed.

Lemma In_placements (widths heights : list nat) (images : list (list Image))
    (p : Image * (nat * nat)) :
  In p (placements widths heights images) <->
  exists row col, image_at images row col = Some (fst p) /\
                  snd p = (list_sum (firstn col widths),
                           list_sum (firstn row heights)).
Proof.
  unfold placements, image_at. rewrite in_flat_map. split.
  - intros ([row imgs] & Hrow & Hin). apply in_map_iff in Hin.
    destruct Hin as ([col im] & Heq & Hcol). subst p.
    apply In_enumerate in Hrow. apply In_enumerate in Hcol.
    exists row, col. rewrite Hrow. split; [exact Hcol | reflexivity].
  - intros (row & col & Him & Hxy).
    destruct (nth_error images row) as [imgs |] eqn:Hrow; [| discriminate].
    exists (row, imgs). split; [apply In_enumerate; exact Hrow |].
    apply in_map_iff. exists (col, fst p). split.
    + destruct p as [im xy]. cbn [fst snd] in *. rewrite Hxy. reflexivity.
    + apply In_enumerate. exact Him.
Qed.

(** A pixel no pasted image covers keeps the canvas's colour. *)
Lemma paste_all_uncovered (ps : list (Image * (nat * nat))) (i j : nat) :
  forall canvas,
  (forall p, In p ps -> covers p i j = false) ->
  pixel (paste_all ps canvas) i j = pixel canvas i j.
Proof.
  induction ps as [| p ps IH]; intros canvas Hno; [reflexivity |].
  cbn [paste_all fold_left]. fold (paste_all ps (paste canvas (fst p) (snd p))).
  rewrite IH by (intros q Hq; apply Hno; now right).
  cbn [paste pixel]. fold (covers p i j). rewrite (Hno p); [reflexivity |].
  now left.
Qed.

(** A pixel covered by a pasted image, where all covering images agree,
    shows that image. *)
Lemma paste_all_covered (ps : list (Image * (nat * nat))) (i j : nat)
    (c : option color) :
  forall canvas,
  (exists p, In p ps /\ covers p i j = true) ->
  (forall q, In q ps -> covers q i j = true ->
             pixel (fst q) (i - fst (snd q)) (j - snd (snd q)) = c) ->
  pixel (paste_all ps canvas) i j = c.
Proof.
  induction ps as [| q ps IH] using rev_ind; intros canvas (p & Hin & Hcov) Hagree.
  - destruct Hin.
  - unfold paste_all. rewrite fold_left_app. cbn [fold_left paste pixel].
    fold (paste_all ps canvas). fold (covers q i j).
    destruct (covers q i j) eqn:Hq.
    + apply Hagree; [apply in_or_app; right; now left | exact Hq].
    + apply IH.
      * exists p. split; [| exact Hcov]. apply in_app_or in Hin.
        destruct Hin as [Hin | [Heq | []]]; [exact Hin | congruence].
      * intros r Hr. apply Hagree. apply in_or_app. now left.
Qed.

(** *** The cells of the grid do not overlap *)

Lemma cell_x_S (images : list (list Image)) (col : nat) :
  cell_x images (S col) = cell_x images col + column_width images col.
Proof.
  unfold cell_x. rewrite seq_S, map_app, list_sum_app. cbn. lia.
Qed.

Lemma cell_x_mono (images : list (list Image)) (c c' : nat) :
  c <= c' -> cell_x images c <= cell_x images c'.
Proof.
  induction 1 as [| c' _ IH]; [lia |]. rewrite cell_x_S. lia.
Qed.

Lemma firstn_S_snoc {A : Type} (l : list A) : forall (n : nat) (a : A),
  nth_error l n = Some a -> firstn (S n) l = firstn n l ++ [a].
Proof.
  induction l as [| x l IH]; intros [| n] a H; try discriminate.
  - cbn in H. inversion H. reflexivity.
  - cbn [nth_error] in H. rewrite firstn_cons, (IH n a H). reflexivity.
Qed.

Lemma cell_y_S (images : list (list Image)) (row : nat) (imgs : list Image) :
  nth_error images row = Some imgs ->
  cell_y images (S row) = cell_y images row + row_height imgs.
Proof.
  intros H. unfold cell_y.
  rewrite (firstn_S_snoc images row imgs H), map_app, list_sum_app. cbn. lia.
Qed.

Lemma cell_y_mono (images : list (list Image)) (r r' : nat) :
  r <= r' -> cell_y images r <= cell_y images r'.
Proof.
  induction 1 as [| r' _ IH]; [lia |].
  destruct (nth_error images r') as [imgs |] eqn:Hr.
  - rewrite (cell_y_S images r' imgs Hr). lia.
  - apply nth_error_None in Hr. unfold cell_y in *.
    rewrite (firstn_all2 (n := S r')) by lia.
    rewrite (firstn_all2 (n := r')) in IH by lia. exact IH.
Qed.

(** An image is no wider than its column and no higher than its row. *)
Lemma image_fits_cell (images : list (list Image)) (row col : nat)
    (im : Image) :
  image_at images row col = Some im ->
  width im <= column_width images col /\
  exists imgs, nth_error images row = Some imgs /\
               height im <= row_height imgs.
Proof.
  unfold image_at. intros H.
  destruct (nth_error images row) as [imgs |] eqn:Hrow; [| discriminate].
  split.
  - unfold column_width.
    assert (Hall : Forall (fun k => k <= list_max
                     (map (fun r => cell_width r col) images))
                     (map (fun r => cell_width r col) images))
      by (apply list_max_le; lia).
    rewrite Forall_forall in Hall.
    replace (width im) with (cell_width imgs col)
      by (unfold cell_width; now rewrite H).
    apply Hall. apply (in_map (fun r => cell_width r col) images imgs).
    eapply nth_error_In. exact Hrow.
  - exists imgs. split; [reflexivity |]. unfold row_height.
    assert (Hall : Forall (fun k => k <= list_max (map height imgs))
                          (map height imgs))
      by (apply list_max_le; lia).
    rewrite Forall_forall in Hall. apply Hall. apply in_map.
    eapply nth_error_In. exact H.
Qed.

Lemma in_box_spec (x y w h i j : nat) :
  in_box x y w h i j = true <-> x <= i < x + w /\ y <= j < y + h.
Proof.
  unfold in_box. rewrite !andb_true_iff, !Nat.leb_le, !Nat.ltb_lt. lia.
Qed.

(** Two images that cover the same pixel sit in the same cell. *)
Lemma boxes_disjoint (images : list (list Image)) (r c r' c' : nat)
    (im im' : Image) (i j : nat) :
  image_at images r c = Some im -> image_at images r' c' = Some im' ->
  in_box (cell_x images c) (cell_y images r) (width im) (height im) i j
    = true ->
  in_box (cell_x images c') (cell_y images r') (width im') (height im') i j
    = true ->
  r = r' /\ c = c'.
Proof.
  intros Him Him' Hin Hin'.
  apply in_box_spec in Hin. apply in_box_spec in Hin'.
  destruct (image_fits_cell _ _ _ _ Him) as (Hw & imgs & Hr & Hh).
  destruct (image_fits_cell _ _ _ _ Him') as (Hw' & imgs' & Hr' & Hh').
  pose proof (cell_x_S images c) as Hxc. pose proof (cell_x_S images c') as Hxc'.
  pose proof (cell_y_S images r imgs Hr) as Hyr.
  pose proof (cell_y_S images r' imgs' Hr') as Hyr'.
  split.
  - destruct (Nat.lt_trichotomy r r') as [Hlt | [Heq | Hgt]]; [| exact Heq |].
    + pose proof (cell_y_mono images (S r) r' ltac:(lia)). lia.
    + pose proof (cell_y_mono images (S r') r ltac:(lia)). lia.
  - destruct (Nat.lt_trichotomy c c') as [Hlt | [Heq | Hgt]]; [| exact Heq |].
    + pose proof (cell_x_mono images (S c) c' ltac:(lia)). lia.
    + pose proof (cell_x_mono images (S c') c ltac:(lia)). lia.
Qed.

Lemma firstn_seq_le (n : nat) : forall s m,
  n <= m -> firstn n (seq s m) = seq s n.
Proof.
  induction n as [| n IH]; intros s m Hle; [reflexivity |].
  destruct m as [| m]; [lia |]. cbn [seq firstn]. rewrite IH by lia.
  reflexivity.
Qed.

(** The corners the loop computes are the cell corners. *)
Lemma paste_corner (images : list (list Image)) (row col : nat) (im : Image) :
  image_at images row col = Some im ->
  list_sum (firstn col (map (column_width images)
                            (seq 0 (column_count images)))) =
    cell_x images col /\
  list_sum (firstn row (map row_height images)) = cell_y images row.
Proof.
  intros H. split.
  - unfold cell_x. rewrite firstn_map, firstn_seq_le; [reflexivity |].
    unfold image_at in H.
    destruct (nth_error images row) as [imgs |] eqn:Hrow; [| discriminate].
    assert (Hc : col < List.length imgs)
      by (apply nth_error_Some; congruence).
    pose proof (row_le_column_count images) as Hall.
    rewrite Forall_forall in Hall.
    specialize (Hall imgs (nth_error_In _ _ Hrow)). lia.
  - unfold cell_y. rewrite firstn_map. reflexivity.
Qed.

(** The pixels of the composed canvas. *)
Lemma tile_pixels (images : list (list Image)) (background : color) :
  exists canvas,
    tile images None background = Ok canvas /\
    width canvas = canvas_width images /\
    height canvas = canvas_height images /\
    (forall row col im dx dy,
        image_at images row col = Some im ->
        dx < width im -> dy < height im ->
        pixel canvas (cell_x images col + dx) (cell_y images row + dy) =
        pixel im dx dy) /\
    (forall i j,
        (forall row col im,
            image_at images row col = Some im ->
            in_box (cell_x images col) (cell_y images row)
                   (width im) (height im) i j = false) ->
        pixel canvas i j = Some background).
Proof.
  eexists. split; [apply tile_no_resolution |].
  set (widths := map (column_width images) (seq 0 (column_count images))).
  set (heights := map row_height images).
  set (blank := Image_new (canvas_width images, canvas_height images)
                          background).
  destruct (paste_images_size widths heights images blank) as [Hw Hh].
  split; [exact Hw |]. split; [exact Hh |].
  rewrite paste_images_placements. fold (paste_all (placements widths heights images) blank).
  assert (Hcov : forall q i j,
            In q (placements widths heights images) ->
            exists row col,
              image_at images row col = Some (fst q) /\
              covers q i j =
              in_box (cell_x images col) (cell_y images row)
                     (width (fst q)) (height (fst q)) i j /\
              snd q = (cell_x images col, cell_y images row)).
  { intros q i j Hq. apply In_placements in Hq.
    destruct Hq as (row & col & Him & Hxy). exists row, col.
    destruct (paste_corner images row col (fst q) Him) as [Hx Hy].
    fold widths in Hx. fold heights in Hy. rewrite Hx, Hy in Hxy.
    split; [exact Him |]. split; [| exact Hxy].
    unfold covers. rewrite Hxy. reflexivity. }
  split.
  - intros row col im dx dy Him Hdx Hdy.
    set (i := cell_x images col + dx). set (j := cell_y images row + dy).
    assert (Hbox : in_box (cell_x images col) (cell_y images row)
                          (width im) (height im) i j = true)
      by (apply in_box_spec; unfold i, j; lia).
    apply paste_all_covered.
    + exists (im, (cell_x images col, cell_y images row)). split.
      * apply In_placements. exists row, col. cbn [fst snd].
        split; [exact Him |].
        destruct (paste_corner images row col im Him) as [Hx Hy].
        fold widths in Hx. fold heights in Hy. rewrite Hx, Hy. reflexivity.
      * unfold covers. cbn [fst snd]. exact Hbox.
    + intros q Hq Hqc.
      destruct (Hcov q i j Hq) as (row' & col' & Him' & Hc' & Hxy').
      rewrite Hc' in Hqc.
      destruct (boxes_disjoint images row col row' col' im (fst q) i j
                  Him Him' Hbox Hqc) as [<- <-].
      rewrite Him in Him'. inversion Him' as [Heq]. rewrite Hxy'.
      cbn [fst snd]. unfold i, j. f_equal; lia.
  - intros i j Hnone. rewrite paste_all_uncovered; [reflexivity |].
    intros q Hq. destruct (Hcov q i j Hq) as (row & col & Him & Hc & _).
    rewrite Hc. apply (Hnone row col). exact Him.
Qed.

End TilerPaste.

(** ** The automatic arrangement *)

Section Arrange.

Local Open Scope nat_scope.

Context {A : Type}.

Lemma skipn_nth_error (paths : list A) : forall idx,
  skipn idx paths =
  match nth_error paths idx with
  | Some p => p :: skipn (S idx) paths
  | None => []
  end.
Proof.
  induction paths as [| x paths IH]; intros [| idx]; try reflexivity.
  cbn [skipn nth_error]. rewrite IH. destruct (nth_error paths idx); reflexivity.
Qed.

(** The inner loop appends the next [n] items, as far as there are any. *)
Lemma arrange_cells (paths : list A) (cols : list Z) :
  forall (paths_row : list A) (idx : nat),
  fold_left (arrange_cell paths) cols (paths_row, idx) =
  (paths_row ++ firstn (List.length cols) (skipn idx paths),
   idx + List.length cols).
Proof.
  induction cols as [| c cols IH]; intros paths_row idx.
  - cbn. rewrite app_nil_r, Nat.add_0_r. reflexivity.
  - cbn [fold_left arrange_cell List.length]. rewrite IH.
    rewrite (skipn_nth_error paths idx).
    destruct (nth_error paths idx) as [p |] eqn:Hp.
    + rewrite <- app_assoc. cbn [firstn app]. f_equal. lia.
    + apply nth_error_None in Hp.
      rewrite (skipn_all2 paths (n := S idx)) by lia.
      rewrite firstn_nil. cbn [firstn]. f_equal. lia.
Qed.

Lemma length_py_range (lo hi : Z) :
  List.length (py_range lo hi) = Z.to_nat (hi - lo).
Proof. unfold py_range. rewrite length_map, length_seq. reflexivity. Qed.

(** The outer loop appends one such row per iteration. *)
Lemma arrange_rows (paths : list A) (ncols : Z) (rows : list Z) :
  forall (paths_ : list (list A)) (idx : nat),
  fold_left (arrange_row paths ncols) rows (paths_, idx) =
  (paths_ ++
     map (fun k => firstn (Z.to_nat ncols)
                          (skipn (idx + k * Z.to_nat ncols) paths))
         (seq 0 (List.length rows)),
   idx + List.length rows * Z.to_nat ncols).
Proof.
  induction rows as [| r rows IH]; intros paths_ idx.
  - cbn. rewrite app_nil_r, Nat.add_0_r. reflexivity.
  - cbn [fold_left arrange_row List.length]. rewrite arrange_cells.
    rewrite length_py_range, Z.sub_0_r. cbn [app]. rewrite IH.
    rewrite <- app_assoc. cbn [seq map app]. rewrite Nat.add_0_r.
    f_equal; [| lia]. do 2 f_equal.
    rewrite <- seq_shift, map_map. apply map_ext. intros k.
    do 2 f_equal. lia.
Qed.

(** The loops of [image_tile_auto] distribute the items row-major. *)
Lemma arrange_row_major (paths : list A) (nrows ncols : Z) :
  arrange paths (nrows, ncols) =
  row_major paths (Z.to_nat nrows) (Z.to_nat ncols).
Proof.
  unfold arrange, row_major. cbn [fst snd]. rewrite arrange_rows.
  cbn [fst app]. rewrite length_py_range, Z.sub_0_r. reflexivity.
Qed.

Lemma length_row_major (items : list A) (nrows ncols : nat) :
  List.length (row_major items nrows ncols) = nrows.
Proof. unfold row_major. rewrite length_map, length_seq. reflexivity. Qed.

Lemma nth_row_major (items : list A) (nrows ncols k : nat) :
  k < nrows ->
  nth k (row_major items nrows ncols) [] =
  firstn ncols (skipn (k * ncols) items).
Proof.
  intros Hk. unfold row_major.
  set (f := fun k => firstn ncols (skipn (k * ncols) items)).
  rewrite (nth_indep _ [] (f 0))
    by (rewrite length_map, length_seq; exact Hk).
  rewrite map_nth, seq_nth by exact Hk. reflexivity.
Qed.

(** Item [k * ncols + j] sits in row [k] at column [j]. *)
Lemma row_major_cell (items : list A) (nrows ncols k j : nat) :
  k < nrows -> j < ncols ->
  nth_error (nth k (row_major items nrows ncols) []) j =
  nth_error items (k * ncols + j).
Proof.
  intros Hk Hj. rewrite nth_row_major by exact Hk.
  rewrite nth_error_firstn.
  destruct (Nat.ltb_spec j ncols); [| lia].
  apply nth_error_skipn.
Qed.

(** With enough items every row is full. *)
Lemma row_major_full (items : list A) (nrows ncols : nat) (row : list A) :
  nrows * ncols <= List.length items ->
  In row (row_major items nrows ncols) -> List.length row = ncols.
Proof.
  intros Hlen Hin. unfold row_major in Hin. apply in_map_iff in Hin.
  destruct Hin as (k & <- & Hk). apply in_seq in Hk.
  rewrite length_firstn, length_skipn. nia.
Qed.

Lemma firstn_add (l : list A) : forall a b,
  firstn (a + b) l = firstn a l ++ firstn b (skipn a l).
Proof.
  induction l as [| x l IH]; intros a b.
  - rewrite skipn_nil, !firstn_nil. reflexivity.
  - destruct a as [| a]; [reflexivity |].
    cbn [Nat.add firstn skipn app]. rewrite IH. reflexivity.
Qed.

(** The rows hold the first [nrows * ncols] items, in order. *)
Lemma concat_row_major (items : list A) (ncols : nat) : forall nrows,
  List.concat (row_major items nrows ncols) = firstn (nrows * ncols) items.
Proof.
  unfold row_major. induction nrows as [| n IH]; [reflexivity |].
  rewrite seq_S, map_app, List.concat_app, IH. cbn [map List.concat Nat.add].
  rewrite app_nil_r. replace (S n * ncols) with (n * ncols + ncols) by lia.
  rewrite firstn_add. reflexivity.
Qed.

End Arrange.

(** ** The two tilers *)

Section Tilers.

Import DanpyImage.

Variable save : filesystem -> Image -> string -> result filesystem.

Lemma mapM_map {X Y W : Type} (f : Y -> result W) (g : X -> Y) (l : list X) :
  mapM f (map g l) = mapM (fun x => f (g x)) l.
Proof.
  induction l as [| x l IH]; [reflexivity |].
  cbn [map mapM]. rewrite IH. reflexivity.
Qed.

Lemma mapM_ext {X W : Type} (f g : X -> result W) (l : list X) :
  (forall x, f x = g x) -> mapM f l = mapM g l.
Proof.
  intros H. induction l as [| x l IH]; [reflexivity |].
  cbn [mapM]. rewrite H, IH. reflexivity.
Qed.

(** The older [image_tile] of danpy/image_tile.py is the one of
    danpy/image.py on paths, followed by [save]. *)
Lemma image_tile_py_eq (fs : filesystem) (in_paths : list (list string))
    (out_path : string) (resolution : option (Z * Z)) (background : color) :
  DanpyImageTile.image_tile save fs in_paths out_path resolution background =
  (combined_img <- image_tile fs (map (map Path) in_paths)
                     resolution background ;;
   save fs combined_img out_path).
Proof.
  unfold DanpyImageTile.image_tile, image_tile.
  rewrite mapM_map.
  rewrite (mapM_ext (fun x => mapM (to_image fs) (map Path x))
                    (mapM (Image_open fs))).
  - destruct (mapM (mapM (Image_open fs)) in_paths); reflexivity.
  - intros row. rewrite mapM_map. reflexivity.
Qed.

(** Loaded handles load as themselves. *)
Lemma mapM_loaded (fs : filesystem) (images : list (list Image)) :
  mapM (mapM (to_image fs)) (map (map Loaded) images) = Ok images.
Proof.
  assert (Hrow : forall row, mapM (to_image fs) (map Loaded row) = Ok row).
  { induction row as [| im row IH]; [reflexivity |].
    cbn [map mapM to_image bind]. rewrite IH. reflexivity. }
  induction images as [| row images IH]; [reflexivity |].
  cbn [map mapM]. rewrite Hrow. cbn [bind]. rewrite IH. reflexivity.
Qed.

Lemma row_major_map {X Y : Type} (f : X -> Y) (items : list X)
    (nrows ncols : nat) :
  row_major (map f items) nrows ncols =
  map (map f) (row_major items nrows ncols).
Proof.
  unfold row_major. rewrite map_map. apply map_ext. intros k.
  rewrite skipn_map, firstn_map. reflexivity.
Qed.

(** The same for [image_tile_auto]. *)
Lemma image_tile_auto_py_eq (fs : filesystem) (paths : list string)
    (out_path : string) (layout resolution : option (Z * Z))
    (background : color) :
  DanpyImageTile.image_tile_auto save fs paths out_path layout resolution
                                 background =
  (combined_img <- image_tile_auto fs (map Path paths) layout
                     resolution background ;;
   save fs combined_img out_path).
Proof.
  unfold DanpyImageTile.image_tile_auto, image_tile_auto.
  rewrite length_map.
  destruct (match layout with
            | Some l => Ok l
            | None => grid_layout_2d (Z.of_nat (List.length paths))
            end) as [[r c] | e]; [| reflexivity].
  cbn [bind]. rewrite image_tile_py_eq, !arrange_row_major, row_major_map.
  reflexivity.
Qed.

End Tilers.

(** * The claims *)

(** ** Grid layout *)

(** Beyond the largest float, [count ** 0.5] raises. *)
Lemma grid_layout_2d_overflow (count : Z) :
  2 ^ 1024 - 2 ^ 970 <= count -> grid_layout_2d count = Raise OverflowError.
Proof.
  intros Hc. unfold grid_layout_2d.
  destruct py_truediv_half as (h & Hh & _). rewrite Hh. cbn [bind].
  unfold py_pow, py_float.
  destruct (Z.ltb_spec count 0) as [Hneg | _]; [lia |].
  destruct (Z.leb_spec (2 ^ 1024 - 2 ^ 970) (Z.abs count)) as [_ | Hs];
    [reflexivity | lia].
Qed.

(** C1, as amended.  For every integer count from 1 up to the largest one
    Python converts to a float (below [2^1024 - 2^970]),
    [grid_layout_2d(count)] returns a pair [(rows, cols)] with
    [rows * cols == count], and with [rows <= cols] when [count < 2^53];
    and [grid_layout_3d(count)] returns a triple whose product is
    [count]. *)
Theorem C1_layout_products (count : Z) :
  1 <= count < 2 ^ 1024 - 2 ^ 970 ->
  (exists rows cols,
      grid_layout_2d count = Ok (rows, cols) /\
      rows * cols = count /\
      (count < 2 ^ 53 -> rows <= cols)) /\
  (exists depth rows cols,
      grid_layout_3d count = Ok (depth, rows, cols) /\
      depth * rows * cols = count).
Proof.
  intros Hc. split.
  - destruct (grid_layout_2d_returns count ltac:(lia))
      as (rows & cols & H2 & Hprod & _).
    exists rows, cols. split; [exact H2 |]. split; [exact Hprod |].
    intros H53. rewrite grid_layout_2d_eq in H2 by lia.
    destruct (grid_layout_2d_isqrt_spec count ltac:(lia)) as (_ & _ & Hle).
    assert (Heq : grid_layout_2d_isqrt count = (rows, cols)) by congruence.
    rewrite Heq in Hle. exact Hle.
  - apply grid_layout_3d_returns. lia.
Qed.

Lemma C1_layout_products_witness :
  1 <= 12 < 2 ^ 1024 - 2 ^ 970 /\
  (exists rows cols,
      grid_layout_2d 12 = Ok (rows, cols) /\
      rows * cols = 12 /\
      (12 < 2 ^ 53 -> rows <= cols)) /\
  (exists depth rows cols,
      grid_layout_3d 12 = Ok (depth, rows, cols) /\
      depth * rows * cols = 12).
Proof.
  split; [lia | apply (C1_layout_products 12); lia].
Defined.

(** C1 as stated fails: [2^1024 >= 1], and [grid_layout_2d(2**1024)]
    returns no pair, it raises [OverflowError]. *)
Lemma C1_counterexample :
  1 <= 2 ^ 1024 /\
  grid_layout_2d (2 ^ 1024) = Raise OverflowError /\
  ~ (exists rows cols,
        grid_layout_2d (2 ^ 1024) = Ok (rows, cols) /\
        rows * cols = 2 ^ 1024 /\ rows <= cols).
Proof.
  assert (H : grid_layout_2d (2 ^ 1024) = Raise OverflowError)
    by (apply grid_layout_2d_overflow; lia).
  split; [lia |]. split; [exact H |].
  intros (rows & cols & Hok & _). rewrite H in Hok. discriminate.
Qed.

(** C3, as amended.  For every integer count with [1 <= count < 2^53]
    (the integers a float holds exactly), the first component of
    [grid_layout_2d(count)] is the largest integer [d] in
    [[2, floor(sqrt(count))]] that divides [count] evenly, and 1 when there
    is none; the second is [count / d]; and
    [grid_layout_2d(12) = (3, 4)]. *)
Theorem C3_largest_divisor (count : Z) :
  1 <= count < 2 ^ 53 ->
  (exists d,
      grid_layout_2d count = Ok (d, count / d) /\
      largest_divisor_upto count (Z.sqrt count) d) /\
  grid_layout_2d 12 = Ok (3, 4).
Proof.
  intros Hc. split.
  - exists (fst (grid_layout_2d_isqrt count)).
    rewrite grid_layout_2d_eq by lia.
    destruct (grid_layout_2d_isqrt_spec count ltac:(lia)) as (Hd & _ & _).
    split; [reflexivity | exact Hd].
  - rewrite grid_layout_2d_eq by lia. reflexivity.
Qed.

Lemma C3_largest_divisor_witness :
  1 <= 12 < 2 ^ 53 /\
  (exists d,
      grid_layout_2d 12 = Ok (d, 12 / d) /\
      largest_divisor_upto 12 (Z.sqrt 12) d) /\
  grid_layout_2d 12 = Ok (3, 4).
Proof.
  split; [lia | apply (C3_largest_divisor 12); lia].
Defined.

(** C3 as stated fails: [4^600 >= 1] is a perfect square with the exact
    root [2^600], yet [grid_layout_2d(4**600)] has no first component at
    all, it raises [OverflowError]. *)
Lemma C3_counterexample :
  1 <= 4 ^ 600 /\
  ~ (exists d cols,
        grid_layout_2d (4 ^ 600) = Ok (d, cols) /\
        largest_divisor_upto (4 ^ 600) (Z.sqrt (4 ^ 600)) d).
Proof.
  split; [lia |].
  intros (d & cols & Hok & _).
  rewrite grid_layout_2d_overflow in Hok by lia. discriminate.
Qed.

(** C4, at the failing input.  [grid_layout_3d(64)] is [(2, 4, 8)]:
    [64 ** (1.0 / 3.0)] is [3.9999999999999996], so the search stops at 3
    and the divisor 4 is never tried; with the bound
    [floor(64^(1/3)) = 4] of the claim the result is [(4, 4, 4)]. *)
Theorem C4_cube_of_four :
  grid_layout_3d 64 = Ok (2, 4, 8) /\
  icbrt 64 = 4 /\
  grid_layout_3d_icbrt 64 = (4, 4, 4).
Proof.
  split; [| split; reflexivity].
  unfold grid_layout_3d.
  destruct py_truediv_third as (t & Ht & Htv). rewrite Ht. cbn [bind].
  destruct (py_pow_third_64 t Htv) as (p & Hp & Hi). rewrite Hp.
  cbn [bind]. cbv zeta. rewrite Hi.
  change (divisor_loop 64 (3 + 1)) with 2.
  change (64 / 2) with 32.
  rewrite grid_layout_2d_eq by lia. reflexivity.
Qed.

(** C10.  [grid_layout_2d(0)] raises nothing and returns [(1, 0)]:
    [int(0 ** 0.5)] is 0, the search range [range(2, 1)] is empty, the
    divisor stays 1, and the second component 0 is not positive. *)
Theorem C10_zero :
  exists h p,
    py_truediv f1_0 f2_0 = Ok h /\ py_pow 0 h = Ok p /\
    py_range 2 (py_int p + 1) = [] /\
    grid_layout_2d 0 = Ok (1, 0) /\
    ~ 0 < snd (1, 0).
Proof.
  destruct py_truediv_half as (h & Hh & Hhv).
  destruct (py_pow_sqrt 0 h Hhv ltac:(lia)) as (p & Hp & Hb).
  change (Z.sqrt 0) with 0 in Hb.
  assert (Hi : py_int p = 0).
  { destruct Hb as [Hb | [_ Hnd]]; [exact Hb |].
    exfalso. apply Hnd. reflexivity. }
  exists h, p. split; [exact Hh |]. split; [exact Hp |].
  split; [rewrite Hi; reflexivity |].
  split; [rewrite grid_layout_2d_eq by lia; reflexivity |].
  cbn [snd]. lia.
Qed.

(** ** Image tiling *)

Section TilerClaims.

Import DanpyImage.

Local Open Scope nat_scope.



(** C5.  For a ragged grid whose sources load, the canvas shows every
    image pixel for pixel (no scaling) with its top-left corner at the sum
    of the widths of the columns before its column and the sum of the
    heights of the rows before its row; every pixel no image covers, so
    also the rest of a cell right of and below a smaller image, has the
    background colour. *)
Theorem C5_paste_positions (fs : filesystem) (grid : list (list ImageT))
    (images : list (list Image)) (background : color) :
  mapM (mapM (to_image fs)) grid = Ok images ->
  exists canvas,
    image_tile fs grid None background = Ok canvas /\
    (forall row col im dx dy,
        image_at images row col = Some im ->
        dx < width im -> dy < height im ->
        pixel canvas (cell_x images col + dx) (cell_y images row + dy) =
        pixel im dx dy) /\
    (forall i j,
        (forall row col im,
            image_at images row col = Some im ->
            in_box (cell_x images col) (cell_y images row)
                   (width im) (height im) i j = false) ->
        pixel canvas i j = Some background).
Proof.
  intros Hload. unfold image_tile. rewrite Hload. cbn [bind].
  destruct (tile_pixels images background)
    as (canvas & Ht & _ & _ & Himg & Hbg).
  exists canvas. repeat split; assumption.
Qed.

Lemma C5_paste_positions_witness :
  mapM (mapM (to_image sample_fs)) sample_grid = Ok sample_images /\
  exists canvas,
    image_tile sample_fs sample_grid None "white"%string = Ok canvas /\
    (forall row col im dx dy,
        image_at sample_images row col = Some im ->
        dx < width im -> dy < height im ->
        pixel canvas (cell_x sample_images col + dx)
                     (cell_y sample_images row + dy) =
        pixel im dx dy) /\
    (forall i j,
        (forall row col im,
            image_at sample_images row col = Some im ->
            in_box (cell_x sample_images col) (cell_y sample_images row)
                   (width im) (height im) i j = false) ->
        pixel canvas i j = Some "white"%string).
Proof.
  split; [reflexivity |].
  apply (C5_paste_positions sample_fs sample_grid sample_images "white"%string).
  reflexivity.
Defined.

(** The grid that the loops of [image_tile_auto] build for a layout with
    exactly as many cells as there are items. *)
Lemma arrange_shape {A : Type} (items : list A) (rows cols : nat) :
  rows * cols = List.length items ->
  List.length (arrange items (Z.of_nat rows, Z.of_nat cols)) = rows /\
  (forall row, In row (arrange items (Z.of_nat rows, Z.of_nat cols)) ->
               List.length row = cols) /\
  (forall i, i < List.length items ->
     nth_error (nth (i / cols) (arrange items (Z.of_nat rows, Z.of_nat cols))
                    [])
               (i mod cols)
     = nth_error items i).
Proof.
  intros Hn. rewrite arrange_row_major, !Nat2Z.id.
  split; [apply length_row_major |]. split.
  - intros row. apply row_major_full. lia.
  - intros i Hi.
    assert (Hc0 : 0 < cols) by nia.
    rewrite row_major_cell.
    + f_equal. pose proof (Nat.div_mod i cols ltac:(lia)). lia.
    + apply Nat.Div0.div_lt_upper_bound. lia.
    + apply Nat.mod_upper_bound. lia.
Qed.

(** C6.  For every sequence of items (a Python sequence has at most
    [sys.maxsize] items) and no layout argument, the grid that the loops
    of [image_tile_auto] build has the shape [grid_layout_2d(len(items))]:
    [rows] rows of [cols] items each, with item [i] at row [i div cols]
    and column [i mod cols]; and [image_tile_auto] is [image_tile] on that
    grid.  This holds of danpy/image.py and, for paths, of
    danpy/image_tile.py. *)
Theorem C6_auto_layout (fs : filesystem) (items : list ImageT)
    (resolution : option (Z * Z)) (background : color) :
  (Z.of_nat (List.length items) <= PY_SSIZE_T_MAX)%Z ->
  exists rows cols,
    grid_layout_2d (Z.of_nat (List.length items)) =
      Ok (Z.of_nat rows, Z.of_nat cols) /\
    List.length (arrange items (Z.of_nat rows, Z.of_nat cols)) = rows /\
    (forall row, In row (arrange items (Z.of_nat rows, Z.of_nat cols)) ->
                 List.length row = cols) /\
    (forall i, i < List.length items ->
       nth_error (nth (i / cols)
                      (arrange items (Z.of_nat rows, Z.of_nat cols)) [])
                 (i mod cols)
       = nth_error items i) /\
    image_tile_auto fs items None resolution background =
      image_tile fs (arrange items (Z.of_nat rows, Z.of_nat cols))
                 resolution background /\
    (forall save (paths : list string) (out_path : string),
       List.length paths = List.length items ->
       List.length (arrange paths (Z.of_nat rows, Z.of_nat cols)) = rows /\
       (forall row, In row (arrange paths (Z.of_nat rows, Z.of_nat cols)) ->
                    List.length row = cols) /\
       (forall i, i < List.length paths ->
          nth_error (nth (i / cols)
                         (arrange paths (Z.of_nat rows, Z.of_nat cols)) [])
                    (i mod cols)
          = nth_error paths i) /\
       DanpyImageTile.image_tile_auto save fs paths out_path None
                                      resolution background =
         DanpyImageTile.image_tile
           save fs (arrange paths (Z.of_nat rows, Z.of_nat cols))
           out_path resolution background).
Proof.
  intros Hlen. unfold PY_SSIZE_T_MAX in Hlen.
  destruct (grid_layout_2d_returns (Z.of_nat (List.length items)))
    as (r & c & H2 & Hprod & Hr & _); [lia |].
  assert (Hc : (0 <= c)%Z) by nia.
  exists (Z.to_nat r), (Z.to_nat c).
  rewrite !Z2Nat.id by lia.
  assert (Hn : Z.to_nat r * Z.to_nat c = List.length items) by nia.
  split; [exact H2 |].
  destruct (arrange_shape items (Z.to_nat r) (Z.to_nat c) Hn)
    as (Hrows & Hcols & Hcell).
  rewrite !Z2Nat.id in Hrows, Hcols, Hcell by lia.
  split; [exact Hrows |]. split; [exact Hcols |]. split; [exact Hcell |].
  split.
  - unfold image_tile_auto. rewrite H2. reflexivity.
  - intros save paths out_path Hp.
    destruct (arrange_shape paths (Z.to_nat r) (Z.to_nat c))
      as (Hrows' & Hcols' & Hcell'); [lia |].
    rewrite !Z2Nat.id in Hrows', Hcols', Hcell' by lia.
    split; [exact Hrows' |]. split; [exact Hcols' |].
    split; [exact Hcell' |].
    unfold DanpyImageTile.image_tile_auto. rewrite Hp, H2. reflexivity.
Qed.

Lemma C6_auto_layout_witness :
  (Z.of_nat (List.length three_items) <= PY_SSIZE_T_MAX)%Z /\
  exists rows cols,
    grid_layout_2d (Z.of_nat (List.length three_items)) =
      Ok (Z.of_nat rows, Z.of_nat cols) /\
    List.length (arrange three_items (Z.of_nat rows, Z.of_nat cols)) = rows /\
    (forall row, In row (arrange three_items (Z.of_nat rows, Z.of_nat cols)) ->
                 List.length row = cols) /\
    (forall i, i < List.length three_items ->
       nth_error (nth (i / cols)
                      (arrange three_items (Z.of_nat rows, Z.of_nat cols)) [])
                 (i mod cols)
       = nth_error three_items i) /\
    image_tile_auto sample_fs three_items None None "white"%string =
      image_tile sample_fs (arrange three_items (Z.of_nat rows, Z.of_nat cols))
                 None "white"%string /\
    (forall save (paths : list string) (out_path : string),
       List.length paths = List.length three_items ->
       List.length (arrange paths (Z.of_nat rows, Z.of_nat cols)) = rows /\
       (forall row, In row (arrange paths (Z.of_nat rows, Z.of_nat cols)) ->
                    List.length row = cols) /\
       (forall i, i < List.length paths ->
          nth_error (nth (i / cols)
                         (arrange paths (Z.of_nat rows, Z.of_nat cols)) [])
                    (i mod cols)
          = nth_error paths i) /\
       DanpyImageTile.image_tile_auto save sample_fs paths out_path None
                                      None "white"%string =
         DanpyImageTile.image_tile
           save sample_fs (arrange paths (Z.of_nat rows, Z.of_nat cols))
           out_path None "white"%string).
Proof.
  split; [unfold PY_SSIZE_T_MAX; cbn; lia |].
  apply (C6_auto_layout sample_fs three_items None "white"%string).
  unfold PY_SSIZE_T_MAX; cbn; lia.
Defined.

(** C7 as stated fails: the layout [(1, 2)] has room for two of the three
    items, and [image_tile_auto] raises nothing: it returns a canvas. *)
Lemma C7_counterexample :
  (1 * 2 < Z.of_nat (List.length three_items))%Z /\
  exists canvas,
    image_tile_auto sample_fs three_items (Some (1, 2)%Z) None "white"%string
    = Ok canvas.
Proof.
  split; [reflexivity |]. eexists. reflexivity.
Qed.

(** C7, as amended.  With an explicit layout [(r, c)] that has fewer cells
    than there are items, [image_tile_auto] makes no check of its own: it
    is [image_tile] on the grid of [r] rows that holds the first [r * c]
    items in row-major order, the other items are dropped, and it returns
    a canvas whenever those first items load. *)
Theorem C7_layout_too_small (fs : filesystem) (items : list ImageT)
    (r c : Z) (resolution : option (Z * Z)) (background : color) :
  (0 <= r)%Z -> (0 <= c)%Z -> (r * c < Z.of_nat (List.length items))%Z ->
  image_tile_auto fs items (Some (r, c)) resolution background =
    image_tile fs (row_major items (Z.to_nat r) (Z.to_nat c))
               resolution background /\
  List.length (row_major items (Z.to_nat r) (Z.to_nat c)) = Z.to_nat r /\
  List.concat (row_major items (Z.to_nat r) (Z.to_nat c)) =
    firstn (Z.to_nat (r * c)) items /\
  (forall images,
      mapM (mapM (to_image fs)) (row_major items (Z.to_nat r) (Z.to_nat c))
        = Ok images ->
      exists canvas,
        image_tile_auto fs items (Some (r, c)) None background = Ok canvas).
Proof.
  intros Hr Hc Hsmall.
  assert (Hauto : forall res,
            image_tile_auto fs items (Some (r, c)) res background =
            image_tile fs (row_major items (Z.to_nat r) (Z.to_nat c))
                       res background).
  { intros res. unfold image_tile_auto. cbn [bind].
    rewrite arrange_row_major. reflexivity. }
  split; [apply Hauto |]. split; [apply length_row_major |].
  split.
  - rewrite concat_row_major. f_equal. rewrite Z2Nat.inj_mul by lia.
    reflexivity.
  - intros images Hload. rewrite Hauto. unfold image_tile.
    rewrite Hload. cbn [bind].
    destruct (tile_pixels images background) as (canvas & Ht & _).
    exists canvas. exact Ht.
Qed.

Lemma C7_layout_too_small_witness :
  (0 <= 1)%Z /\ (0 <= 2)%Z /\
  (1 * 2 < Z.of_nat (List.length three_items))%Z /\
  image_tile_auto sample_fs three_items (Some (1, 2)%Z) None "white"%string =
    image_tile sample_fs (row_major three_items (Z.to_nat 1) (Z.to_nat 2))
               None "white"%string /\
  List.length (row_major three_items (Z.to_nat 1) (Z.to_nat 2)) = Z.to_nat 1 /\
  List.concat (row_major three_items (Z.to_nat 1) (Z.to_nat 2)) =
    firstn (Z.to_nat (1 * 2)) three_items /\
  (forall images,
      mapM (mapM (to_image sample_fs))
           (row_major three_items (Z.to_nat 1) (Z.to_nat 2)) = Ok images ->
      exists canvas,
        image_tile_auto sample_fs three_items (Some (1, 2)%Z) None
                        "white"%string = Ok canvas).
Proof.
  split; [lia |]. split; [lia |]. split; [reflexivity |].
  apply (C7_layout_too_small sample_fs three_items 1 2 None "white"%string);
    [lia | lia | reflexivity].
Defined.

(** C8 as stated fails: on the empty grid [image_tile] of danpy/image.py
    raises nothing, it returns a canvas. *)
Lemma C8_counterexample :
  exists canvas, image_tile sample_fs [] None "white"%string = Ok canvas.
Proof. eexists. reflexivity. Qed.

(** C8, as amended.  Neither tiler checks for an empty grid.  With zero
    rows and no resolution, [image_tile] of danpy/image.py returns an empty
    canvas, of width 0 and height 0; the one of danpy/image_tile.py makes
    the same empty canvas and passes it to [save], and ends as [save]
    ends: it fails when, and as, PIL refuses to write an empty image. *)
Theorem C8_empty_grid (fs : filesystem) (background : color) :
  (exists canvas,
     image_tile fs [] None background = Ok canvas /\
     width canvas = 0 /\ height canvas = 0) /\
  (forall save out_path,
     DanpyImageTile.image_tile save fs [] out_path None background =
     save fs (Image_new (0, 0) background) out_path).
Proof.
  split.
  - eexists. split; [reflexivity |]. split; reflexivity.
  - intros save out_path. reflexivity.
Qed.

(** C9 as stated fails for the tiler of danpy/image_tile.py: it does not
    leave the file to its caller.  Where the disk takes the file, the
    combined image is at [out_path] afterwards, a path that held nothing
    before. *)
Lemma C9_counterexample :
  sample_fs "out.png"%string = None /\
  exists fs' canvas,
    DanpyImageTile.image_tile sample_save sample_fs [["a.png"%string]]
                              "out.png"%string None "white"%string = Ok fs' /\
    fs' "out.png"%string = Some canvas /\
    width canvas = 100 /\ height canvas = 40.
Proof.
  split; [reflexivity |]. eexists _, _.
  split; [reflexivity |]. split; [reflexivity |]. split; reflexivity.
Qed.

(** C9, as amended.  In danpy/image.py a source is a path, which is
    opened, or an already loaded image, which is taken as it is; a grid
    that mixes both is tiled as the grid of its loaded images, and the
    combined image, of the size of the canvas and showing every image at
    its place, is returned in memory: [image_tile] reads the file system
    and hands back no file system.  In danpy/image_tile.py the sources
    are paths only, each is opened, and the tiler itself saves the image
    that the one of danpy/image.py returns for these paths at
    [out_path]. *)
Theorem C9_sources_and_result (fs : filesystem) (grid : list (list ImageT))
    (images : list (list Image)) (resolution : option (Z * Z))
    (background : color) :
  mapM (mapM (to_image fs)) grid = Ok images ->
  (forall p, to_image fs (Path p) = Image_open fs p) /\
  (forall im, to_image fs (Loaded im) = Ok im) /\
  image_tile fs grid resolution background =
    image_tile fs (map (map Loaded) images) resolution background /\
  (exists canvas,
     image_tile fs grid None background = Ok canvas /\
     width canvas = canvas_width images /\
     height canvas = canvas_height images /\
     forall row col im dx dy,
       image_at images row col = Some im ->
       dx < width im -> dy < height im ->
       pixel canvas (cell_x images col + dx) (cell_y images row + dy) =
       pixel im dx dy) /\
  (forall save in_paths out_path,
     DanpyImageTile.image_tile save fs in_paths out_path resolution
                               background =
     (combined_img <- image_tile fs (map (map Path) in_paths)
                        resolution background ;;
      save fs combined_img out_path)).
Proof.
  intros Hload.
  split; [reflexivity |]. split; [reflexivity |].
  split; [| split].
  - unfold image_tile. rewrite Hload, mapM_loaded. reflexivity.
  - unfold image_tile. rewrite Hload. cbn [bind].
    destruct (tile_pixels images background)
      as (canvas & Ht & Hw & Hh & Hpix & _).
    exists canvas. repeat split; assumption.
  - intros save in_paths out_path. apply image_tile_py_eq.
Qed.

Lemma C9_sources_and_result_witness :
  mapM (mapM (to_image sample_fs)) sample_grid = Ok sample_images /\
  (forall p, to_image sample_fs (Path p) = Image_open sample_fs p) /\
  (forall im, to_image sample_fs (Loaded im) = Ok im) /\
  image_tile sample_fs sample_grid None "white"%string =
    image_tile sample_fs (map (map Loaded) sample_images) None
               "white"%string /\
  (exists canvas,
     image_tile sample_fs sample_grid None "white"%string = Ok canvas /\
     width canvas = canvas_width sample_images /\
     height canvas = canvas_height sample_images /\
     forall row col im dx dy,
       image_at sample_images row col = Some im ->
       dx < width im -> dy < height im ->
       pixel canvas (cell_x sample_images col + dx)
                    (cell_y sample_images row + dy) =
       pixel im dx dy) /\
  (forall save in_paths out_path,
     DanpyImageTile.image_tile save sample_fs in_paths out_path None
                               "white"%string =
     (combined_img <- image_tile sample_fs (map (map Path) in_paths)
                        None "white"%string ;;
      save sample_fs combined_img out_path)).
Proof.
  split; [reflexivity |].
  apply (C9_sources_and_result sample_fs sample_grid sample_images None
           "white"%string).
  reflexivity.
Defined.

End TilerClaims.

(** * Further properties

    What the code shows beyond the claims: the rest of the behaviour of
    the layout functions and of the tilers, and the other functions of
    the repository that the claims do not reach. *)

(** ** The layout functions: errors and shapes *)

Section GridLayoutFurther.

Lemma py_pow_negative (count : Z) (y : float) :
  - (2 ^ 1024 - 2 ^ 970) < count < 0 -> py_pow count y = Raise TypeError.
Proof.
  intros H. unfold py_pow, py_float.
  destruct (Z.leb_spec (2 ^ 1024 - 2 ^ 970) (Z.abs count)) as [Hs | _];
    [lia |].
  cbn [bind]. destruct (Z.ltb_spec count 0) as [_ | Hpos]; [reflexivity | lia].
Qed.

Lemma py_pow_overflow (count : Z) (y : float) :
  2 ^ 1024 - 2 ^ 970 <= Z.abs count -> py_pow count y = Raise OverflowError.
Proof.
  intros H. unfold py_pow, py_float.
  destruct (Z.leb_spec (2 ^ 1024 - 2 ^ 970) (Z.abs count)) as [_ | Hs];
    [reflexivity | lia].
Qed.

(** X1.  [grid_layout_2d] and [grid_layout_3d] raise exactly outside
    [0 <= count < 2^1024 - 2^970]: [OverflowError] when the count has no
    float ([abs(count) >= 2^1024 - 2^970], the conversion comes first),
    [TypeError] for the other negative counts (the power is a complex
    number, which [int()] refuses); they raise nothing else. *)
Theorem grid_layout_errors (count : Z) (e : exception) :
  (grid_layout_2d count = Raise e <->
   (2 ^ 1024 - 2 ^ 970 <= Z.abs count /\ e = OverflowError) \/
   (- (2 ^ 1024 - 2 ^ 970) < count < 0 /\ e = TypeError)) /\
  (grid_layout_3d count = Raise e <->
   (2 ^ 1024 - 2 ^ 970 <= Z.abs count /\ e = OverflowError) \/
   (- (2 ^ 1024 - 2 ^ 970) < count < 0 /\ e = TypeError)).
Proof.
  destruct (Z_lt_le_dec (Z.abs count) (2 ^ 1024 - 2 ^ 970)) as [Hb | Hb];
    [destruct (Z_lt_le_dec count 0) as [Hn | Hn] |].
  - assert (H2 : grid_layout_2d count = Raise TypeError).
    { unfold grid_layout_2d. destruct py_truediv_half as (h & -> & _).
      cbn [bind]. rewrite py_pow_negative by lia. reflexivity. }
    assert (H3 : grid_layout_3d count = Raise TypeError).
    { unfold grid_layout_3d. destruct py_truediv_third as (t & -> & _).
      cbn [bind]. rewrite py_pow_negative by lia. reflexivity. }
    rewrite H2, H3.
    split; (split; [intros H; injection H as <-; right; split; [lia | auto] |]);
      (intros [[H _] | [_ ->]]; [lia | reflexivity]).
  - destruct (grid_layout_2d_returns count ltac:(lia)) as (r & c & -> & _).
    destruct (grid_layout_3d_returns count ltac:(lia)) as (d & r' & c' & -> & _).
    split; (split; [discriminate |]); intros [[H _] | [H _]]; lia.
  - assert (H2 : grid_layout_2d count = Raise OverflowError).
    { unfold grid_layout_2d. destruct py_truediv_half as (h & -> & _).
      cbn [bind]. rewrite py_pow_overflow by assumption. reflexivity. }
    assert (H3 : grid_layout_3d count = Raise OverflowError).
    { unfold grid_layout_3d. destruct py_truediv_third as (t & -> & _).
      cbn [bind]. rewrite py_pow_overflow by assumption. reflexivity. }
    rewrite H2, H3.
    split; (split; [intros H; injection H as <-; left; auto |]);
      (intros [[_ ->] | [H _]]; [reflexivity | lia]).
Qed.

Lemma isqrt_divisor_bound (count a b : Z) :
  1 <= a <= b -> a * b = count -> a <= Z.sqrt count.
Proof.
  intros Hab Hc. apply Z.sqrt_le_square; nia.
Qed.

(** X2.  Below [2^53] the 2D layout is the factorisation closest to a
    square: for every way [a * b] of writing the count with [a <= b], the
    returned rows are at least [a] and the returned columns at most [b]. *)
Theorem grid_layout_2d_closest (count a b : Z) :
  1 <= count < 2 ^ 53 -> 1 <= a <= b -> a * b = count ->
  exists rows cols,
    grid_layout_2d count = Ok (rows, cols) /\
    a <= rows /\ rows <= cols /\ cols <= b.
Proof.
  intros Hc Hab Hp.
  rewrite (grid_layout_2d_eq count) by lia.
  destruct (grid_layout_2d_isqrt_spec count ltac:(lia)) as (Hd & Hs & Hle).
  destruct (grid_layout_2d_isqrt count) as [rows cols] eqn:E.
  cbn [fst snd] in *. exists rows, cols. split; [reflexivity |].
  assert (Ha : a <= Z.sqrt count) by (eapply isqrt_divisor_bound; eauto).
  assert (Hm : count mod a = 0).
  { apply Z.mod_divide; [lia |]. exists b. lia. }
  assert (Har : a <= rows).
  { destruct Hd as [(H1 & H2 & H3) | (H1 & H2)].
    - destruct (Z_le_gt_dec a rows) as [|Hgt]; [assumption | exfalso].
      apply (H3 a); [lia | assumption].
    - destruct (Z.eq_dec a 1) as [-> | Hne]; [lia | exfalso].
      apply (H2 a); [lia | assumption]. }
  split; [assumption |]. split; [assumption |].
  subst cols. replace b with (count / a).
  - apply Z.div_le_compat_l; lia.
  - subst count. rewrite Z.mul_comm. apply Z.div_mul. lia.
Qed.

Lemma grid_layout_2d_closest_witness :
  1 <= 12 < 2 ^ 53 /\ 1 <= 2 <= 6 /\ 2 * 6 = 12 /\
  exists rows cols,
    grid_layout_2d 12 = Ok (rows, cols) /\
    2 <= rows /\ rows <= cols /\ cols <= 6.
Proof.
  split; [lia |]. split; [lia |]. split; [reflexivity |].
  apply (grid_layout_2d_closest 12 2 6); [lia | lia | reflexivity].
Defined.

Lemma isqrt_lt (count : Z) : 2 <= count -> Z.sqrt count < count.
Proof. intros H. apply Z.sqrt_lt_lin. lia. Qed.

(** X3.  For [2 <= count < 2^53], [grid_layout_2d(count)] is the single
    row [(1, count)] exactly when [count] is prime. *)
Theorem grid_layout_2d_prime (count : Z) :
  2 <= count < 2 ^ 53 ->
  (grid_layout_2d count = Ok (1, count) <-> Z.prime count).
Proof.
  intros Hc.
  rewrite (grid_layout_2d_eq count) by lia.
  destruct (grid_layout_2d_isqrt_spec count ltac:(lia)) as (Hd & Hs & Hle).
  pose proof (isqrt_lt count ltac:(lia)) as Hsq.
  split.
  - intros E.
    assert (E' : grid_layout_2d_isqrt count = (1, count)) by congruence.
    rewrite E' in Hd. cbn [fst] in Hd.
    destruct Hd as [(H1 & _) | (_ & H2)]; [lia |].
    split; [lia |]. intros n Hn [q Hq].
    assert (Hq1 : 1 < q < count) by nia.
    destruct (Z_le_gt_dec n q).
    + apply (H2 n).
      * split; [lia |]. apply Z.sqrt_le_square; nia.
      * apply Z.mod_divide; [lia |]. exists q. lia.
    + apply (H2 q).
      * split; [lia |]. apply Z.sqrt_le_square; nia.
      * apply Z.mod_divide; [lia |]. exists n. lia.
  - intros [_ Hp].
    destruct (grid_layout_2d_isqrt count) as [rows cols] eqn:E.
    cbn [fst snd] in *.
    assert (Hr : rows = 1).
    { destruct Hd as [(H1 & H2 & _) | (H1 & _)]; [exfalso | assumption].
      apply (Hp rows); [lia |]. apply Z.mod_divide; [lia | assumption]. }
    subst rows cols. rewrite Z.div_1_r. reflexivity.
Qed.

Lemma grid_layout_2d_prime_witness :
  2 <= 7 < 2 ^ 53 /\ (grid_layout_2d 7 = Ok (1, 7) <-> Z.prime 7).
Proof.
  split; [lia | apply (grid_layout_2d_prime 7); lia].
Defined.

(** X4.  A perfect square [k * k] below [2^53] is laid out as the square
    [(k, k)]: the float square root never loses the exact root. *)
Theorem grid_layout_2d_square (k : Z) :
  1 <= k -> k * k < 2 ^ 53 -> grid_layout_2d (k * k) = Ok (k, k).
Proof.
  intros Hk Hb.
  rewrite (grid_layout_2d_eq (k * k)) by nia.
  destruct (grid_layout_2d_isqrt_spec (k * k) ltac:(nia)) as (Hd & Hs & Hle).
  destruct (grid_layout_2d_isqrt (k * k)) as [rows cols] eqn:E.
  cbn [fst snd] in *. rewrite Z.sqrt_square in Hd by lia.
  assert (Hr : rows = k).
  { apply (largest_divisor_upto_unique (k * k) k); [assumption |].
    destruct (Z.eq_dec k 1) as [-> | Hne].
    - right. split; [reflexivity | intros; lia].
    - left. split; [lia |]. split; [apply Z_mod_mult | intros; lia]. }
  subst rows cols. rewrite Z.div_mul by lia. reflexivity.
Qed.

Lemma grid_layout_2d_square_witness :
  1 <= 5 /\ 5 * 5 < 2 ^ 53 /\ grid_layout_2d (5 * 5) = Ok (5, 5).
Proof.
  split; [lia |]. split; [lia |]. apply (grid_layout_2d_square 5); lia.
Defined.

End GridLayoutFurther.

(** ** The float cube root of every count below [2^53] *)

Section CubeRoots.

Local Open Scope R_scope.

Lemma exp_le_inv (a : R) : 0 <= a < 1 -> exp a <= / (1 - a).
Proof.
  intros Ha.
  pose proof (exp_ineq1_le (- a)) as H1.
  pose proof (exp_pos a) as H2.
  assert (H3 : exp a * exp (- a) = 1).
  { rewrite <- exp_plus, Rplus_opp_r. apply exp_0. }
  assert (H4 : 0 < 1 - a) by lra.
  apply (Rmult_le_reg_r (1 - a)); [assumption |].
  rewrite Rinv_l by lra. nra.
Qed.

Lemma exp_double_le (a r r' : R) :
  exp a <= r -> r * r <= r' -> exp (2 * a) <= r'.
Proof.
  intros H1 H2. replace (2 * a) with (a + a) by ring. rewrite exp_plus.
  pose proof (exp_pos a). nra.
Qed.

Lemma exp_1601 : exp (1601 / 1000) <= 5.
Proof.
  assert (H0 : exp (1601 / 256000) <= 503147 / 500000).
  { eapply Rle_trans; [apply exp_le_inv; lra |].
    apply (Rmult_le_reg_r (1 - 1601 / 256000)); [lra |].
    rewrite Rinv_l by lra. lra. }
  assert (H1 : exp (1601 / 128000) <= 253157 / 250000).
  { replace (1601 / 128000) with (2 * (1601 / 256000)) by field.
    apply (exp_double_le _ _ _ H0). lra. }
  assert (H2 : exp (1601 / 64000) <= 128177 / 125000).
  { replace (1601 / 64000) with (2 * (1601 / 128000)) by field.
    apply (exp_double_le _ _ _ H1). lra. }
  assert (H3 : exp (1601 / 32000) <= 525739 / 500000).
  { replace (1601 / 32000) with (2 * (1601 / 64000)) by field.
    apply (exp_double_le _ _ _ H2). lra. }
  assert (H4 : exp (1601 / 16000) <= 552803 / 500000).
  { replace (1601 / 16000) with (2 * (1601 / 32000)) by field.
    apply (exp_double_le _ _ _ H3). lra. }
  assert (H5 : exp (1601 / 8000) <= 244473 / 200000).
  { replace (1601 / 8000) with (2 * (1601 / 16000)) by field.
    apply (exp_double_le _ _ _ H4). lra. }
  assert (H6 : exp (1601 / 4000) <= 1494177 / 1000000).
  { replace (1601 / 4000) with (2 * (1601 / 8000)) by field.
    apply (exp_double_le _ _ _ H5). lra. }
  assert (H7 : exp (1601 / 2000) <= 446513 / 200000).
  { replace (1601 / 2000) with (2 * (1601 / 4000)) by field.
    apply (exp_double_le _ _ _ H6). lra. }
  replace (1601 / 1000) with (2 * (1601 / 2000)) by field.
  apply (exp_double_le _ _ _ H7). lra.
Qed.

Lemma exp_201 : exp (201 / 100) <= 8.
Proof.
  assert (H0 : exp (201 / 25600) <= 503957 / 500000).
  { eapply Rle_trans; [apply exp_le_inv; lra |].
    apply (Rmult_le_reg_r (1 - 201 / 25600)); [lra |].
    rewrite Rinv_l by lra. lra. }
  assert (H1 : exp (201 / 12800) <= 1015891 / 1000000).
  { replace (201 / 12800) with (2 * (201 / 25600)) by field.
    apply (exp_double_le _ _ _ H0). lra. }
  assert (H2 : exp (201 / 6400) <= 206407 / 200000).
  { replace (201 / 6400) with (2 * (201 / 12800)) by field.
    apply (exp_double_le _ _ _ H1). lra. }
  assert (H3 : exp (201 / 3200) <= 1065097 / 1000000).
  { replace (201 / 3200) with (2 * (201 / 6400)) by field.
    apply (exp_double_le _ _ _ H2). lra. }
  assert (H4 : exp (201 / 1600) <= 35451 / 31250).
  { replace (201 / 1600) with (2 * (201 / 3200)) by field.
    apply (exp_double_le _ _ _ H3). lra. }
  assert (H5 : exp (201 / 800) <= 160867 / 125000).
  { replace (201 / 800) with (2 * (201 / 1600)) by field.
    apply (exp_double_le _ _ _ H4). lra. }
  assert (H6 : exp (201 / 400) <= 331241 / 200000).
  { replace (201 / 400) with (2 * (201 / 800)) by field.
    apply (exp_double_le _ _ _ H5). lra. }
  assert (H7 : exp (201 / 200) <= 342877 / 125000).
  { replace (201 / 200) with (2 * (201 / 400)) by field.
    apply (exp_double_le _ _ _ H6). lra. }
  replace (201 / 100) with (2 * (201 / 200)) by field.
  apply (exp_double_le _ _ _ H7). lra.
Qed.

Lemma ln_lower (x b : R) : 0 < x -> exp b <= x -> b <= ln x.
Proof.
  intros Hx Hb. destruct (Rle_lt_dec b (ln x)) as [| Hlt]; [assumption |].
  exfalso. apply exp_increasing in Hlt. rewrite exp_ln in Hlt by assumption.
  lra.
Qed.

Lemma ln_ge_5 (x : R) : 5 <= x -> 1601 / 1000 <= ln x.
Proof.
  intros Hx. apply ln_lower; [lra |]. pose proof exp_1601. lra.
Qed.

Lemma ln_ge_8 (x : R) : 8 <= x -> 201 / 100 <= ln x.
Proof.
  intros Hx. apply ln_lower; [lra |]. pose proof exp_201. lra.
Qed.

Lemma pow2_m54 : pow2 (-54) * IZR (2 ^ 54) = 1.
Proof. rewrite <- pow2_IZR, <- pow2_add by lia. reflexivity. Qed.

Lemma pow2_m54_le : pow2 (-54) <= / 18014398509481984.
Proof.
  apply (Rmult_le_reg_r (IZR (2 ^ 54))); [apply IZR_lt; lia |].
  rewrite pow2_m54. change (IZR (2 ^ 54)) with 18014398509481984.
  rewrite Rinv_l; lra.
Qed.

(** [(K^3) ** (1.0 / 3.0)] is [K ^ (1 - 2^-54)]. *)
Lemma third_power_of_cube (K y : R) :
  y = IZR third_num * pow2 (-54) -> 0 < K ->
  Rpower (K * K * K) y = K * exp (- pow2 (-54) * ln K).
Proof.
  intros Hy HK.
  pose proof pow2_m54 as Hp54.
  set (d := pow2 (-54)) in *.
  assert (H3y : y * 3 = 1 + - d).
  { rewrite Hy. unfold third_num.
    replace (6004799503160661 * d * 3) with (18014398509481983 * d) by ring.
    replace 18014398509481983 with (IZR (2 ^ 54) - 1).
    - lra.
    - rewrite <- minus_IZR. reflexivity. }
  unfold Rpower.
  assert (HKK : 0 < K * K) by nra.
  rewrite (ln_mult (K * K) K), (ln_mult K K) by assumption.
  replace (y * (ln K + ln K + ln K)) with (ln K + - d * ln K)
    by (replace (y * (ln K + ln K + ln K)) with (y * 3 * ln K) by ring;
        rewrite H3y; ring).
  rewrite exp_plus, exp_ln by assumption. reflexivity.
Qed.

(** The float power of a cube [k^3] is at least [k - 1]. *)
Lemma third_power_of_cube_lower (k : Z) :
  (1 <= k < 2 ^ 18)%Z ->
  IZR k - 1 <= IZR k * exp (- pow2 (-54) * ln (IZR k)).
Proof.
  intros Hk.
  assert (HK : 1 <= IZR k <= 262144) by (split; apply IZR_le; lia).
  set (K := IZR k) in *.
  pose proof (pow2_pos (-54)) as Hd. pose proof pow2_m54_le as Hd54.
  set (d := pow2 (-54)) in *.
  assert (HL : 0 <= ln K <= K - 1).
  { split.
    - rewrite <- ln_1. destruct (Req_dec K 1) as [-> | Hne]; [lra |].
      apply Rlt_le, ln_increasing; lra.
    - pose proof (exp_ineq1_le (ln K)) as H. rewrite exp_ln in H by lra. lra. }
  set (L := ln K) in *.
  pose proof (exp_ineq1_le (- d * L)) as Hw.
  set (w := exp (- d * L)) in *.
  assert (HdL : d * L <= / 18014398509481984 * 262144) by nra.
  assert (K * (d * L) <= 1); [| nra].
  apply Rle_trans with (262144 * (/ 18014398509481984 * 262144)); [nra | lra].
Qed.

(** For [k >= 5] the float power of the cube [k^3] lies below the midpoint
    of [k] and a float below [k]: it never rounds to [k]. *)
Lemma third_power_of_cube_mid (k : Z) :
  (5 <= k < 2 ^ 18)%Z ->
  exists g, binary64 g /\ F2R g < IZR k /\
    2 * (IZR k * exp (- pow2 (-54) * ln (IZR k))) < F2R g + IZR k.
Proof.
  intros Hk.
  assert (HK : 5 <= IZR k <= 262144) by (split; apply IZR_le; lia).
  set (K := IZR k) in *.
  pose proof (pow2_pos (-54)) as Hd. pose proof pow2_m54_le as Hd54.
  set (d := pow2 (-54)) in *.
  assert (HL : 1601 / 1000 <= ln K <= K - 1).
  { split; [apply ln_ge_5; lra |].
    pose proof (exp_ineq1_le (ln K)) as H. rewrite exp_ln in H by lra. lra. }
  set (L := ln K) in *.
  assert (HdL : 0 < d * L <= / 10000).
  { split; [nra |].
    apply Rle_trans with (/ 18014398509481984 * 262144); [nra | lra]. }
  set (w := exp (- d * L)).
  assert (Hw0 : 0 < w) by apply exp_pos.
  assert (Hwhi : w * (1 + d * L) <= 1).
  { assert (H1 : exp (d * L) * w = 1).
    { unfold w. rewrite <- exp_plus.
      replace (d * L + - d * L) with 0 by ring. apply exp_0. }
    pose proof (exp_ineq1_le (d * L)) as H2. nra. }
  pose proof (Z.log2_spec k ltac:(lia)) as He.
  pose proof (Z.log2_nonneg k) as He0.
  set (e := Z.log2 k) in *.
  assert (He17 : (e <= 17)%Z).
  { destruct (Z_le_gt_dec e 17) as [| Hgt]; [assumption | exfalso].
    assert (2 ^ 18 <= 2 ^ e)%Z by (apply Z.pow_le_mono_r; lia). lia. }
  rewrite Z.pow_succ_r in He by assumption.
  assert (HE : 0 < IZR (2 ^ e) <= K).
  { split; [apply IZR_lt | apply IZR_le]; lia. }
  exists (Float (k * 2 ^ (52 - e) - 1) (e - 52)).
  assert (Hgv : F2R (Float (k * 2 ^ (52 - e) - 1) (e - 52)) =
                K - 4 * IZR (2 ^ e) * d).
  { unfold F2R; cbn [Fnum Fexp].
    rewrite minus_IZR, mult_IZR, <- pow2_IZR by lia.
    rewrite Rmult_minus_distr_r, Rmult_assoc, <- pow2_add.
    replace (52 - e + (e - 52))%Z with 0%Z by lia. rewrite pow2_0.
    replace (e - 52)%Z with (2 + e + -54)%Z by lia.
    rewrite !pow2_add, (pow2_IZR 2), (pow2_IZR e) by lia.
    fold d. fold K. change (IZR (2 ^ 2)) with 4. ring. }
  rewrite Hgv. split; [| split; [nra |]].
  - unfold binary64; cbn [Fnum Fexp]. split; [| lia].
    assert (Hpp : (2 ^ e * 2 ^ (52 - e) = 2 ^ 52)%Z).
    { rewrite <- Z.pow_add_r by lia. f_equal. lia. }
    assert (0 < 2 ^ (52 - e))%Z by (apply Z.pow_pos_nonneg; lia).
    rewrite Z.abs_eq by nia.
    change (2 ^ 53)%Z with (2 * 2 ^ 52)%Z. nia.
  - set (E := IZR (2 ^ e)) in *.
    assert (Hkey : 2 * E * (1 + d * L) < K * L).
    { destruct (Z_le_gt_dec 8 k) as [H8 | H8].
      - assert (8 <= K) by (apply IZR_le; exact H8).
        assert (201 / 100 <= L) by (apply ln_ge_8; assumption).
        nra.
      - assert (He2 : e = 2%Z).
        { unfold e. assert (Hk' : k = 5%Z \/ k = 6%Z \/ k = 7%Z) by lia.
          destruct Hk' as [-> | [-> | ->]]; reflexivity. }
        assert (HE4 : E = 4) by (unfold E; rewrite He2; reflexivity).
        rewrite HE4. nra. }
    assert (H1 : 2 * (K * w) * (1 + d * L) <= 2 * K) by nra.
    assert (H2 : 2 * K < (K - 4 * E * d + K) * (1 + d * L)) by nra.
    assert (H3 : 0 < 1 + d * L) by lra.
    apply (Rmult_lt_reg_r (1 + d * L)); [assumption | lra].
Qed.

(** The power is monotone in the count. *)
Lemma real_pow_third_mono (a b y : R) :
  0 <= y -> 1 <= a <= b -> Rpower a y <= Rpower b y.
Proof. intros Hy Hab. apply Rle_Rpower_l; lra. Qed.

Lemma third_nonneg : 0 <= IZR third_num * pow2 (-54).
Proof.
  pose proof (pow2_pos (-54)).
  assert (0 < IZR third_num) by (apply IZR_lt; reflexivity). nra.
Qed.

(** Below a cube [m^3] with [m >= 5], [int(count ** (1.0 / 3.0))] is
    below [m]. *)
Lemma py_pow_third_upper (count m : Z) (t : float) :
  F2R t = IZR third_num * pow2 (-54) ->
  (5 <= m < 2 ^ 18)%Z -> (1 <= count <= m * m * m)%Z -> (count < 2 ^ 53)%Z ->
  exists p, py_pow count t = Ok p /\ (py_int p < m)%Z.
Proof.
  intros Ht Hm Hc H53. unfold py_pow.
  destruct (Z.ltb_spec count 0) as [Hneg | _]; [lia |].
  destruct (py_float_exact count ltac:(lia)) as (x & Hx & Hxv).
  rewrite Hx. cbn [bind]. eexists. split; [reflexivity |].
  unfold libm_pow, real_pow. rewrite Hxv, Ht.
  assert (Hc1 : 1 <= IZR count) by (apply IZR_le; lia).
  destruct (Req_dec_T (IZR count) 0) as [He | _]; [lra |].
  set (v := Rpower (IZR count) (IZR third_num * pow2 (-54))).
  assert (HM : 5 <= IZR m) by (apply IZR_le; lia).
  assert (Hvm : v <= IZR m * exp (- pow2 (-54) * ln (IZR m))).
  { rewrite <- (third_power_of_cube (IZR m) _ eq_refl) by lra.
    apply real_pow_third_mono; [apply third_nonneg |].
    split; [assumption |]. rewrite <- !mult_IZR. apply IZR_le. lia. }
  assert (Hv1 : 1 <= v).
  { unfold v. rewrite <- (Rpower_O 1) by lra.
    unfold Rpower at 1. rewrite ln_1, Rmult_0_r.
    unfold Rpower. destruct (Req_dec (IZR count) 1) as [-> | Hne].
    - rewrite ln_1, Rmult_0_r. lra.
    - apply Rlt_le, exp_increasing.
      assert (0 < ln (IZR count)).
      { rewrite <- ln_1. apply ln_increasing; lra. }
      pose proof third_nonneg.
      assert (0 < IZR third_num * pow2 (-54)).
      { pose proof (pow2_pos (-54)).
        assert (0 < IZR third_num) by (apply IZR_lt; reflexivity). nra. }
      nra. }
  destruct (third_power_of_cube_mid m Hm) as (g & Hg & Hgm & Hmid).
  assert (Hn : nearest v (RN v)) by (apply RN_nearest, nearest_exists; lra).
  assert (Hrhi : F2R (RN v) < IZR m).
  { apply (nearest_lt_mid v _ _ _ Hn Hg); [assumption | lra]. }
  assert (Hr0 : 0 <= F2R (RN v)).
  { apply Rle_trans with 1; [lra |].
    rewrite <- (F2R_int 1). apply (nearest_ge v); [exact Hn | |].
    - apply binary64_int. simpl. lia.
    - rewrite F2R_int. lra. }
  apply (py_int_lt _ m Hr0 Hrhi).
Qed.

(** From a cube [k^3] on, [int(count ** (1.0 / 3.0))] is at least
    [k - 1]. *)
Lemma py_pow_third_lower (count k : Z) (t : float) :
  F2R t = IZR third_num * pow2 (-54) ->
  (1 <= k)%Z -> (k * k * k <= count < 2 ^ 53)%Z ->
  exists p, py_pow count t = Ok p /\ (k - 1 <= py_int p)%Z.
Proof.
  intros Ht Hk Hc. unfold py_pow.
  destruct (Z.ltb_spec count 0) as [Hneg | _]; [lia |].
  destruct (py_float_exact count ltac:(lia)) as (x & Hx & Hxv).
  rewrite Hx. cbn [bind]. eexists. split; [reflexivity |].
  unfold libm_pow, real_pow. rewrite Hxv, Ht.
  assert (Hk18 : (k < 2 ^ 18)%Z) by nia.
  assert (HK : 1 <= IZR k) by (apply IZR_le; lia).
  assert (Hc1 : 1 <= IZR count) by (apply IZR_le; nia).
  destruct (Req_dec_T (IZR count) 0) as [He | _]; [lra |].
  set (v := Rpower (IZR count) (IZR third_num * pow2 (-54))).
  assert (Hvk : IZR k - 1 <= v).
  { apply Rle_trans with (IZR k * exp (- pow2 (-54) * ln (IZR k))).
    - apply third_power_of_cube_lower. lia.
    - rewrite <- (third_power_of_cube (IZR k) _ eq_refl) by lra.
      apply real_pow_third_mono; [apply third_nonneg |].
      split; [nra |]. rewrite <- !mult_IZR. apply IZR_le. lia. }
  assert (Hv0 : 0 < v) by apply exp_pos.
  destruct (Z.eq_dec k 1) as [-> | Hne].
  { assert (0 <= F2R (RN v)).
    { destruct (Rle_lt_dec 1 v) as [H1 | H1].
      - assert (Hn : nearest v (RN v))
          by (apply RN_nearest, nearest_exists; lra).
        rewrite <- (F2R_int 0). apply (nearest_ge v); [exact Hn | |].
        + apply binary64_int. simpl. lia.
        + rewrite F2R_int. lra.
      - exfalso. unfold v in H1.
        assert (Rpower 1 (IZR third_num * pow2 (-54)) <= v).
        { apply real_pow_third_mono; [apply third_nonneg | lra]. }
        unfold Rpower at 1 in H. rewrite ln_1, Rmult_0_r, exp_0 in H.
        unfold v in H. lra. }
    apply py_int_ge; [assumption | simpl; assumption]. }
  assert (HK2 : 2 <= IZR k) by (apply IZR_le; lia).
  assert (Hn : nearest v (RN v)) by (apply RN_nearest, nearest_exists; lra).
  assert (Hrlo : IZR (k - 1) <= F2R (RN v)).
  { rewrite <- (F2R_int (k - 1)). apply (nearest_ge v); [exact Hn | |].
    - apply binary64_int. lia.
    - rewrite F2R_int, minus_IZR. exact Hvk. }
  assert (Hr0 : 0 <= F2R (RN v)).
  { apply Rle_trans with (IZR (k - 1)); [apply IZR_le; lia | assumption]. }
  apply (py_int_ge _ (k - 1) Hr0 Hrlo).
Qed.

End CubeRoots.

Section GridLayout3dFurther.

(** At a cube, [int(count ** (1.0 / 3.0))] is at most the cube root. *)
Lemma py_pow_third_at_cube (k : Z) (t : float) :
  F2R t = (IZR third_num * pow2 (-54))%R ->
  1 <= k -> k * k * k < 2 ^ 53 ->
  exists p, py_pow (k * k * k) t = Ok p /\ py_int p <= k.
Proof.
  intros Ht Hk Hc. unfold py_pow.
  destruct (Z.ltb_spec (k * k * k) 0) as [Hneg | _]; [nia |].
  destruct (py_float_exact (k * k * k) ltac:(nia)) as (x & Hx & Hxv).
  rewrite Hx. cbn [bind]. eexists. split; [reflexivity |].
  unfold libm_pow, real_pow. rewrite Hxv, Ht, !mult_IZR.
  assert (HK : (1 <= IZR k)%R) by (apply IZR_le; lia).
  destruct (Req_dec_T (IZR k * IZR k * IZR k) 0) as [He | _]; [nra |].
  rewrite (third_power_of_cube (IZR k) _ eq_refl) by lra.
  pose proof (third_power_of_cube_lower k ltac:(nia)) as Hlo.
  set (w := exp (- pow2 (-54) * ln (IZR k))) in *.
  assert (Hw : (0 < w <= 1)%R).
  { split; [apply exp_pos |]. unfold w. rewrite <- exp_0.
    pose proof (pow2_pos (-54)).
    assert (0 <= ln (IZR k))%R.
    { rewrite <- ln_1. destruct (Req_dec (IZR k) 1) as [-> | Hne]; [lra |].
      apply Rlt_le, ln_increasing; lra. }
    destruct (Req_dec (- pow2 (-54) * ln (IZR k)) 0) as [-> | Hne]; [lra |].
    apply Rlt_le, exp_increasing. nra. }
  set (v := (IZR k * w)%R).
  assert (Hvk : (v <= IZR k)%R) by (unfold v; nra).
  assert (Hk53 : k < 2 ^ 53) by nia.
  destruct (Rle_lt_dec 1 v) as [Hv1 | Hv1].
  - assert (Hn : nearest v (RN v)) by (apply RN_nearest, nearest_exists; lra).
    assert (Hr0 : (0 <= F2R (RN v))%R).
    { rewrite <- (F2R_int 0). apply (nearest_ge v); [exact Hn | |].
      - apply binary64_int. simpl. lia.
      - rewrite F2R_int. lra. }
    assert (Hrk : (F2R (RN v) <= IZR k)%R).
    { rewrite <- (F2R_int k). apply (nearest_le v); [exact Hn | |].
      - apply binary64_int. lia.
      - rewrite F2R_int. exact Hvk. }
    assert (Hlt : (F2R (RN v) < IZR (k + 1))%R) by (rewrite plus_IZR; lra).
    pose proof (py_int_lt _ (k + 1) Hr0 Hlt). lia.
  - exfalso. assert (Hk2 : (IZR k < 2)%R) by (unfold v in *; lra).
    apply lt_IZR in Hk2. assert (k = 1) as -> by lia.
    unfold v, w in Hv1. rewrite ln_1, Rmult_0_r, exp_0 in Hv1. lra.
Qed.

(** Everywhere below [2^53], [int(count ** (1.0 / 3.0))] is the integer
    cube root or one less. *)
Lemma py_pow_third_range (count k : Z) (t : float) :
  F2R t = (IZR third_num * pow2 (-54))%R ->
  1 <= k -> k * k * k <= count < (k + 1) * (k + 1) * (k + 1) ->
  count < 2 ^ 53 ->
  exists p, py_pow count t = Ok p /\ k - 1 <= py_int p <= k.
Proof.
  intros Ht Hk Hc H53.
  destruct (py_pow_third_lower count k t Ht Hk ltac:(lia)) as (p & Hp & Hlo).
  exists p. split; [exact Hp |]. split; [exact Hlo |].
  destruct (Z_le_gt_dec 4 k) as [H4 | H4].
  - destruct (py_pow_third_upper count (k + 1) t Ht) as (p' & Hp' & Hhi);
      [nia | lia | lia |].
    assert (p' = p) by congruence. subst p'. lia.
  - destruct (Z.eq_dec count (k * k * k)) as [-> | Hne].
    + destruct (py_pow_third_at_cube k t Ht Hk ltac:(lia)) as (p' & Hp' & Hhi).
      assert (p' = p) by congruence. subst p'. lia.
    + destruct (py_pow_third_between count k t Ht Hk) as (p' & Hp' & Hhi);
        [lia | nia |].
      assert (p' = p) by congruence. subst p'. lia.
Qed.

(** Every positive integer lies between two consecutive cubes. *)
Lemma cube_root_exists (n : Z) :
  1 <= n -> exists k, 1 <= k /\ k * k * k <= n < (k + 1) * (k + 1) * (k + 1).
Proof.
  intros Hn. pattern n. apply (Zlt_lower_bound_ind _ 1); [| exact Hn].
  clear n Hn. intros n IH Hn.
  destruct (Z.eq_dec n 1) as [-> | Hne]; [exists 1; lia |].
  destruct (IH (n - 1) ltac:(lia)) as (k & Hk & Hlo & Hhi).
  destruct (Z_lt_le_dec n ((k + 1) * (k + 1) * (k + 1))).
  - exists k. lia.
  - exists (k + 1). nia.
Qed.

(** X5.  The shape of every 3D layout for [1 <= count < 2^53]: the depth
    divides the count and its cube does not exceed the count, the rows and
    columns are the 2D layout of [count / depth], with [rows <= cols], and
    the three multiply to the count. *)
Theorem grid_layout_3d_shape (count : Z) :
  1 <= count < 2 ^ 53 ->
  exists depth rows cols,
    grid_layout_3d count = Ok (depth, rows, cols) /\
    1 <= depth /\ depth * depth * depth <= count /\
    count mod depth = 0 /\
    grid_layout_2d (count / depth) = Ok (rows, cols) /\
    1 <= rows <= cols /\ depth * rows * cols = count.
Proof.
  intros Hc.
  destruct (cube_root_exists count ltac:(lia)) as (k & Hk & Hkc).
  unfold grid_layout_3d.
  destruct py_truediv_third as (t & Ht & Htv). rewrite Ht. cbn [bind].
  destruct (py_pow_third_range count k t Htv Hk Hkc ltac:(lia))
    as (p & Hp & Hi).
  rewrite Hp. cbn [bind]. cbv zeta.
  pose proof (divisor_loop_spec count (py_int p)) as Hd.
  destruct (divisor_loop_divides count (py_int p + 1)) as [Hd1 Hdm].
  pose proof (divisor_loop_product count (py_int p + 1)) as Hprod.
  set (d := divisor_loop count (py_int p + 1)) in *.
  assert (Hdk : d <= k).
  { destruct Hd as [(H1 & _) | (H1 & _)]; lia. }
  assert (Hq : 1 <= count / d < 2 ^ 53).
  { clear - Hd1 Hprod Hc. remember (count / d) as q.
    assert (1 <= q).
    { destruct (Z_le_gt_dec 1 q); [assumption | exfalso].
      assert (d * q <= 0) by (apply Z.mul_nonneg_nonpos; lia). lia. }
    assert (q <= count).
    { rewrite <- Hprod. rewrite <- (Z.mul_1_l q) at 1.
      apply Z.mul_le_mono_nonneg_r; lia. }
    lia. }
  rewrite (grid_layout_2d_eq (count / d)) by lia.
  destruct (grid_layout_2d_isqrt_spec (count / d) ltac:(lia))
    as (Hr & Hs & Hle).
  pose proof (divisor_loop_product (count / d) (Z.sqrt (count / d) + 1))
    as Hprod2.
  destruct (divisor_loop_divides (count / d) (Z.sqrt (count / d) + 1))
    as [Hr1 _].
  unfold grid_layout_2d_isqrt in *. cbn [fst snd] in *. cbn [bind].
  eexists _, _, _. split; [reflexivity |].
  split; [assumption |]. split.
  { clear - Hd1 Hdk Hkc Hk.
    assert (d * d <= k * k) by nia.
    assert (d * d * d <= k * k * k) by nia. lia. }
  split; [assumption |].
  split; [apply (grid_layout_2d_eq (count / d)); lia |]. split; [lia |].
  rewrite <- Z.mul_assoc, Hprod2. exact Hprod.
Qed.

Lemma grid_layout_3d_shape_witness :
  1 <= 10 < 2 ^ 53 /\
  exists depth rows cols,
    grid_layout_3d 10 = Ok (depth, rows, cols) /\
    1 <= depth /\ depth * depth * depth <= 10 /\
    10 mod depth = 0 /\
    grid_layout_2d (10 / depth) = Ok (rows, cols) /\
    1 <= rows <= cols /\ depth * rows * cols = 10.
Proof.
  split; [lia | apply (grid_layout_3d_shape 10); lia].
Defined.

(** X6.  No cube from 64 on gets its cubic layout: for every [k >= 4]
    with [k^3 < 2^53], the float power [(k^3) ** (1.0 / 3.0)] rounds below
    [k], so the depth of [grid_layout_3d(k^3)] is the largest divisor of
    [k^3] up to [k - 1], and is less than [k]. *)
Theorem grid_layout_3d_cube (k : Z) :
  4 <= k -> k * k * k < 2 ^ 53 ->
  exists depth rows cols,
    grid_layout_3d (k * k * k) = Ok (depth, rows, cols) /\
    largest_divisor_upto (k * k * k) (k - 1) depth /\
    depth < k.
Proof.
  intros Hk Hc.
  assert (Hb : forall t, F2R t = (IZR third_num * pow2 (-54))%R ->
               exists p, py_pow (k * k * k) t = Ok p /\ py_int p = k - 1).
  { intros t Ht. destruct (Z.eq_dec k 4) as [-> | Hne].
    - apply (py_pow_third_64 t Ht).
    - destruct (py_pow_third_lower (k * k * k) k t Ht) as (p & Hp & Hlo);
        [lia | lia |].
      destruct (py_pow_third_upper (k * k * k) k t Ht) as (p' & Hp' & Hhi);
        [nia | nia | lia |].
      assert (p' = p) by congruence. subst p'.
      exists p. split; [assumption | lia]. }
  rewrite (grid_layout_3d_with_bound (k * k * k) (k - 1)) by (try nia; exact Hb).
  pose proof (divisor_loop_spec (k * k * k) (k - 1)) as Hd.
  replace (k - 1 + 1) with k in * by lia.
  set (d := divisor_loop (k * k * k) k) in *.
  assert (Hlt : d < k).
  { destruct Hd as [(H1 & _) | (H1 & _)]; lia. }
  eexists _, _, _. split; [reflexivity |].
  split; [exact Hd | exact Hlt].
Qed.

Lemma grid_layout_3d_cube_witness :
  4 <= 5 /\ 5 * 5 * 5 < 2 ^ 53 /\
  exists depth rows cols,
    grid_layout_3d (5 * 5 * 5) = Ok (depth, rows, cols) /\
    largest_divisor_upto (5 * 5 * 5) (5 - 1) depth /\
    depth < 5.
Proof.
  split; [lia |]. split; [lia |]. apply (grid_layout_3d_cube 5); lia.
Defined.

(** X7.  Where the integer cube root [k] does not divide the count, the
    float error does no harm: for [count < 2^53] the depth is the largest
    divisor of the count in [[2, k]] (1 if there is none), and the rest is
    the 2D layout of the quotient. *)
Theorem grid_layout_3d_off_cube (count k : Z) :
  1 <= k -> k * k * k <= count < (k + 1) * (k + 1) * (k + 1) ->
  count < 2 ^ 53 -> count mod k <> 0 ->
  exists depth,
    largest_divisor_upto count k depth /\
    grid_layout_3d count =
    Ok (depth, fst (grid_layout_2d_isqrt (count / depth)),
               snd (grid_layout_2d_isqrt (count / depth))).
Proof.
  intros Hk Hkc H53 Hmod.
  unfold grid_layout_3d.
  destruct py_truediv_third as (t & Ht & Htv). rewrite Ht. cbn [bind].
  destruct (py_pow_third_range count k t Htv Hk Hkc H53) as (p & Hp & Hi).
  rewrite Hp. cbn [bind]. cbv zeta.
  assert (Hd : divisor_loop count (py_int p + 1) = divisor_loop count (k + 1)).
  { destruct (Z.eq_dec (py_int p) k) as [-> | Hne]; [reflexivity |].
    replace (py_int p + 1) with k by lia.
    symmetry. apply divisor_loop_extend. exact Hmod. }
  rewrite Hd. exists (divisor_loop count (k + 1)).
  split; [apply divisor_loop_spec |].
  destruct (divisor_loop_divides count (k + 1)) as [Hd1 _].
  set (d := divisor_loop count (k + 1)) in *.
  rewrite grid_layout_2d_eq.
  - cbn [bind]. destruct (grid_layout_2d_isqrt (count / d)). reflexivity.
  - split; [apply Z.div_pos; lia |].
    apply Z.le_lt_trans with count; [| lia].
    apply Z.div_le_upper_bound; [lia |]. nia.
Qed.

Lemma grid_layout_3d_off_cube_witness :
  1 <= 3 /\ 3 * 3 * 3 <= 29 < (3 + 1) * (3 + 1) * (3 + 1) /\
  29 < 2 ^ 53 /\ 29 mod 3 <> 0 /\
  exists depth,
    largest_divisor_upto 29 3 depth /\
    grid_layout_3d 29 =
    Ok (depth, fst (grid_layout_2d_isqrt (29 / depth)),
               snd (grid_layout_2d_isqrt (29 / depth))).
Proof.
  split; [lia |]. split; [lia |]. split; [lia |].
  split; [vm_compute; discriminate |].
  apply (grid_layout_3d_off_cube 29 3); [lia | lia | lia |].
  vm_compute; discriminate.
Defined.

End GridLayout3dFurther.

(** ** Traversals that fail *)

Section Traversals.

Context {A B : Type}.
Variable f : A -> result B.





End Traversals.

(** ** The tiler of danpy/image.py *)

Section TilerFurther.

Import DanpyImage.

Local Open Scope nat_scope.




Lemma image_at_bounds (images : list (list Image)) (row col : nat)
    (im : Image) :
  image_at images row col = Some im ->
  row < List.length images /\ col < column_count images.
Proof.
  unfold image_at. intros H.
  destruct (nth_error images row) as [imgs |] eqn:Hrow; [| discriminate].
  split; [apply nth_error_Some; congruence |].
  assert (Hc : col < List.length imgs) by (apply nth_error_Some; congruence).
  pose proof (row_le_column_count images) as Hall.
  rewrite Forall_forall in Hall.
  specialize (Hall imgs (nth_error_In _ _ Hrow)). lia.
Qed.

Lemma canvas_width_cell_x (images : list (list Image)) :
  canvas_width images = cell_x images (column_count images).
Proof. reflexivity. Qed.

Lemma canvas_height_cell_y (images : list (list Image)) :
  canvas_height images = cell_y images (List.length images).
Proof. unfold canvas_height, cell_y. rewrite firstn_all. reflexivity. Qed.

Lemma image_inside_canvas (images : list (list Image)) (row col : nat)
    (im : Image) :
  image_at images row col = Some im ->
  cell_x images col + width im <= canvas_width images /\
  cell_y images row + height im <= canvas_height images.
Proof.
  intros Him.
  destruct (image_at_bounds images row col im Him) as [Hr Hc].
  destruct (image_fits_cell images row col im Him)
    as (Hw & imgs & Hrow & Hh).
  split.
  - rewrite canvas_width_cell_x.
    apply Nat.le_trans with (cell_x images (S col)).
    + rewrite cell_x_S. lia.
    + apply cell_x_mono. lia.
  - rewrite canvas_height_cell_y.
    apply Nat.le_trans with (cell_y images (S row)).
    + rewrite (cell_y_S images row imgs Hrow). lia.
    + apply cell_y_mono. lia.
Qed.

(** X9.  No image is clipped: on the canvas [image_tile] returns, the box
    of every image of the grid, at its paste position, lies inside the
    canvas. *)
Theorem image_tile_no_clipping (fs : filesystem) (grid : list (list ImageT))
    (images : list (list Image)) (background : color) :
  mapM (mapM (to_image fs)) grid = Ok images ->
  exists canvas,
    image_tile fs grid None background = Ok canvas /\
    forall row col im,
      image_at images row col = Some im ->
      cell_x images col + width im <= width canvas /\
      cell_y images row + height im <= height canvas.
Proof.
  intros Hload. unfold image_tile. rewrite Hload. cbn [bind].
  destruct (tile_pixels images background) as (canvas & Ht & Hw & Hh & _).
  exists canvas. split; [exact Ht |].
  intros row col im Him. rewrite Hw, Hh.
  apply image_inside_canvas. exact Him.
Qed.

Lemma image_tile_no_clipping_witness :
  mapM (mapM (to_image sample_fs)) sample_grid = Ok sample_images /\
  exists canvas,
    image_tile sample_fs sample_grid None "white"%string = Ok canvas /\
    forall row col im,
      image_at sample_images row col = Some im ->
      cell_x sample_images col + width im <= width canvas /\
      cell_y sample_images row + height im <= height canvas.
Proof.
  split; [reflexivity |].
  apply (image_tile_no_clipping sample_fs sample_grid sample_images
                                "white"%string).
  reflexivity.
Defined.

(** X10.  Tiling a single source gives back that image: a canvas of the
    image's size with the image's pixels. *)
Theorem image_tile_single (fs : filesystem) (source : ImageT) (im : Image)
    (background : color) :
  to_image fs source = Ok im ->
  exists canvas,
    image_tile fs [[source]] None background = Ok canvas /\
    width canvas = width im /\ height canvas = height im /\
    forall i j, i < width im -> j < height im ->
                pixel canvas i j = pixel im i j.
Proof.
  intros Hload. unfold image_tile. cbn [mapM]. rewrite Hload. cbn [bind].
  destruct (tile_pixels [[im]] background)
    as (canvas & Ht & Hw & Hh & Hpix & _).
  exists canvas. split; [exact Ht |].
  assert (Hcw : canvas_width [[im]] = width im).
  { unfold canvas_width, column_count, column_width, cell_width.
    cbn. lia. }
  assert (Hch : canvas_height [[im]] = height im).
  { unfold canvas_height, row_height. cbn. lia. }
  split; [lia |]. split; [lia |].
  intros i j Hi Hj.
  specialize (Hpix 0 0 im i j eq_refl Hi Hj).
  exact Hpix.
Qed.

Lemma image_tile_single_witness :
  to_image sample_fs (Path "a.png"%string) = Ok (solid 100 40 "red"%string) /\
  exists canvas,
    image_tile sample_fs [[Path "a.png"%string]] None "white"%string
      = Ok canvas /\
    width canvas = width (solid 100 40 "red"%string) /\
    height canvas = height (solid 100 40 "red"%string) /\
    forall i j, i < width (solid 100 40 "red"%string) ->
                j < height (solid 100 40 "red"%string) ->
                pixel canvas i j = pixel (solid 100 40 "red"%string) i j.
Proof.
  split; [reflexivity |].
  apply (image_tile_single sample_fs (Path "a.png"%string)
                           (solid 100 40 "red"%string) "white"%string).
  reflexivity.
Defined.

Lemma uniform_spec (images : list (list Image)) (ncols w h : nat) :
  uniform images ncols w h = true ->
  Forall (fun row => List.length row = ncols /\
                     Forall (fun im => width im = w /\ height im = h) row)
         images.
Proof.
  unfold uniform. rewrite forallb_forall, Forall_forall.
  intros H row Hin. specialize (H row Hin).
  apply andb_prop in H. destruct H as [Hlen Hrow].
  split; [apply Nat.eqb_eq; exact Hlen |].
  rewrite forallb_forall in Hrow. rewrite Forall_forall.
  intros im Him. specialize (Hrow im Him).
  apply andb_prop in Hrow. destruct Hrow as [H1 H2].
  split; apply Nat.eqb_eq; assumption.
Qed.

Lemma list_max_const (l : list nat) (v : nat) :
  l <> [] -> Forall (fun x => x = v) l -> list_max l = v.
Proof.
  intros Hne Hall. induction Hall as [| x l Hx Hall IH]; [congruence |].
  change (list_max (x :: l)) with (Nat.max x (list_max l)).
  destruct l as [| y l'].
  - cbn. lia.
  - rewrite IH by discriminate. lia.
Qed.

Lemma uniform_column_width (images : list (list Image)) (ncols w h col : nat) :
  uniform images ncols w h = true -> images <> [] -> col < ncols ->
  column_width images col = w.
Proof.
  intros Hu Hne Hc. apply uniform_spec in Hu.
  unfold column_width. apply list_max_const.
  - destruct images; [congruence | discriminate].
  - apply Forall_map. revert Hu. apply Forall_impl.
    intros row [Hlen Hrow]. unfold cell_width.
    destruct (nth_error row col) as [im |] eqn:E.
    + rewrite Forall_forall in Hrow.
      apply (Hrow im (nth_error_In _ _ E)).
    + apply nth_error_None in E. lia.
Qed.

Lemma uniform_row_height (images : list (list Image)) (ncols w h : nat)
    (row : list Image) :
  uniform images ncols w h = true -> 0 < ncols -> In row images ->
  row_height row = h.
Proof.
  intros Hu Hc Hin. apply uniform_spec in Hu. rewrite Forall_forall in Hu.
  destruct (Hu row Hin) as [Hlen Hrow].
  unfold row_height. apply list_max_const.
  - destruct row; [simpl in Hlen; lia | discriminate].
  - apply Forall_map. revert Hrow. apply Forall_impl. intros im [_ H]. exact H.
Qed.

Lemma uniform_column_count (images : list (list Image)) (ncols w h : nat) :
  uniform images ncols w h = true -> images <> [] -> column_count images = ncols.
Proof.
  intros Hu Hne. apply uniform_spec in Hu.
  unfold column_count. apply list_max_const.
  - destruct images; [congruence | discriminate].
  - apply Forall_map. revert Hu. apply Forall_impl. intros row [H _]. exact H.
Qed.

Lemma uniform_cell_x (images : list (list Image)) (ncols w h : nat) :
  uniform images ncols w h = true -> images <> [] ->
  forall col, col <= ncols -> cell_x images col = col * w.
Proof.
  intros Hu Hne col. induction col as [| col IH]; intros Hc.
  - reflexivity.
  - rewrite cell_x_S, IH by lia.
    rewrite (uniform_column_width images ncols w h) by (assumption || lia).
    lia.
Qed.

Lemma uniform_cell_y (images : list (list Image)) (ncols w h : nat) :
  uniform images ncols w h = true -> 0 < ncols ->
  forall row, row <= List.length images -> cell_y images row = row * h.
Proof.
  intros Hu Hc row. induction row as [| row IH]; intros Hr.
  - reflexivity.
  - destruct (nth_error images row) as [imgs |] eqn:E.
    + rewrite (cell_y_S images row imgs E), IH by lia.
      rewrite (uniform_row_height images ncols w h imgs Hu Hc
                 (nth_error_In _ _ E)).
      lia.
    + apply nth_error_None in E. lia.
Qed.

(** X11.  A regular grid leaves no background: when every row holds
    [ncols] images and every image is [w] by [h], the canvas is
    [ncols * w] by [nrows * h], and its pixel [(i, j)] is pixel
    [(i mod w, j mod h)] of the image at row [j div h], column
    [i div w]. *)
Theorem image_tile_uniform (fs : filesystem) (grid : list (list ImageT))
    (images : list (list Image)) (ncols w h : nat) (background : color) :
  mapM (mapM (to_image fs)) grid = Ok images ->
  uniform images ncols w h = true ->
  0 < List.length images -> 0 < ncols ->
  exists canvas,
    image_tile fs grid None background = Ok canvas /\
    width canvas = ncols * w /\
    height canvas = List.length images * h /\
    forall i j, i < width canvas -> j < height canvas ->
      exists im, image_at images (j / h) (i / w) = Some im /\
                 pixel canvas i j = pixel im (i mod w) (j mod h).
Proof.
  intros Hload Hu Hlen0 Hc.
  assert (Hne : images <> []) by (intros ->; simpl in Hlen0; lia).
  unfold image_tile. rewrite Hload. cbn [bind].
  destruct (tile_pixels images background)
    as (canvas & Ht & Hw & Hh & Hpix & _).
  exists canvas. split; [exact Ht |].
  assert (Hcw : width canvas = ncols * w).
  { rewrite Hw. unfold canvas_width. fold (cell_x images (column_count images)).
    rewrite (uniform_column_count images ncols w h) by assumption.
    apply (uniform_cell_x images ncols w h); (assumption || lia). }
  assert (Hch : height canvas = List.length images * h).
  { rewrite Hh. unfold canvas_height.
    rewrite <- (firstn_all images) at 1.
    apply (uniform_cell_y images ncols w h); (assumption || lia). }
  split; [exact Hcw |]. split; [exact Hch |].
  intros i j Hi Hj. rewrite Hcw in Hi. rewrite Hch in Hj.
  assert (Hw0 : 0 < w) by nia. assert (Hh0 : 0 < h) by nia.
  assert (Hcol : i / w < ncols)
    by (apply Nat.Div0.div_lt_upper_bound; lia).
  assert (Hrow : j / h < List.length images)
    by (apply Nat.Div0.div_lt_upper_bound; lia).
  destruct (nth_error images (j / h)) as [imgs |] eqn:Er;
    [| apply nth_error_None in Er; lia].
  pose proof (uniform_spec _ _ _ _ Hu) as Hall.
  rewrite Forall_forall in Hall.
  destruct (Hall imgs (nth_error_In _ _ Er)) as [Hlen Himgs].
  destruct (nth_error imgs (i / w)) as [im |] eqn:Ec;
    [| apply nth_error_None in Ec; lia].
  rewrite Forall_forall in Himgs.
  destruct (Himgs im (nth_error_In _ _ Ec)) as [Hwi Hhi].
  assert (Him : image_at images (j / h) (i / w) = Some im).
  { unfold image_at. rewrite Er. exact Ec. }
  exists im. split; [exact Him |].
  rewrite <- (Hpix (j / h) (i / w) im (i mod w) (j mod h) Him).
  - rewrite (uniform_cell_x images ncols w h) by (assumption || lia).
    rewrite (uniform_cell_y images ncols w h) by (assumption || lia).
    f_equal.
    + pose proof (Nat.div_mod i w ltac:(lia)). lia.
    + pose proof (Nat.div_mod j h ltac:(lia)). lia.
  - rewrite Hwi. apply Nat.mod_upper_bound. lia.
  - rewrite Hhi. apply Nat.mod_upper_bound. lia.
Qed.

Lemma image_tile_uniform_witness :
  mapM (mapM (to_image sample_fs)) (map (map Loaded) sample_uniform)
    = Ok sample_uniform /\
  uniform sample_uniform 2 2 3 = true /\
  0 < List.length sample_uniform /\ 0 < 2 /\
  exists canvas,
    image_tile sample_fs (map (map Loaded) sample_uniform) None
               "white"%string = Ok canvas /\
    width canvas = 2 * 2 /\
    height canvas = List.length sample_uniform * 3 /\
    forall i j, i < width canvas -> j < height canvas ->
      exists im, image_at sample_uniform (j / 3) (i / 2) = Some im /\
                 pixel canvas i j = pixel im (i mod 2) (j mod 3).
Proof.
  split; [reflexivity |]. split; [reflexivity |].
  split; [simpl; lia |]. split; [lia |].
  apply (image_tile_uniform sample_fs (map (map Loaded) sample_uniform)
                            sample_uniform 2 2 3 "white"%string);
    [reflexivity | reflexivity | simpl; lia | lia].
Defined.

(** X12.  With an explicit layout [(r, c)] that has room for all items,
    [image_tile_auto] tiles the grid of [r] rows that holds every item
    once, in order, item [i] at row [i div c] and column [i mod c]; the
    cells left over stay empty. *)
Theorem image_tile_auto_layout_fits (fs : filesystem) (items : list ImageT)
    (r c : Z) (resolution : option (Z * Z)) (background : color) :
  (0 <= r)%Z -> (0 <= c)%Z -> (Z.of_nat (List.length items) <= r * c)%Z ->
  image_tile_auto fs items (Some (r, c)) resolution background =
    image_tile fs (row_major items (Z.to_nat r) (Z.to_nat c))
               resolution background /\
  List.length (row_major items (Z.to_nat r) (Z.to_nat c)) = Z.to_nat r /\
  List.concat (row_major items (Z.to_nat r) (Z.to_nat c)) = items /\
  (forall i, i < List.length items ->
     nth_error (nth (i / Z.to_nat c)
                    (row_major items (Z.to_nat r) (Z.to_nat c)) [])
               (i mod Z.to_nat c)
     = nth_error items i).
Proof.
  intros Hr Hc Hfit.
  assert (Hn : List.length items <= Z.to_nat r * Z.to_nat c) by nia.
  split; [| split; [| split]].
  - unfold image_tile_auto. cbn [bind]. rewrite arrange_row_major.
    reflexivity.
  - apply length_row_major.
  - rewrite concat_row_major. apply firstn_all2. exact Hn.
  - intros i Hi.
    assert (Hc0 : 0 < Z.to_nat c) by nia.
    rewrite row_major_cell.
    + f_equal. pose proof (Nat.div_mod i (Z.to_nat c) ltac:(lia)). lia.
    + apply Nat.Div0.div_lt_upper_bound. lia.
    + apply Nat.mod_upper_bound. lia.
Qed.

Lemma image_tile_auto_layout_fits_witness :
  (0 <= 2)%Z /\ (0 <= 2)%Z /\
  (Z.of_nat (List.length three_items) <= 2 * 2)%Z /\
  image_tile_auto sample_fs three_items (Some (2, 2)%Z) None "white"%string =
    image_tile sample_fs (row_major three_items (Z.to_nat 2) (Z.to_nat 2))
               None "white"%string /\
  List.length (row_major three_items (Z.to_nat 2) (Z.to_nat 2)) = Z.to_nat 2 /\
  List.concat (row_major three_items (Z.to_nat 2) (Z.to_nat 2)) = three_items /\
  (forall i, i < List.length three_items ->
     nth_error (nth (i / Z.to_nat 2)
                    (row_major three_items (Z.to_nat 2) (Z.to_nat 2)) [])
               (i mod Z.to_nat 2)
     = nth_error three_items i).
Proof.
  split; [lia |]. split; [lia |]. split; [simpl; lia |].
  apply (image_tile_auto_layout_fits sample_fs three_items 2 2 None
                                     "white"%string);
    [lia | lia | simpl; lia].
Defined.

Lemma row_major_no_columns {X : Type} (items : list X) (nrows : nat) :
  row_major items nrows 0 = repeat [] nrows.
Proof.
  unfold row_major. cbn [firstn].
  generalize 0 at 1. induction nrows as [| n IH]; intros s; [reflexivity |].
  cbn [seq map repeat]. f_equal. apply IH.
Qed.

Lemma mapM_empty_rows {X Y : Type} (g : X -> result Y) (n : nat) :
  mapM (mapM g) (repeat [] n) = Ok (repeat [] n).
Proof.
  induction n as [| n IH]; [reflexivity |].
  cbn [repeat mapM bind]. rewrite IH. reflexivity.
Qed.

Lemma column_count_empty_rows (n : nat) :
  column_count (repeat [] n) = 0.
Proof.
  unfold column_count. induction n as [| n IH]; [reflexivity |].
  cbn [repeat map].
  change (list_max (List.length (@nil Image) ::
                    map (@List.length Image) (repeat [] n)))
    with (Nat.max 0 (list_max (map (@List.length Image) (repeat [] n)))).
  rewrite IH. reflexivity.
Qed.

Lemma canvas_empty_rows (n : nat) :
  canvas_width (repeat [] n) = 0 /\ canvas_height (repeat [] n) = 0.
Proof.
  split.
  - unfold canvas_width. rewrite column_count_empty_rows. reflexivity.
  - unfold canvas_height. induction n as [| n IH]; [reflexivity |].
    cbn [repeat map]. change (list_sum (?x :: ?l)) with (x + list_sum l).
    rewrite IH. reflexivity.
Qed.

(** X13.  With an explicit layout that has no cells ([r <= 0] or
    [c <= 0]) [image_tile_auto] loads nothing: whatever the items are, and
    whether they could be loaded or not, it returns an empty canvas. *)
Theorem image_tile_auto_no_cells (fs : filesystem) (items : list ImageT)
    (r c : Z) (background : color) :
  (r <= 0)%Z \/ (c <= 0)%Z ->
  exists canvas,
    image_tile_auto fs items (Some (r, c)) None background = Ok canvas /\
    width canvas = 0 /\ height canvas = 0.
Proof.
  intros Hrc. unfold image_tile_auto. cbn [bind].
  rewrite arrange_row_major.
  assert (Hg : exists n, row_major items (Z.to_nat r) (Z.to_nat c) =
                         repeat [] n).
  { destruct Hrc as [Hr | Hc].
    - exists 0. replace (Z.to_nat r) with 0 by lia. reflexivity.
    - exists (Z.to_nat r). replace (Z.to_nat c) with 0 by lia.
      apply row_major_no_columns. }
  destruct Hg as [n ->]. unfold image_tile.
  rewrite mapM_empty_rows. cbn [bind].
  destruct (tile_pixels (repeat [] n) background)
    as (canvas & Ht & Hw & Hh & _).
  destruct (canvas_empty_rows n) as [Hcw Hch].
  exists canvas. split; [exact Ht |]. split; congruence.
Qed.

Lemma image_tile_auto_no_cells_witness :
  ((0 <= 0)%Z \/ (2 <= 0)%Z) /\
  exists canvas,
    image_tile_auto sample_fs [Other] (Some (0, 2)%Z) None "white"%string
      = Ok canvas /\
    width canvas = 0 /\ height canvas = 0.
Proof.
  split; [left; lia |].
  apply (image_tile_auto_no_cells sample_fs [Other] 0 2 "white"%string).
  left; lia.
Defined.

End TilerFurther.

(** ** The tiler of danpy/image_tile.py *)

Section OlderTiler.

Local Open Scope nat_scope.

(** X14.  The older tiler is the newer one followed by [save]: both
    [image_tile] and [image_tile_auto] of danpy/image_tile.py compute the
    image that those of danpy/image.py return for the same paths, and
    save it at [out_path]; this holds whatever [save] does. *)
Theorem image_tile_py_composes
    (save : filesystem -> Image -> string -> result filesystem)
    (fs : filesystem) (out_path : string)
    (resolution : option (Z * Z)) (background : color) :
  (forall in_paths,
     DanpyImageTile.image_tile save fs in_paths out_path resolution
                               background =
     (combined_img <- DanpyImage.image_tile
                        fs (map (map DanpyImage.Path) in_paths)
                        resolution background ;;
      save fs combined_img out_path)) /\
  (forall paths layout,
     DanpyImageTile.image_tile_auto save fs paths out_path layout resolution
                                    background =
     (combined_img <- DanpyImage.image_tile_auto
                        fs (map DanpyImage.Path paths) layout
                        resolution background ;;
      save fs combined_img out_path)).
Proof.
  split.
  - intros in_paths. apply image_tile_py_eq.
  - intros paths layout. apply image_tile_auto_py_eq.
Qed.





End OlderTiler.

(** ** Locations and labels *)

Section AbsLoc.

Import DanpyImage DanpyImageLabel.

Local Open Scope string_scope.

Lemma str_in_spec (key : string) (t : list string) :
  str_in key t = true <-> In key t.
Proof.
  unfold str_in. rewrite existsb_exists. split.
  - intros (x & Hin & Heq). apply String.eqb_eq in Heq. now subst.
  - intros Hin. exists key. split; [exact Hin | apply String.eqb_refl].
Qed.

Lemma dict_get_In {V : Type} (d : list (string * V)) (key : string) (v : V) :
  dict_get d key = Some v -> In (key, v) d.
Proof.
  induction d as [| [k w] d IH]; [discriminate |]. cbn [dict_get].
  destruct (String.eqb_spec key k) as [-> | Hne].
  - intros H. injection H as ->. left. reflexivity.
  - intros H. right. apply IH, H.
Qed.

(** What [to_canonical_absloc] can return. *)
Lemma to_canonical_absloc_range (loc c : string) :
  to_canonical_absloc loc = Ok c ->
  In c canonical_locs \/
  (c = "leftcenter" /\ normalize_loc loc = "leftcenter").
Proof.
  unfold to_canonical_absloc.
  set (n := normalize_loc loc).
  destruct (dict_get aliases n) as [v |] eqn:Ea.
  - intros H. injection H as ->. apply dict_get_In in Ea.
    left. cbn in Ea. cbn.
    repeat (destruct Ea as [Ea | Ea]; [injection Ea as _ <-; tauto |]).
    contradiction.
  - destruct (str_in n AbsoluteLocT_args) eqn:Ei; cbn [negb]; [| discriminate].
    intros H. injection H as <-. apply str_in_spec in Ei.
    cbn in Ei.
    repeat (destruct Ei as [Ei | Ei];
            [try (left; cbn; tauto);
             try (right; split; congruence);
             try (exfalso; rewrite <- Ei in Ea; discriminate) |]).
    contradiction.
Qed.

(** X17.  [to_canonical_absloc] is idempotent, as its documentation
    says: what it returns it maps to itself. *)
Theorem to_canonical_absloc_idempotent (loc c : string) :
  to_canonical_absloc loc = Ok c -> to_canonical_absloc c = Ok c.
Proof.
  intros H. apply to_canonical_absloc_range in H.
  destruct H as [H | [-> _]]; [| reflexivity].
  cbn in H.
  repeat (destruct H as [<- | H]; [reflexivity |]). contradiction.
Qed.

Lemma to_canonical_absloc_idempotent_witness :
  to_canonical_absloc "Top-Left" = Ok "top left" /\
  to_canonical_absloc "top left" = Ok "top left".
Proof.
  split; [reflexivity |].
  apply (to_canonical_absloc_idempotent "Top-Left" "top left").
  reflexivity.
Defined.

(** X18.  [to_canonical_absloc] raises nothing but [ValueError], and
    what it returns is one of the nine canonical locations, with one
    exception: a location that spells ["leftcenter"] (in any case) is
    returned as it is, because the type [AbsoluteLocT] holds that string
    where a comma is missing between ["left"] and ["center"]. *)
Theorem to_canonical_absloc_result (loc : string) :
  match to_canonical_absloc loc with
  | Ok c => if String.eqb (normalize_loc loc) "leftcenter"
            then c = "leftcenter"
            else In c canonical_locs
  | Raise e => e = ValueError
  end.
Proof.
  destruct (to_canonical_absloc loc) as [c | e] eqn:Hc.
  - destruct (to_canonical_absloc_range loc c Hc) as [Hin | [-> Hn]].
    + destruct (String.eqb_spec (normalize_loc loc) "leftcenter")
        as [Hn | _]; [| exact Hin].
      unfold to_canonical_absloc in Hc. rewrite Hn in Hc.
      cbn in Hc. congruence.
    + rewrite Hn. reflexivity.
  - unfold to_canonical_absloc in Hc.
    destruct (dict_get aliases (normalize_loc loc)); [discriminate |].
    destruct (str_in (normalize_loc loc) AbsoluteLocT_args);
      cbn [negb] in Hc; congruence.
Qed.

End AbsLoc.

Section LabelImageProps.

Import DanpyImage DanpyImageLabel.

Local Open Scope string_scope.

Variable truetype : string -> Z -> result FreeTypeFont.
Variable draw_text : Image -> text_call -> result unit.

Lemma dict_get_anchors (c : string) :
  In c canonical_locs -> exists a, dict_get anchors c = Some a.
Proof.
  cbn. intros H.
  repeat (destruct H as [<- | H]; [eexists; reflexivity |]). contradiction.
Qed.

Lemma dict_get_text_xys (im : Image) (w h : Z) (c : string) :
  In c canonical_locs -> exists xy, dict_get (text_xys im w h) c = Some xy.
Proof.
  cbn. intros H.
  repeat (destruct H as [<- | H]; [eexists; reflexivity |]). contradiction.
Qed.

(** X19.  With an image and a font that load, [label_image] raises what
    [to_canonical_absloc] raises; for a location that
    [to_canonical_absloc] maps to ["leftcenter"] it raises [KeyError],
    before anything is drawn; for every other location it makes one
    [draw.text] call, with the anchor of the canonical location, the given
    text and the loaded font, and returns the loaded image, or raises what
    the drawing raises. *)
Theorem label_image_key_error (fs : filesystem) (image : ImageT)
    (im : Image) (fnt : FreeTypeFont) (text loc : string) (font : FontT)
    (size : option Z) (stroke invert : bool) :
  to_image fs image = Ok im ->
  to_font truetype font (label_size size im) = Ok fnt ->
  match to_canonical_absloc loc with
  | Raise e =>
      label_image truetype draw_text fs image text loc font size stroke
                  invert = Raised e
  | Ok c =>
      if String.eqb c "leftcenter"
      then label_image truetype draw_text fs image text loc font size
                       stroke invert = RaisedKeyError
      else exists call,
             dict_get anchors c = Some (call_anchor call) /\
             call_text call = text /\ call_font call = fnt /\
             label_image truetype draw_text fs image text loc font size
                         stroke invert =
             match draw_text im call with
             | Ok _ => Returned (im, call)
             | Raise e => Raised e
             end
  end.
Proof.
  intros Him Hf. unfold label_image. rewrite Him, Hf.
  destruct (to_canonical_absloc loc) as [c | e0] eqn:Hc; [| reflexivity].
  destruct (to_canonical_absloc_range loc c Hc) as [Hin | [-> _]].
  - destruct (dict_get_anchors c Hin) as (a & Ha).
    unfold dict_item. rewrite Ha.
    destruct (getbbox fnt "#") as [[[l t] r] b].
    destruct (dict_get_text_xys im (r - l) (b - t) c Hin) as (xy & Hxy).
    rewrite Hxy.
    destruct (String.eqb_spec c "leftcenter") as [-> | _].
    + exfalso. cbn in Hin.
      repeat (destruct Hin as [Hin | Hin]; [discriminate |]).
      contradiction.
    + eexists. split; [| split; [| split]]; [| | | reflexivity];
        reflexivity.
  - reflexivity.
Qed.

(** X20.  The point [label_image] hands to [draw.text] lies within the
    image whenever the box of ["#"] in the font fits into the image. *)
Theorem label_image_anchor_inside (fs : filesystem) (image : ImageT)
    (text loc : string) (font : FontT) (size : option Z)
    (stroke invert : bool) (im : Image) (call : text_call) (l t r b : Z) :
  label_image truetype draw_text fs image text loc font size stroke invert
    = Returned (im, call) ->
  getbbox (call_font call) "#" = (l, t, r, b) ->
  0 <= r - l <= Z.of_nat (width im) ->
  0 <= b - t <= Z.of_nat (height im) ->
  0 <= fst (call_xy call) <= Z.of_nat (width im) /\
  0 <= snd (call_xy call) <= Z.of_nat (height im).
Proof.
  unfold label_image.
  destruct (to_image fs image) as [im0 |]; [| discriminate].
  destruct (to_font truetype font (label_size size im0)) as [fnt |];
    [| discriminate].
  destruct (to_canonical_absloc loc) as [c |]; [| discriminate].
  unfold dict_item.
  destruct (dict_get anchors c) as [a |] eqn:Ha; [| discriminate].
  destruct (getbbox fnt "#") as [[[l0 t0] r0] b0] eqn:Hb.
  destruct (dict_get (text_xys im0 (r0 - l0) (b0 - t0)) c) as [xy |] eqn:Hxy;
    [| discriminate].
  destruct (draw_text im0 _); [| discriminate].
  intros H. injection H as -> <-. cbn [call_font call_xy]. rewrite Hb.
  intros Hbox. injection Hbox as -> -> -> ->.
  intros Hw Hh. apply dict_get_In in Hxy.
  pose proof (Z.div_pos (Z.of_nat (width im)) 2 ltac:(lia) ltac:(lia)).
  pose proof (Z.div_pos (Z.of_nat (height im)) 2 ltac:(lia) ltac:(lia)).
  assert (Z.of_nat (width im) / 2 <= Z.of_nat (width im))
    by (apply Z.div_le_upper_bound; lia).
  assert (Z.of_nat (height im) / 2 <= Z.of_nat (height im))
    by (apply Z.div_le_upper_bound; lia).
  cbn in Hxy.
  repeat (destruct Hxy as [Hxy | Hxy];
          [injection Hxy as _ <-; cbn [fst snd]; lia |]).
  contradiction.
Qed.

End LabelImageProps.

Section LabelImageWitnesses.

Import DanpyImage DanpyImageLabel.

Local Open Scope string_scope.

Lemma label_image_key_error_witness :
  to_image sample_fs (Path "a.png") = Ok (solid 100 40 "red") /\
  to_font sample_truetype FontNone (label_size None (solid 100 40 "red"))
    = Ok (MkFont (fun _ => (0, 0, 2, 2))) /\
  label_image sample_truetype sample_draw sample_fs (Path "a.png") "A"
              "LeftCenter" FontNone None true false = RaisedKeyError.
Proof.
  split; [reflexivity |]. split; [reflexivity |].
  apply (label_image_key_error sample_truetype sample_draw sample_fs
           (Path "a.png") (solid 100 40 "red")
           (MkFont (fun _ => (0, 0, 2, 2)))
           "A" "LeftCenter" FontNone None true false);
    reflexivity.
Defined.

Lemma label_image_anchor_inside_witness :
  label_image sample_truetype sample_draw sample_fs (Path "a.png") "A"
              "Top-Right" FontNone None true false
    = Returned (solid 100 40 "red",
                MkTextCall (98, 2) "A" "white"
                           (MkFont (fun _ => (0, 0, 2, 2))) "rt"
                           (Some (0, "black"))) /\
  0 <= 98 <= Z.of_nat (width (solid 100 40 "red")) /\
  0 <= 2 <= Z.of_nat (height (solid 100 40 "red")).
Proof.
  split; [reflexivity |].
  apply (label_image_anchor_inside sample_truetype sample_draw sample_fs
           (Path "a.png")
           "A" "Top-Right" FontNone None true false
           (solid 100 40 "red")
           (MkTextCall (98, 2) "A" "white"
                       (MkFont (fun _ => (0, 0, 2, 2))) "rt"
                       (Some (0, "black")))
           0 0 2 2);
    [reflexivity | reflexivity | simpl; lia | simpl; lia].
Defined.

End LabelImageWitnesses.

(** ** danpy/option.py *)

Section OptionProps.

Import DanpyOption.

Context {T : Type}.

(** X21.  [to_opt] is idempotent, as its documentation says: it never
    nests a [Some], it never returns a bare value, and wrapping with it
    does not change what [unwrap] gives. *)
Theorem to_opt_idempotent (val : object T) :
  to_opt (to_opt val) = to_opt val /\
  (forall t, to_opt val <> Raw t) /\
  unwrap (to_opt val) = unwrap val.
Proof. destruct val; repeat split; try reflexivity; intros; discriminate. Qed.

(** X22.  [map_opt] never reaches its [assert False], mapping twice is
    mapping with the composed function, mapping with the identity is
    [to_opt], and the result is [None] exactly for [None]. *)
Theorem map_opt_compose (val : object T) (f g : object T -> object T) :
  exists v, map_opt val f = Returns v /\
            map_opt v g = map_opt val (fun t => g (f t)) /\
            map_opt val (fun t => t) = Returns (to_opt val) /\
            (v = PyNone <-> val = PyNone).
Proof.
  destruct val as [| x | t]; eexists; (split; [reflexivity |]);
    (split; [reflexivity |]); (split; [reflexivity |]);
    split; intros; (reflexivity || discriminate).
Qed.

(** X23.  [or_default] is [or_get_default] with a constant default, and
    gives what [unwrap] gives for everything but [None]; so
    [or_default(Some(None), d)] is [None], not [d]. *)
Theorem or_default_lazy (opt default : object T) :
  or_default opt default = or_get_default opt (fun _ => default) /\
  (opt <> PyNone -> or_default opt default = unwrap opt) /\
  or_default (PySome PyNone) default = Returns PyNone.
Proof.
  destruct opt; repeat split; try reflexivity; intros; congruence.
Qed.

End OptionProps.

(** ** danpy/logging.py *)

Section LoggingProps.

Import DanpyLogging.

(** X24.  [PerfInfo] addition and subtraction undo each other, addition
    commutes, [+=] computes what [+] computes, and an operand that is no
    [PerfInfo] raises [TypeError] in all three. *)
Theorem PerfInfo_add_sub (a b : PerfInfo) :
  (r <- add a (IsPerfInfo b) ;; sub r (IsPerfInfo b)) = Ok a /\
  add a (IsPerfInfo b) = add b (IsPerfInfo a) /\
  iadd a (IsPerfInfo b) = add a (IsPerfInfo b) /\
  add a NotPerfInfo = Raise TypeError /\
  sub a NotPerfInfo = Raise TypeError /\
  iadd a NotPerfInfo = Raise TypeError.
Proof.
  destruct a as [ea ma], b as [eb mb]. cbn.
  repeat split; f_equal; f_equal; lia.
Qed.

Lemma Fnum_zero (f : float) : F2R f = 0%R -> Fnum f = 0.
Proof.
  unfold F2R. intros H. pose proof (pow2_pos (Fexp f)).
  apply eq_IZR. apply Rmult_integral in H. destruct H; [assumption | lra].
Qed.

(** X25.  A [PerfInfo] without time has no rate: when [micros] is 0, as
    in a fresh [PerfInfo()], [rate] raises [ZeroDivisionError]. *)
Theorem rate_without_time (p : PerfInfo) :
  micros p = 0 -> Z.abs (events p) < 2 ^ 1024 - 2 ^ 970 ->
  rate p = Raise ZeroDivisionError.
Proof.
  intros Hm He. unfold rate, seconds. rewrite Hm.
  unfold py_float at 1. cbn [Z.abs]. 
  destruct (Z.leb_spec (2 ^ 1024 - 2 ^ 970) 0) as [H | _]; [lia |].
  cbn [bind]. unfold py_float.
  destruct (Z.leb_spec (2 ^ 1024 - 2 ^ 970) (Z.abs (events p))) as [H | _];
    [lia |].
  cbn [bind]. unfold py_truediv.
  assert (Hz : F2R (RN 0) = 0%R).
  { apply (RN_exact 0 (Float 0 0)); [apply binary64_int; simpl; lia |].
    apply F2R_int. }
  assert (Hs : F2R (py_mul (RN 0) f1e_6) = 0%R).
  { unfold py_mul. rewrite Hz, Rmult_0_l.
    rewrite (RN_inf_finite 0 0) by (try lia; rewrite Rabs_R0; lra).
    exact Hz. }
  rewrite (Fnum_zero _ Hs). reflexivity.
Qed.

Lemma rate_without_time_witness :
  micros (MkPerfInfo 2500 0) = 0 /\
  Z.abs (events (MkPerfInfo 2500 0)) < 2 ^ 1024 - 2 ^ 970 /\
  rate (MkPerfInfo 2500 0) = Raise ZeroDivisionError.
Proof.
  split; [reflexivity |]. split; [simpl; lia |].
  apply (rate_without_time (MkPerfInfo 2500 0)); [reflexivity | simpl; lia].
Defined.

Lemma RN_int (n : Z) : Z.abs n < 2 ^ 53 -> F2R (RN (IZR n)) = IZR n.
Proof.
  intros Hn. apply (RN_exact (IZR n) (Float n 0)).
  - apply binary64_int. exact Hn.
  - apply F2R_int.
Qed.

Lemma py_int_of_int (f : float) (n : Z) :
  0 <= n -> F2R f = IZR n -> py_int f = n.
Proof.
  intros Hn Hf.
  assert (H0 : (0 <= F2R f)%R) by (rewrite Hf; apply IZR_le; exact Hn).
  destruct (py_int_floor f H0) as [Hlo Hhi]. rewrite Hf in Hlo, Hhi.
  apply le_IZR in Hlo.
  assert (Hlt : (IZR n < IZR (py_int f + 1))%R) by (rewrite plus_IZR; lra).
  apply lt_IZR in Hlt. lia.
Qed.

Lemma RN_inf_int (n : Z) : Z.abs n < 2 ^ 53 -> F2R (RN_inf (IZR n)) = IZR n.
Proof.
  intros Hn. rewrite (RN_inf_finite (IZR n) (Z.abs n)).
  - apply RN_int. exact Hn.
  - rewrite abs_IZR. lra.
  - lia.
Qed.

(** X26.  On a timer that [tick] made, [tock] never raises and forgets
    whole days: it reads only the [seconds] and [microseconds] of the
    elapsed [timedelta], so the [micros] it reports are the elapsed
    microseconds modulo 24 hours; the events are those of the timer plus
    the ones passed, which the timer keeps. *)
Theorem tock_wraps_at_one_day (self : PerfTimer) (now n : Z) :
  tock self now n =
  Ok (add_events self n,
      MkPerfInfo (timer_events self + n)
                 ((now - start self) mod 86400000000)).
Proof.
  unfold tock, elapsed, datetime_sub.
  cbn [add_events start timer_events td_seconds td_microseconds].
  set (us := now - start self).
  pose proof (Z.mod_pos_bound us 86400000000 ltac:(lia)) as Hd.
  pose proof (Z.mod_pos_bound us 1000000 ltac:(lia)) as Hu.
  set (s := us mod 86400000000 / 1000000).
  assert (Hs : 0 <= s < 86400).
  { unfold s. split; [apply Z.div_pos; lia |].
    apply Z.div_lt_upper_bound; lia. }
  assert (Hsplit : s * 1000000 + us mod 1000000 = us mod 86400000000).
  { rewrite <- (Z.mod_mod_divide us 86400000000 1000000)
      by (exists 86400; reflexivity).
    unfold s.
    pose proof (Z.div_mod (us mod 86400000000) 1000000 ltac:(lia)). lia. }
  unfold py_float.
  destruct (Z.leb_spec (2 ^ 1024 - 2 ^ 970) (Z.abs s)) as [H | _]; [lia |].
  destruct (Z.leb_spec (2 ^ 1024 - 2 ^ 970) (Z.abs (us mod 1000000)))
    as [H | _]; [lia |].
  cbn [bind]. f_equal. f_equal. f_equal.
  assert (Hmul : F2R (py_mul (RN (IZR s)) f1e6) = IZR (s * 1000000)).
  { unfold py_mul. rewrite RN_int by lia.
    unfold f1e6. rewrite F2R_int, <- mult_IZR. apply RN_inf_int. lia. }
  rewrite <- Hsplit. apply py_int_of_int; [lia |].
  unfold py_add. rewrite Hmul, RN_int by lia.
  rewrite <- plus_IZR. apply RN_inf_int. lia.
Qed.

End LoggingProps.
